(** * geocoding2: the resumable, concurrency-bounded enrichment pipeline

    A shallow embedding of the scripts
      - [scripts/geocoder_chunked.py]       (primary lookups, chunks, checkpoint),
      - [scripts/retry_timeout.py]          (recovery pass),
      - [scripts/fix_notfound.py] and
        [scripts/fix_old_municipalities.py] (fallback passes),
    followed by the properties of the specification that are stated on them.

    Conventions.
      - A Python [str] is the list of its code points ([pystr]); literals are
        written [u "..."] and decoded from the UTF-8 bytes of the source file.
      - Values decoded from JSON, and the Python values stored in a data
        frame, are [json] values.
      - Network, semaphore, sleep and file-system effects are appended to a
        log of events; the external service is a function of the log so far
        and of the query, which covers every deterministic and every
        history-dependent behaviour of the service. *)

From Stdlib Require Import ZArith NArith String Ascii List Lia.
From Stdlib Require Import Floats.PrimFloat.
From Stdlib Require Uint63.
From Stdlib Require DecimalString.
From stdpp Require Import base option list gmap.

Set Default Proof Using "Type".
Set Warnings "-register-all".

(* ===================================================================== *)
(** ** Python strings *)
(* ===================================================================== *)

Module Py.

(** A Python string: the sequence of its Unicode code points. *)
Definition pystr := list N.

Fixpoint bytes_of (s : string) : list N :=
  match s with
  | EmptyString => []
  | String c r => N_of_ascii c :: bytes_of r
  end.

(** UTF-8 decoding of well-formed input (string literals of this file). *)
Fixpoint utf8_decode (bs : list N) : pystr :=
  match bs with
  | [] => []
  | b0 :: r0 =>
    if (b0 <? 128)%N then b0 :: utf8_decode r0
    else match r0 with
    | [] => [b0]
    | b1 :: r1 =>
      if (b0 <? 224)%N then ((b0 - 192) * 64 + (b1 - 128))%N :: utf8_decode r1
      else match r1 with
      | [] => [b0; b1]
      | b2 :: r2 =>
        if (b0 <? 240)%N
        then ((b0 - 224) * 4096 + (b1 - 128) * 64 + (b2 - 128))%N :: utf8_decode r2
        else match r2 with
        | [] => [b0; b1; b2]
        | b3 :: r3 =>
          ((b0 - 240) * 262144 + (b1 - 128) * 4096 + (b2 - 128) * 64 + (b3 - 128))%N
            :: utf8_decode r3
        end
      end
    end
  end.

(** [u "text"] is the Python literal ['text']. *)
Definition u (s : string) : pystr := utf8_decode (bytes_of s).
Arguments u s%_string : simpl never.

(** The characters [str.strip()] removes: CPython's [Py_UNICODE_ISSPACE]. *)
Definition isspace (c : N) : bool :=
  ((9 <=? c) && (c <=? 13) || (28 <=? c) && (c <=? 32)
   || (c =? 133) || (c =? 160) || (c =? 5760)
   || (8192 <=? c) && (c <=? 8202)
   || (c =? 8232) || (c =? 8233) || (c =? 8239) || (c =? 8287)
   || (c =? 12288))%N.

Fixpoint lstrip (s : pystr) : pystr :=
  match s with
  | [] => []
  | c :: r => if isspace c then lstrip r else s
  end.

Definition rstrip (s : pystr) : pystr := rev (lstrip (rev s)).

(** [s.strip()] *)
Definition strip (s : pystr) : pystr := rstrip (lstrip s).

Definition pystr_eqb (a b : pystr) : bool := bool_decide (a = b).

Fixpoint startswith (p s : pystr) : bool :=
  match p, s with
  | [], _ => true
  | _ :: _, [] => false
  | a :: p', b :: s' => (a =? b)%N && startswith p' s'
  end.

(** [p in s] on strings: [p] occurs in [s] as a contiguous run. *)
Fixpoint str_in (p s : pystr) : bool :=
  startswith p s ||
  match s with
  | [] => false
  | _ :: s' => str_in p s'
  end.

(** [str(n)] for a non-negative integer. *)
Definition str_of_N (n : N) : pystr :=
  u (DecimalString.NilZero.string_of_uint (N.to_uint n)).

(* --------------------------------------------------------------------- *)
(** ** JSON-shaped Python values *)

(** What [json.loads] yields, which is also what a data frame cell can hold:
    [None], booleans, integers, floats (NaN included), strings, lists and
    dicts.  A dict is the list of its items; keys are unique. *)
Inductive json : Type :=
| JNull
| JBool (b : bool)
| JInt (z : Z)
| JFloat (f : float)
| JStr (s : pystr)
| JArr (l : list json)
| JObj (items : list (pystr * json)).

(** Truth value of a Python object: [not data] is [negb (truthy data)]. *)
Definition truthy (v : json) : bool :=
  match v with
  | JNull => false
  | JBool b => b
  | JInt z => negb (z =? 0)%Z
  | JFloat f => negb (PrimFloat.eqb f 0%float)
  | JStr s => negb (pystr_eqb s [])
  | JArr l => match l with [] => false | _ => true end
  | JObj l => match l with [] => false | _ => true end
  end.

(** A subscript: an integer or a string. *)
Inductive key := KInt (i : N) | KStr (s : pystr).

(** Exceptions that the modelled code can meet.  An exception carries what
    [str(e)] needs. *)
Inductive exn :=
| KeyError (k : key)
| IndexError (msg : pystr)
| TypeError (msg : pystr)
| ValueError (msg : pystr)
| TimeoutError                      (* asyncio.TimeoutError *)
| ClientError (msg : pystr)         (* aiohttp.ClientError and its subclasses *)
| OtherException (msg : pystr)      (* any other subclass of Exception *)
| SystemExit (code : Z).

(** [repr] of a subscript.  The string keys of the modelled code are the
    plain literals ['geometry'], ['coordinates'], ['properties'] and
    ['title'], whose [repr] is the text between single quotes. *)
Definition key_repr (k : key) : pystr :=
  match k with
  | KInt i => str_of_N i
  | KStr s => u "'" ++ s ++ u "'"
  end.

(** [str(e)] *)
Definition exn_str (e : exn) : pystr :=
  match e with
  | KeyError k => key_repr k
  | IndexError m | TypeError m | ValueError m | ClientError m
  | OtherException m => m
  | TimeoutError | SystemExit _ => []
  end.

(** Result of evaluating an expression that may raise. *)
Inductive pyres (A : Type) :=
| Ok (a : A)
| Err (e : exn).
Arguments Ok {A} a.
Arguments Err {A} e.

Definition pybind {A B} (m : pyres A) (k : A → pyres B) : pyres B :=
  match m with
  | Ok a => k a
  | Err e => Err e
  end.

(** [[f(x) for x in l]], stopping at the first exception. *)
Fixpoint pymapM {A B} (f : A → pyres B) (l : list A) : pyres (list B) :=
  match l with
  | [] => Ok []
  | x :: r =>
      match f x with
      | Ok y =>
          match pymapM f r with
          | Ok ys => Ok (y :: ys)
          | Err e => Err e
          end
      | Err e => Err e
      end
  end.

Fixpoint dict_get (items : list (pystr * json)) (k : pystr) : option json :=
  match items with
  | [] => None
  | (k', v) :: r => if pystr_eqb k' k then Some v else dict_get r k
  end.

Definition type_name (v : json) : pystr :=
  match v with
  | JNull => u "NoneType"
  | JBool _ => u "bool"
  | JInt _ => u "int"
  | JFloat _ => u "float"
  | JStr _ => u "str"
  | JArr _ => u "list"
  | JObj _ => u "dict"
  end.

Definition not_subscriptable (v : json) : exn :=
  TypeError (u "'" ++ type_name v ++ u "' object is not subscriptable").

(** [v[i]] for an integer literal [i >= 0]. *)
Definition getitem_int (v : json) (i : N) : pyres json :=
  match v with
  | JArr l =>
      match l !! N.to_nat i with
      | Some x => Ok x
      | None => Err (IndexError (u "list index out of range"))
      end
  | JStr s =>
      match s !! N.to_nat i with
      | Some c => Ok (JStr [c])
      | None => Err (IndexError (u "string index out of range"))
      end
  | JObj _ => Err (KeyError (KInt i))
  | _ => Err (not_subscriptable v)
  end.

(** [v[k]] for a string literal [k]. *)
Definition getitem_str (v : json) (k : pystr) : pyres json :=
  match v with
  | JObj items =>
      match dict_get items k with
      | Some x => Ok x
      | None => Err (KeyError (KStr k))
      end
  | JArr _ => Err (TypeError (u "list indices must be integers or slices, not str"))
  | JStr _ => Err (TypeError (u "string indices must be integers, not 'str'"))
  | _ => Err (not_subscriptable v)
  end.

End Py.
Export Py.

(* ===================================================================== *)
(** ** Effects: the event log, the external service, the monad *)
(* ===================================================================== *)

Module Eff.

(** What [await resp.json()] does with a response that has arrived. *)
Inductive body_result :=
| BodyJson (data : json)
| BodyRaises (e : exn).

(** An HTTP response.  [status_error_text] is [str(e)] of the
    [ClientResponseError] that [raise_for_status()] raises for it. *)
Record http_response := {
  status : Z;
  content_type : pystr;
  status_error_text : pystr;
  body : body_result;
}.

(** What [session.get(url, timeout=...)] does: it raises (a timeout, a
    client error, something else) or a response arrives. *)
Inductive response :=
| RespRaises (e : exn)
| RespHttp (h : http_response).

Section World.
Context {F : Type}.

(** One entry of the log.  [EFs s] records that the file system has just
    been changed to [s]. *)
Inductive event :=
| EAcquire
| ERelease
| ERequest (q : pystr)
| ESleep (ms : Z)
| EFs (snapshot : F).

Record world := { w_fs : F; w_log : list event }.

(** The external service. *)
Definition service_t := list event → pystr → response.

(** A computation: it returns or raises, and transforms the world. *)
Definition M (A : Type) := world → pyres A * world.

Definition ret {A} (a : A) : M A := fun w => (Ok a, w).

Definition raise {A} (e : exn) : M A := fun w => (Err e, w).

Definition bind {A B} (m : M A) (k : A → M B) : M B :=
  fun w =>
    match m w with
    | (Ok a, w') => k a w'
    | (Err e, w') => (Err e, w')
    end.

(** [try: m] with the outcome made a value. *)
Definition attempt {A} (m : M A) : M (pyres A) :=
  fun w => let '(r, w') := m w in (Ok r, w').

Definition of_pyres {A} (r : pyres A) : M A := fun w => (r, w).

Definition emit (e : event) : M unit :=
  fun w => (Ok tt, {| w_fs := w_fs w; w_log := w_log w ++ [e] |}).

Definition get_fs : M F := fun w => (Ok (w_fs w), w).

(** A change of the file system, visible at once. *)
Definition put_fs (s : F) : M unit :=
  fun w => (Ok tt, {| w_fs := s; w_log := w_log w ++ [EFs s] |}).

(** One HTTP GET for the query [q]; the URL is [base_url + quote(q)]. *)
Definition request (service : service_t) (q : pystr) : M response :=
  fun w => (Ok (service (w_log w) q),
            {| w_fs := w_fs w; w_log := w_log w ++ [ERequest q] |}).

(** [await asyncio.sleep(ms / 1000)] *)
Definition sleep (ms : Z) : M unit := emit (ESleep ms).

End World.
Arguments event : clear implicits.
Arguments world : clear implicits.
Arguments service_t : clear implicits.
Arguments M : clear implicits.

Declare Scope eff_scope.
Delimit Scope eff_scope with eff.
Notation "x <- m ;; k" := (bind m (fun x => k))
  (at level 100, m at next level, right associativity) : eff_scope.
Notation "m ;;; k" := (bind m (fun _ => k))
  (at level 100, right associativity) : eff_scope.
Notation "x <-? m ;; k" := (pybind m (fun x => k))
  (at level 100, m at next level, right associativity) : eff_scope.
Open Scope eff_scope.

(** [async with semaphore: body] : acquire, run the body, release on the way
    out, whether the body returned or raised. *)
Definition with_semaphore {F A} (body : M F A) : M F A :=
  emit EAcquire ;;;
  r <- attempt body ;;
  emit ERelease ;;;
  of_pyres r.

(** [raise_for_status()] *)
Definition raise_for_status (h : http_response) : pyres unit :=
  if (400 <=? status h)%Z then Err (ClientError (status_error_text h)) else Ok tt.

(** [await resp.json()] *)
Definition resp_json (h : http_response) : pyres json :=
  match body h with
  | BodyJson data => Ok data
  | BodyRaises e => Err e
  end.

End Eff.
Export Eff.

(* ===================================================================== *)
(** ** Data frames and [asyncio.gather] *)
(* ===================================================================== *)

Module Frame.

(** A pandas [DataFrame] with the default [RangeIndex]: the column labels
    (unique, as [read_csv] makes them) and the rows, each with one cell per
    column. *)
Record frame (C : Type) := {
  columns : list pystr;
  rows : list (list C);
}.
Arguments columns {C} f.
Arguments rows {C} f.

Fixpoint index_of (c : pystr) (cols : list pystr) : option nat :=
  match cols with
  | [] => None
  | c' :: r => if pystr_eqb c' c then Some O else S <$> index_of c r
  end.

(** [c in df.columns] *)
Definition has_column {C} (df : frame C) (c : pystr) : bool :=
  bool_decide (is_Some (index_of c (columns df))).

(** [df[c].tolist()]; a [KeyError] when there is no such column. *)
Definition column {C} (df : frame C) (c : pystr) : pyres (list (option C)) :=
  match index_of c (columns df) with
  | Some i => Ok (map (fun row => row !! i) (rows df))
  | None => Err (KeyError (KStr c))
  end.

(** [df[c] = values] with one value per row: the column is replaced where
    it exists and appended otherwise. *)
Definition with_column (cols : list pystr) (c : pystr) : list pystr :=
  match index_of c cols with
  | Some _ => cols
  | None => cols ++ [c]
  end.

Definition set_cell {C} (cols : list pystr) (c : pystr) (row : list C) (v : C)
  : list C :=
  match index_of c cols with
  | Some i => <[i:=v]> row
  | None => row ++ [v]
  end.

Definition set_column {C} (df : frame C) (c : pystr) (values : list C) : frame C :=
  {| columns := with_column (columns df) c;
     rows := zip_with (set_cell (columns df) c) (rows df) values |}.

(** [df[c] = v] with a scalar: the value in every row. *)
Definition set_column_scalar {C} (df : frame C) (c : pystr) (v : C) : frame C :=
  set_column df c (replicate (length (rows df)) v).

Definition map_cells {C D} (f : C → D) (df : frame C) : frame D :=
  {| columns := columns df; rows := map (map f) (rows df) |}.

End Frame.
Export Frame.

Module Gather.

(** The order in which the tasks of one [gather] finish.  Any list of
    numbers names one: the tasks it lists, in the order of their first
    mention, and then the others.  Every order of completion arises so. *)
Definition completion_order (sched : list nat) (n : nat) : list nat :=
  let named := remove_dups (filter (fun i => i < n) sched) in
  named ++ filter (fun i => i ∉ named) (seq 0 n).

Section Gather.
Context {F A : Type}.

(** Each task runs when its turn comes and leaves its result in its own
    slot (the future of that task). *)
Fixpoint run_tasks (order : list nat) (tasks : list (M F A))
    (slots : list (option A)) : M F (list (option A)) :=
  match order with
  | [] => ret slots
  | i :: order' =>
      match tasks !! i with
      | Some t => r <- t ;; run_tasks order' tasks (<[i:=Some r]> slots)
      | None => run_tasks order' tasks slots
      end
  end.

(** [await gather(...)] over the tasks: the results are read from the slots in the
    order of the tasks; the first exception of a task is raised. *)
Definition gather (sched : list nat) (tasks : list (M F A)) : M F (list A) :=
  slots <- run_tasks (completion_order sched (length tasks)) tasks
             (replicate (length tasks) None) ;;
  ret (omap id slots).

End Gather.

End Gather.
Export Gather.

(* ===================================================================== *)
(** ** scripts/geocoder_chunked.py : the lookup client *)
(* ===================================================================== *)

Module GeocoderChunked.

(** The dict [get_coordinates] returns, keys 該当住所, 緯度, 経度, エラー. *)
Record lookup_result := {
  r_matched : json;
  r_lat : json;
  r_lon : json;
  r_err : pystr;
}.

Definition r_err_value (r : lookup_result) : json := JStr (r_err r).

Definition failure (err : pystr) : lookup_result :=
  {| r_matched := JStr []; r_lat := JNull; r_lon := JNull; r_err := err |}.

Definition ADDRESS_EMPTY : pystr := u "住所が空です".
Definition NOT_FOUND : pystr := u "住所が見つかりません".
Definition TIMEOUT : pystr := u "タイムアウト".
Definition TRANSPORT_PREFIX : pystr := u "通信エラー".
Definition PARSE_PREFIX : pystr := u "解析エラー".
Definition RETRY_LIMIT : pystr := u "リトライ上限".

(** Lines 44-53: the statements after [data = await response.json()]. *)
Definition extract (data : json) : pyres lookup_result :=
  if negb (truthy data) then Ok (failure NOT_FOUND)
  else
    d0 <-? getitem_int data 0 ;;
    geometry <-? getitem_str d0 (u "geometry") ;;
    coordinates <-? getitem_str geometry (u "coordinates") ;;
    d0' <-? getitem_int data 0 ;;
    properties <-? getitem_str d0' (u "properties") ;;
    title <-? getitem_str properties (u "title") ;;
    c1 <-? getitem_int coordinates 1 ;;
    c0 <-? getitem_int coordinates 0 ;;
    Ok {| r_matched := title; r_lat := c1; r_lon := c0; r_err := [] |}.

(** Lines 40-53: the body of the [try]. *)
Definition try_body (resp : response) : pyres lookup_result :=
  match resp with
  | RespRaises e => Err e
  | RespHttp h =>
      _ <-? raise_for_status h ;;
      data <-? resp_json h ;;
      extract data
  end.

Section Client.
Context {F : Type} (service : service_t F).

(** Lines 38-66: the [for attempt in range(retry_count)] loop, run from
    iteration [attempt] with [remaining] iterations left.  [Some r]: the
    loop returned [r]; [None]: the loop ran out. *)
Fixpoint attempts (q : pystr) (retry_count : Z) (remaining : nat) (attempt : Z)
  : M F (option lookup_result) :=
  match remaining with
  | O => ret None
  | S remaining' =>
      resp <- request service q ;;
      match try_body resp with
      | Ok r => ret (Some r)
      | Err TimeoutError =>
          if (attempt <? retry_count - 1)%Z
          then sleep 500 ;;; attempts q retry_count remaining' (attempt + 1)%Z
          else ret (Some (failure TIMEOUT))
      | Err (ClientError e) =>
          if (attempt <? retry_count - 1)%Z
          then sleep 500 ;;; attempts q retry_count remaining' (attempt + 1)%Z
          else ret (Some (failure (TRANSPORT_PREFIX ++ u ": " ++ e)))
      | Err (KeyError _ as e) | Err (IndexError _ as e) =>
          ret (Some (failure (PARSE_PREFIX ++ u ": " ++ exn_str e)))
      | Err e => raise e
      end
  end.

(** [pd.isna(address) or str(address).strip() == ""], for a cell read with
    [dtype=str]: [None] is the missing value (NaN). *)
Definition address_is_empty (address : option pystr) : bool :=
  match address with
  | None => true
  | Some s => pystr_eqb (strip s) []
  end.

(** [get_coordinates(session, semaphore, address, retry_count)] *)
Definition get_coordinates (address : option pystr) (retry_count : Z)
  : M F lookup_result :=
  if address_is_empty address then ret (failure ADDRESS_EMPTY)
  else
    let q := strip (default [] address) in
    o <- with_semaphore (attempts q retry_count (Z.to_nat retry_count) 0) ;;
    match o with
    | Some r => ret r
    | None => ret (failure RETRY_LIMIT)
    end.

(** A cell read with [dtype=str] as a Python value: a [str], or NaN. *)
Definition cell_value (c : option pystr) : json :=
  match c with
  | Some s => JStr s
  | None => JFloat nan
  end.

(** [df[c] = values] for a list of values (lines 85-88).  pandas builds the
    column from the whole list and stores it under one dtype, which it
    infers from the values: where a float stands in the list, [None] is
    stored as NaN and an [int] as a float.  What pandas stores is taken as
    given: [as_column values v] is what the column holds for the element
    [v] of [values]. *)
Context (as_column : list json → json → json).

Definition assign_column (df : frame json) (c : pystr) (values : list json)
  : frame json :=
  set_column df c (map (as_column values) values).

(** [process_chunk(session, semaphore, df_chunk, address_column, chunk_num)];
    [sched] names the order in which the lookups of the chunk finish. *)
Definition process_chunk (sched : list nat) (df_chunk : frame (option pystr))
    (address_column : pystr) : M F (frame json) :=
  addresses <- of_pyres (column df_chunk address_column) ;;
  results <- gather sched
               (map (fun addr => get_coordinates (mjoin addr) 3) addresses) ;;
  let df := map_cells cell_value df_chunk in
  let df := assign_column df (u "該当住所") (map r_matched results) in
  let df := assign_column df (u "緯度") (map r_lat results) in
  let df := assign_column df (u "経度") (map r_lon results) in
  let df := assign_column df (u "エラー") (map r_err_value results) in
  ret df.

End Client.

(* --------------------------------------------------------------------- *)
(** ** scripts/geocoder_chunked.py : chunks and the checkpoint *)

(** A file that is being written holds a part of its content until the
    write is complete: [open(path, "w")] truncates it, and so does
    [to_csv(path)], which writes in place. *)
Inductive file (A : Type) :=
| Truncated
| Written (content : A).
Arguments Truncated {A}.
Arguments Written {A} content.

(** The output directory: the progress file
    [result_<base>_progress.txt], holding a chunk number, and the output
    files [result_<base>_part<NNN>.csv] by chunk number. *)
Record fs := {
  progress : option (file Z);
  outputs : gmap Z (file (frame json));
}.

Definition set_progress (p : option (file Z)) (s : fs) : fs :=
  {| progress := p; outputs := outputs s |}.

Definition set_output (n : Z) (f : file (frame json)) (s : fs) : fs :=
  {| progress := progress s; outputs := <[n:=f]> (outputs s) |}.

(** Lines 110-115: the part to start from. *)
Definition read_start_part : M fs Z :=
  s <- get_fs ;;
  match progress s with
  | None => ret 1%Z
  | Some (Written k) => ret (k + 1)%Z
  | Some Truncated =>
      raise (ValueError (u "invalid literal for int() with base 10: ''"))
  end.

(** Line 177: [df_result.to_csv(output_file, ...)] *)
Definition to_csv (part_num : Z) (df : frame json) : M fs unit :=
  s <- get_fs ;;
  put_fs (set_output part_num Truncated s) ;;;
  s <- get_fs ;;
  put_fs (set_output part_num (Written df) s).

(** Lines 188-189: [with open(progress_file, "w") as f: f.write(str(part_num))] *)
Definition write_progress (part_num : Z) : M fs unit :=
  s <- get_fs ;;
  put_fs (set_progress (Some Truncated) s) ;;;
  s <- get_fs ;;
  put_fs (set_progress (Some (Written part_num)) s).

(** Lines 196-197: [if progress_file.exists(): progress_file.unlink()] *)
Definition clear_progress : M fs unit :=
  s <- get_fs ;;
  match progress s with
  | Some _ => put_fs (set_progress None s)
  | None => ret tt
  end.

Section Orchestrator.
Context (service : service_t fs).
Context (as_column : list json → json → json).
Context (scheds : Z → list nat).
Context (address_column : pystr).

(** Lines 157-189: [for part_num, df_chunk in enumerate(chunk_iter, start=1)],
    from the chunk numbered [part_num]. *)
Fixpoint chunk_loop (start_part : Z) (part_num : Z)
    (chunks : list (frame (option pystr))) : M fs unit :=
  match chunks with
  | [] => ret tt
  | df_chunk :: rest =>
      if (part_num <? start_part)%Z
      then chunk_loop start_part (part_num + 1)%Z rest
      else if negb (has_column df_chunk address_column)
      then raise (SystemExit 1)
      else
        df_result <- process_chunk service as_column (scheds part_num) df_chunk
                       address_column ;;
        to_csv part_num df_result ;;;
        write_progress part_num ;;;
        chunk_loop start_part (part_num + 1)%Z rest
  end.

(** [process_file_chunked(input_file, address_column, ...)], where
    [chunks] is what [pd.read_csv(input_file, dtype=str, chunksize=...)]
    yields. *)
Definition process_file_chunked (chunks : list (frame (option pystr)))
  : M fs unit :=
  start_part <- read_start_part ;;
  chunk_loop start_part 1 chunks ;;;
  clear_progress.

End Orchestrator.

End GeocoderChunked.

(* ===================================================================== *)
(** ** Output files as the passes see them *)
(* ===================================================================== *)

Module Csv.

(** An output file read with [pd.read_csv(file, dtype=str)]: the header and,
    for every row, the text of each field.  The missing value (NaN) is the
    empty field: that is how it is read and how [to_csv] writes it, and the
    passes treat both alike ([fillna('')], [pd.isna(x) or x.strip() == '']). *)
Definition csv := frame pystr.

(** The directory of output files [result_*_part<NNN>.csv], by part number. *)
Definition dir := gmap Z csv.

(** An output file as [to_csv] writes it: every row has a field for every
    column of the header. *)
Definition rectangular (file : csv) : Prop :=
  Forall (fun row => length row = length (columns file)) (rows file).

Section Read.
(** The texts that [pd.read_csv] reads as the missing value: pandas' list
    of NA values ([NA], [N/A], [NULL], [NaN], [null], ...), which is not
    part of this repository. *)
Context (na : pystr → bool).

Definition read_field (c : pystr) : pystr := if na c then [] else c.

(** [pd.read_csv(file, encoding='utf-8-sig', dtype=str)] of a rectangular
    file: the header as it is, every field kept as text but for those that
    are read as the missing value. *)
Definition read_csv (file : csv) : csv := map_cells read_field file.

End Read.

(** The Python value of a field: NaN for the empty field. *)
Definition loc_value (c : pystr) : option pystr :=
  if pystr_eqb c [] then None else Some c.

(** The positions of the rows a boolean mask selects:
    [df[mask].index.tolist()]. *)
Fixpoint indices_where {A} (p : A → bool) (i : nat) (l : list A) : list nat :=
  match l with
  | [] => []
  | x :: r => (if p x then [i] else []) ++ indices_where p (S i) r
  end.

(** [df.loc[idx, col]] *)
Definition loc (df : csv) (idx : nat) (col : pystr) : pyres pystr :=
  match index_of col (columns df) with
  | Some j => Ok (default [] (rows df !! idx ≫= (.!! j)))
  | None => Err (KeyError (KStr col))
  end.

(** [df.loc[idx, col] = v]: the cell is set; a column that does not exist is
    first added, empty in every row. *)
Definition set_loc (df : csv) (idx : nat) (col : pystr) (v : pystr) : csv :=
  match index_of col (columns df) with
  | Some j =>
      {| columns := columns df;
         rows := alter (fun row => <[j:=v]> row) idx (rows df) |}
  | None =>
      {| columns := columns df ++ [col];
         rows := alter (fun row => <[length (columns df):=v]> row) idx
                   (map (fun row => row ++ [[]]) (rows df)) |}
  end.

(** [if col not in df.columns: df[col] = ''] *)
Definition ensure_column (df : csv) (col : pystr) : csv :=
  if has_column df col then df else set_column_scalar df col [].

Section Text.
(** [str(v)] of a value decoded from JSON (Python's built-in). *)
Context (py_str : json → pystr).

(** The text [to_csv] writes for a value stored in a cell. *)
Definition csv_text (v : json) : pystr :=
  match v with
  | JStr s => s
  | JNull => []
  | JFloat f => if PrimFloat.is_nan f then [] else py_str v
  | _ => py_str v
  end.

End Text.

Definition str_of_Z (z : Z) : pystr :=
  if (z <? 0)%Z then u "-" ++ str_of_N (Z.to_N (- z)) else str_of_N (Z.to_N z).

Section Parts.

(** [for part in range(1, total_parts + 1): body(part)], from [part] with
    [remaining] iterations left. *)
Fixpoint parts_loop (body : Z → M dir unit) (remaining : nat) (part : Z)
  : M dir unit :=
  match remaining with
  | O => ret tt
  | S remaining' => body part ;;; parts_loop body remaining' (part + 1)%Z
  end.

End Parts.

End Csv.
Export Csv.

(* ===================================================================== *)
(** ** scripts/retry_timeout.py : the recovery pass *)
(* ===================================================================== *)

Module RetryTimeout.

(** The dict [get_coordinates] returns: with ['success': True] the four
    values, otherwise the error alone. *)
Inductive result :=
| Success (matched : json) (lat lon : pystr) (error : pystr)
| Failure (error : pystr).

Definition ADDRESS_EMPTY : pystr := u "住所が空です".
Definition NOT_FOUND : pystr := u "住所が見つかりません".
Definition TIMEOUT : pystr := u "タイムアウト".
Definition TRANSPORT : pystr := u "通信エラー".
Definition PARSE : pystr := u "解析エラー".
Definition RETRY_LIMIT : pystr := u "リトライ上限".

(** What one pass through the [try] body does. *)
Inductive tried :=
| Returns (r : result)       (* a [return] *)
| Retries (final : result)   (* a retry branch inside the body *)
| Raises (e : exn).

Section Client.
Context (py_str : json → pystr).

(** Lines 57-73 *)
Definition extract (data : json) : pyres result :=
  if negb (truthy data) then Ok (Success (JStr []) [] [] NOT_FOUND)
  else
    d0 <-? getitem_int data 0 ;;
    geometry <-? getitem_str d0 (u "geometry") ;;
    coords <-? getitem_str geometry (u "coordinates") ;;
    d0' <-? getitem_int data 0 ;;
    properties <-? getitem_str d0' (u "properties") ;;
    title <-? getitem_str properties (u "title") ;;
    c1 <-? getitem_int coords 1 ;;
    c0 <-? getitem_int coords 0 ;;
    Ok (Success title (py_str c1) (py_str c0) []).

(** Lines 38-73 *)
Definition try_body (resp : response) : tried :=
  match resp with
  | RespRaises e => Raises e
  | RespHttp h =>
      if negb (status h =? 200)%Z
      then Retries (Failure (TRANSPORT ++ u ": HTTP " ++ str_of_Z (status h)))
      else if negb (str_in (u "json") (content_type h))
              && str_in (u "text/html") (content_type h)
      then Retries (Failure (TRANSPORT ++ u ": HTML返却"))
      else match pybind (resp_json h) extract with
           | Ok r => Returns r
           | Err e => Raises e
           end
  end.

Context {F : Type} (service : service_t F).

(** Lines 36-89: the loop from iteration [attempt]; [None] when it runs out. *)
Fixpoint attempts (q : pystr) (retry_count : Z) (remaining : nat) (attempt : Z)
  : M F (option result) :=
  match remaining with
  | O => ret None
  | S remaining' =>
      resp <- request service q ;;
      match try_body resp with
      | Returns r => ret (Some r)
      | Retries final =>
          if (attempt <? retry_count - 1)%Z
          then sleep (2000 * (attempt + 1)) ;;;
               attempts q retry_count remaining' (attempt + 1)%Z
          else ret (Some final)
      | Raises TimeoutError =>
          if (attempt <? retry_count - 1)%Z
          then sleep (2000 * (attempt + 1)) ;;;
               attempts q retry_count remaining' (attempt + 1)%Z
          else ret (Some (Failure TIMEOUT))
      | Raises (ClientError e) =>
          if (attempt <? retry_count - 1)%Z
          then sleep (2000 * (attempt + 1)) ;;;
               attempts q retry_count remaining' (attempt + 1)%Z
          else ret (Some (Failure (TRANSPORT ++ u ": " ++ e)))
      | Raises (SystemExit _ as e) => raise e
      | Raises e =>
          if (attempt <? retry_count - 1)%Z
          then sleep 1000 ;;;
               attempts q retry_count remaining' (attempt + 1)%Z
          else ret (Some (Failure (PARSE ++ u ": " ++ exn_str e)))
      end
  end.

(** [get_coordinates(session, semaphore, address, retry_count=5)] *)
Definition get_coordinates (address : option pystr) (retry_count : Z)
  : M F result :=
  if GeocoderChunked.address_is_empty address then ret (Failure ADDRESS_EMPTY)
  else
    let q := strip (default [] address) in
    o <- with_semaphore (attempts q retry_count (Z.to_nat retry_count) 0) ;;
    match o with
    | Some r => ret r
    | None => ret (Failure RETRY_LIMIT)
    end.

End Client.

Definition COL_MATCHED : pystr := u "該当住所".
Definition COL_LAT : pystr := u "緯度".
Definition COL_LON : pystr := u "経度".
Definition COL_ERROR : pystr := u "エラー".
Definition COL_ADDRESS : pystr := u "住所".

(** Lines 112-115: the selection predicate on the text of エラー. *)
Definition selected (error : pystr) : bool :=
  str_in TIMEOUT error || str_in TRANSPORT error.

Section Pass.
Context (py_str : json → pystr).
Context (service : service_t dir).
Context (scheds : Z → list nat).

(** Lines 112-116 *)
Definition error_indices (df : csv) : pyres (list nat) :=
  errors <-? column df COL_ERROR ;;
  Ok (indices_where (fun c => selected (default [] c)) 0 errors).

(** Lines 124-126 *)
Definition address_column (df : csv) : pyres pystr :=
  if has_column df COL_ADDRESS then Ok COL_ADDRESS
  else match columns df !! 1%nat with
       | Some c => Ok c
       | None => Err (IndexError (u "index 1 is out of bounds"))
       end.

(** Lines 137-145 *)
Definition apply_result (df : csv) (idx : nat) (res : result) : csv :=
  match res with
  | Success matched lat lon error =>
      let df := set_loc df idx COL_MATCHED (csv_text py_str matched) in
      let df := set_loc df idx COL_LAT lat in
      let df := set_loc df idx COL_LON lon in
      set_loc df idx COL_ERROR error
  | Failure error => set_loc df idx COL_ERROR error
  end.

Definition apply_results (df : csv) (updates : list (nat * result)) : csv :=
  fold_left (fun df '(idx, res) => apply_result df idx res) updates df.

Context (na : pystr → bool).

(** Lines 104-151: the body of the loop over the parts. *)
Definition process_part (part : Z) : M dir unit :=
  d <- get_fs ;;
  match d !! part with
  | None => ret tt
  | Some file =>
      let df := read_csv na file in
      indices <- of_pyres (error_indices df) ;;
      match indices with
      | [] => ret tt
      | _ =>
          addr_col <- of_pyres (address_column df) ;;
          addresses <- of_pyres (pymapM (fun i => loc df i addr_col) indices) ;;
          results <- gather (scheds part)
                       (map (fun a => get_coordinates py_str service (loc_value a) 5)
                            addresses) ;;
          d' <- get_fs ;;
          put_fs (<[part := apply_results df (zip indices results)]> d')
      end
  end.

(** [main(output_dir, total_parts, max_concurrent)] *)
Definition main (total_parts : Z) : M dir unit :=
  parts_loop process_part (Z.to_nat total_parts) 1.

End Pass.

End RetryTimeout.

(* ===================================================================== *)
(** ** scripts/fix_notfound.py, scripts/fix_old_municipalities.py :
       the fallback passes *)
(* ===================================================================== *)

Module Fallback.

(** The dict the fallback [get_coordinates] returns. *)
Inductive found_result :=
| Found (matched_address : json) (query_address : pystr) (lat lon : pystr)
| NotFound.

Definition found (r : found_result) : bool :=
  match r with
  | Found _ _ _ _ => true
  | NotFound => false
  end.

Definition COL_ERROR : pystr := u "エラー".
Definition COL_ADDRESS : pystr := u "住所".
Definition COL_NEAR : pystr := u "近しい住所".
Definition COL_NEAR_LAT : pystr := u "近しい住所の緯度".
Definition COL_NEAR_LON : pystr := u "近しい住所の経度".
Definition NOT_FOUND : pystr := u "住所が見つかりません".

Section Extract.
Context (py_str : json → pystr).

(** The statements under [if data:]. *)
Definition extract (address : pystr) (data : json) : pyres found_result :=
  d0 <-? getitem_int data 0 ;;
  geometry <-? getitem_str d0 (u "geometry") ;;
  coords <-? getitem_str geometry (u "coordinates") ;;
  d0' <-? getitem_int data 0 ;;
  properties <-? getitem_str d0' (u "properties") ;;
  title <-? getitem_str properties (u "title") ;;
  c1 <-? getitem_int coords 1 ;;
  c0 <-? getitem_int coords 0 ;;
  Ok (Found title address (py_str c1) (py_str c0)).

End Extract.

(** The selection predicate of both passes, on the text of エラー and of
    近しい住所: not found, and no fallback recorded yet. *)
Definition selected (error near : pystr) : bool :=
  pystr_eqb error NOT_FOUND && pystr_eqb near [].

(** The mask and [df[mask].index.tolist()]. *)
Definition error_indices (df : csv) : pyres (list nat) :=
  errors <-? column df COL_ERROR ;;
  nears <-? column df COL_NEAR ;;
  Ok (indices_where (fun '(e, n) => selected (default [] e) (default [] n))
        0 (zip errors nears)).

(** [if res['found']: df.loc[idx, ...] = ...] *)
Definition apply_result (df : csv) (idx : nat) (res : found_result) : csv :=
  match res with
  | Found _ query lat lon =>
      let df := set_loc df idx COL_NEAR query in
      let df := set_loc df idx COL_NEAR_LAT lat in
      set_loc df idx COL_NEAR_LON lon
  | NotFound => df
  end.

Definition apply_results (df : csv) (updates : list (nat * found_result)) : csv :=
  fold_left (fun df '(idx, res) => apply_result df idx res) updates df.

Section Candidates.
Context {F : Type} (get_coordinates : pystr → M F found_result).

(** [for candidate in candidates: result = await get_coordinates(candidate);
     if result['found']: return result], then what follows the loop. *)
Fixpoint try_candidates (candidates : list pystr) (otherwise : M F found_result)
  : M F found_result :=
  match candidates with
  | [] => otherwise
  | candidate :: rest =>
      result <- get_coordinates candidate ;;
      if found result then ret result else try_candidates rest otherwise
  end.

End Candidates.

End Fallback.
Export Fallback.

Module FixOldMunicipalities.

Section Pass.
Context (py_str : json → pystr).
(** [convert_address], lines 96-137: the candidates for an address, in the
    order in which they are tried. *)
Context (convert_address : pystr → list pystr).
Context (service : service_t dir).
Context (scheds : Z → list nat).

(** Lines 146-166, after the request: the [try] body, [except: pass] and
    the final [return {'found': False}]. *)
Definition lookup (address : pystr) (resp : response) : found_result :=
  match resp with
  | RespRaises _ => NotFound
  | RespHttp h =>
      if negb (str_in (u "json") (content_type h)) then NotFound
      else match resp_json h with
           | Ok data =>
               if truthy data
               then match extract py_str address data with
                    | Ok r => r
                    | Err _ => NotFound
                    end
               else NotFound
           | Err _ => NotFound
           end
  end.

(** [get_coordinates(session, semaphore, address)] *)
Definition get_coordinates (address : pystr) : M dir found_result :=
  with_semaphore (resp <- request service address ;; ret (lookup address resp)).

(** [try_address_variants(session, semaphore, original_address)] *)
Definition try_address_variants (original_address : pystr) : M dir found_result :=
  try_candidates get_coordinates (convert_address original_address) (ret NotFound).

(** Lines 213-215 *)
Definition address_column (df : csv) : pyres pystr :=
  if has_column df COL_ADDRESS then Ok COL_ADDRESS
  else match columns df !! 1%nat with
       | Some c => Ok c
       | None => Err (IndexError (u "index 1 is out of bounds"))
       end.

Context (na : pystr → bool).

(** Lines 188-234: the body of the loop over the parts. *)
Definition process_part (part : Z) : M dir unit :=
  d <- get_fs ;;
  match d !! part with
  | None => ret tt
  | Some file =>
      let df := read_csv na file in
      let df := ensure_column df COL_NEAR in
      let df := ensure_column df COL_NEAR_LAT in
      let df := ensure_column df COL_NEAR_LON in
      indices <- of_pyres (error_indices df) ;;
      match indices with
      | [] => ret tt
      | _ =>
          addr_col <- of_pyres (address_column df) ;;
          addresses <- of_pyres (pymapM (fun i => loc df i addr_col) indices) ;;
          results <- gather (scheds part) (map try_address_variants addresses) ;;
          d' <- get_fs ;;
          put_fs (<[part := apply_results df (zip indices results)]> d')
      end
  end.

(** [main(output_dir, total_parts, max_concurrent)] *)
Definition main (total_parts : Z) : M dir unit :=
  parts_loop process_part (Z.to_nat total_parts) 1.

End Pass.

End FixOldMunicipalities.

Module FixNotfound.

Section Pass.
Context (py_str : json → pystr).
(** The three generators, lines 30-112. *)
Context (convert_hamamatsu_address : pystr → option pystr).
Context (normalize_kyoto_address : pystr → list pystr).
Context (normalize_general_address : pystr → list pystr).
Context (service : service_t dir).
Context (scheds : Z → list nat).

(** Lines 121-135, after the request. *)
Definition lookup (address : pystr) (resp : response) : found_result :=
  match resp with
  | RespRaises _ => NotFound
  | RespHttp h =>
      match resp_json h with
      | Ok data =>
          if truthy data
          then match extract py_str address data with
               | Ok r => r
               | Err _ => NotFound
               end
          else NotFound
      | Err _ => NotFound
      end
  end.

(** [get_coordinates(session, semaphore, address)] *)
Definition get_coordinates (address : pystr) : M dir found_result :=
  with_semaphore (resp <- request service address ;; ret (lookup address resp)).

(** Lines 142-147: the candidate of the first stage, if it is tried. *)
Definition hamamatsu_candidates (original_address : pystr) : list pystr :=
  if str_in (u "浜松市") original_address
  then match convert_hamamatsu_address original_address with
       | Some converted => if pystr_eqb converted [] then [] else [converted]
       | None => []
       end
  else [].

(** Lines 150-151 *)
Definition kyoto_candidates (original_address : pystr) : list pystr :=
  if str_in (u "京都") original_address
  then normalize_kyoto_address original_address
  else [].

(** [try_address_variants(session, semaphore, original_address)] *)
Definition try_address_variants (original_address : pystr) : M dir found_result :=
  try_candidates get_coordinates (hamamatsu_candidates original_address)
    (try_candidates get_coordinates (kyoto_candidates original_address)
       (try_candidates get_coordinates
          (normalize_general_address original_address)
          (ret NotFound))).

Context (na : pystr → bool).

(** Lines 174-216: the body of the loop over the parts. *)
Definition process_part (part : Z) : M dir unit :=
  d <- get_fs ;;
  match d !! part with
  | None => ret tt
  | Some file =>
      let df := read_csv na file in
      let df := ensure_column df COL_NEAR in
      let df := ensure_column df COL_NEAR_LAT in
      let df := ensure_column df COL_NEAR_LON in
      indices <- of_pyres (error_indices df) ;;
      match indices with
      | [] =>
          d' <- get_fs ;;
          put_fs (<[part := df]> d')
      | _ =>
          addresses <- of_pyres (pymapM (fun i => loc df i COL_ADDRESS) indices) ;;
          results <- gather (scheds part) (map try_address_variants addresses) ;;
          d' <- get_fs ;;
          put_fs (<[part := apply_results df (zip indices results)]> d')
      end
  end.

(** [main(output_dir, total_parts)] *)
Definition main (total_parts : Z) : M dir unit :=
  parts_loop process_part (Z.to_nat total_parts) 1.

End Pass.

End FixNotfound.

(* ===================================================================== *)
(** ** The concurrency gate: tasks interleaved under a semaphore *)
(* ===================================================================== *)

Module Pool.

Section Pool.
Context {F : Type}.

(** The events a computation appends to the log. *)
Definition emitted {A} (m : M F A) (w : world F) : list (event F) :=
  drop (length (w_log w)) (w_log (m w).2).

(** A task of the event loop: the events it has still to perform, and
    whether it is inside [async with semaphore]. *)
Record task := { holding : bool; todo : list (event F) }.

(** [asyncio.Semaphore(value)] and the tasks that share it. *)
Record pool := { gate : Z; tasks : list task }.

(** The next event of task [i] happens.  [acquire()] goes through only
    while the counter is positive; otherwise the task waits. *)
Definition step (i : nat) (p : pool) : option pool :=
  match tasks p !! i with
  | Some t =>
      match todo t with
      | [] => None
      | EAcquire :: rest =>
          if (0 <? gate p)%Z
          then Some {| gate := gate p - 1;
                       tasks := <[i:={| holding := true; todo := rest |}]> (tasks p) |}
          else None
      | ERelease :: rest =>
          Some {| gate := gate p + 1;
                  tasks := <[i:={| holding := false; todo := rest |}]> (tasks p) |}
      | _ :: rest =>
          Some {| gate := gate p;
                  tasks := <[i:={| holding := holding t; todo := rest |}]> (tasks p) |}
      end
  | None => None
  end.

(** An interleaving: at each turn the named task moves if it can. *)
Fixpoint run (choices : list nat) (p : pool) : pool :=
  match choices with
  | [] => p
  | i :: rest =>
      match step i p with
      | Some p' => run rest p'
      | None => run rest p
      end
  end.

(** The lookups in flight: the tasks inside the gate. *)
Definition in_flight (p : pool) : nat :=
  length (filter (fun t => holding t = true) (tasks p)).

Definition start (capacity : Z) (traces : list (list (event F))) : pool :=
  {| gate := capacity;
     tasks := map (fun t => {| holding := false; todo := t |}) traces |}.

(** The gate is held when a backoff sleep of the trace begins. *)
Fixpoint sleeps_while_held (held : bool) (trace : list (event F)) : bool :=
  match trace with
  | [] => false
  | EAcquire :: rest => sleeps_while_held true rest
  | ERelease :: rest => sleeps_while_held false rest
  | ESleep _ :: rest => held || sleeps_while_held held rest
  | _ :: rest => sleeps_while_held held rest
  end.

(** Every request of the trace has its own acquisition: the gate is
    acquired just before it and released just after it. *)
Fixpoint gated_per_attempt (trace : list (event F)) : bool :=
  match trace with
  | [] => true
  | EAcquire :: ERequest _ :: ERelease :: rest => gated_per_attempt rest
  | EAcquire :: _ | ERelease :: _ | ERequest _ :: _ => false
  | _ :: rest => gated_per_attempt rest
  end.

Definition is_request (e : event F) : bool :=
  match e with
  | ERequest _ => true
  | _ => false
  end.

Definition is_gate_event (e : event F) : bool :=
  match e with
  | EAcquire | ERelease => true
  | _ => false
  end.

(** The queries of the requests of a trace, in order. *)
Definition requests (trace : list (event F)) : list pystr :=
  omap (fun e => match e with ERequest q => Some q | _ => None end) trace.

(** The file-system states a trace goes through, in order. *)
Definition snapshots (trace : list (event F)) : list F :=
  omap (fun e => match e with EFs s => Some s | _ => None end) trace.

End Pool.

End Pool.
Export Pool.

(* ===================================================================== *)
(** ** Vocabulary of the properties *)
(* ===================================================================== *)

Module Spec.

Section Worlds.
Context {F : Type}.

(** The world [w] after the file system became [s] and the events [l]
    were logged. *)
Definition after (w : world F) (s : F) (l : list (event F)) : world F :=
  {| w_fs := s; w_log := w_log w ++ l |}.

(** The world [w] after the events [l], the file system untouched. *)
Definition logged (w : world F) (l : list (event F)) : world F :=
  after w (w_fs w) l.

End Worlds.

(** A query that is missing, empty, or made of whitespace only. *)
Definition blank (address : option pystr) : Prop :=
  address = None ∨ ∃ s, address = Some s ∧ forallb isspace s = true.

(** A coordinate value that holds no pair: a list or a string of fewer
    than two entries, or an object (which has no entry [1]). *)
Definition holds_no_pair (c : json) : Prop :=
  match c with
  | JArr cs => length cs < 2
  | JStr s => length s < 2
  | JObj _ => True
  | _ => False
  end.

(** A payload that lacks an expected field, as the clause
    [except (KeyError, IndexError)] meets it.  Reading the coordinate pair
    and then the label as the client does, the first thing found wanting is
    an absent key or an absent entry: the payload is a non-empty object,
    which has no first element; or its first element is an object in which
    a key is absent from the object that should hold it; or all the keys are
    there and the coordinate value holds no pair.  A field that is there
    with a value of another kind ([null], a number) is not in this class:
    subscripting it raises TypeError. *)
Inductive lacks_expected_fields : json → Prop :=
| lacks_first_element k v items :
    lacks_expected_fields (JObj ((k, v) :: items))
| lacks_geometry items rest :
    dict_get items (u "geometry") = None →
    lacks_expected_fields (JArr (JObj items :: rest))
| lacks_coordinates items rest g :
    dict_get items (u "geometry") = Some (JObj g) →
    dict_get g (u "coordinates") = None →
    lacks_expected_fields (JArr (JObj items :: rest))
| lacks_properties items rest g c :
    dict_get items (u "geometry") = Some (JObj g) →
    dict_get g (u "coordinates") = Some c →
    dict_get items (u "properties") = None →
    lacks_expected_fields (JArr (JObj items :: rest))
| lacks_title items rest g c p :
    dict_get items (u "geometry") = Some (JObj g) →
    dict_get g (u "coordinates") = Some c →
    dict_get items (u "properties") = Some (JObj p) →
    dict_get p (u "title") = None →
    lacks_expected_fields (JArr (JObj items :: rest))
| lacks_pair items rest g c p title :
    dict_get items (u "geometry") = Some (JObj g) →
    dict_get g (u "coordinates") = Some c →
    dict_get items (u "properties") = Some (JObj p) →
    dict_get p (u "title") = Some title →
    holds_no_pair c →
    lacks_expected_fields (JArr (JObj items :: rest)).

(** The exceptions of the clause [except (KeyError, IndexError)]. *)
Definition is_parse_error (e : exn) : Prop :=
  match e with
  | KeyError _ | IndexError _ => True
  | _ => False
  end.

(** An HTTP exchange that succeeded and delivered the JSON value [data]. *)
Definition delivers (resp : response) (data : json) : Prop :=
  ∃ h, resp = RespHttp h ∧ status h = 200%Z
       ∧ str_in (u "json") (content_type h) = true ∧ body h = BodyJson data.

Section Traces.
Context {F : Type}.

(** An event of the attempts of the query [q]: a request for [q], or a sleep. *)
Definition io_event (q : pystr) (e : event F) : Prop :=
  e = ERequest q ∨ ∃ ms, e = ESleep ms.

(** A task uses the gate properly from here on: it acquires only what it
    does not hold and releases only what it holds. *)
Fixpoint bracketed (held : bool) (trace : list (event F)) : bool :=
  match trace with
  | [] => true
  | EAcquire :: rest => negb held && bracketed true rest
  | ERelease :: rest => held && bracketed false rest
  | _ :: rest => bracketed held rest
  end.

(** A task of the pool uses the gate properly. *)
Definition task_ok (t : task (F:=F)) : Prop :=
  bracketed (holding t) (todo t) = true.

Definition weight (t : task (F:=F)) : nat := if holding t then 1 else 0.

(** What every state of the pool satisfies: the counter of the semaphore is
    not negative, and it is the capacity less the tasks inside the gate. *)
Definition pool_inv (capacity : Z) (p : pool (F:=F)) : Prop :=
  (0 ≤ gate p)%Z
  ∧ (gate p + Z.of_nat (in_flight p))%Z = capacity
  ∧ Forall task_ok (tasks p).

End Traces.

(** What the four result columns hold for the lookup result [r] of a row,
    [results] being the results of all the rows of the chunk: its label,
    latitude, longitude and error as the columns store them. *)
Definition result_cells (as_column : list json → json → json)
    (results : list GeocoderChunked.lookup_result)
    (r : GeocoderChunked.lookup_result) : list json :=
  [as_column (map GeocoderChunked.r_matched results) (GeocoderChunked.r_matched r);
   as_column (map GeocoderChunked.r_lat results) (GeocoderChunked.r_lat r);
   as_column (map GeocoderChunked.r_lon results) (GeocoderChunked.r_lon r);
   as_column (map GeocoderChunked.r_err_value results)
     (GeocoderChunked.r_err_value r)].

(** The row of a chunk with the four cells [label], [lat], [lon] and
    [err] put in the four result columns, as [process_chunk] assigns them
    one after the other. *)
Definition put_result (cols : list pystr) (row : list json)
    (label lat lon err : json) : list json :=
  let row := set_cell cols (u "該当住所") row label in
  let cols := with_column cols (u "該当住所") in
  let row := set_cell cols (u "緯度") row lat in
  let cols := with_column cols (u "緯度") in
  let row := set_cell cols (u "経度") row lon in
  let cols := with_column cols (u "経度") in
  set_cell cols (u "エラー") row err.

(** The row of a chunk augmented with the result [r] of its lookup, as the
    four columns store it. *)
Definition augment_row (as_column : list json → json → json)
    (results : list GeocoderChunked.lookup_result)
    (cols : list pystr) (row : list json)
    (r : GeocoderChunked.lookup_result) : list json :=
  put_result cols row
    (as_column (map GeocoderChunked.r_matched results) (GeocoderChunked.r_matched r))
    (as_column (map GeocoderChunked.r_lat results) (GeocoderChunked.r_lat r))
    (as_column (map GeocoderChunked.r_lon results) (GeocoderChunked.r_lon r))
    (as_column (map GeocoderChunked.r_err_value results)
       (GeocoderChunked.r_err_value r)).

(** The query of a row of a chunk: its cell in the address column. *)
Definition row_address (cols : list pystr) (address_column : pystr)
    (row : list (option pystr)) : option pystr :=
  match index_of address_column cols with
  | Some i => mjoin (row !! i)
  | None => None
  end.

(** The frame [process_chunk] builds from the results of the lookups. *)
Definition augmented (as_column : list json → json → json)
    (df_chunk : frame (option pystr))
    (results : list GeocoderChunked.lookup_result) : frame json :=
  let assign := GeocoderChunked.assign_column as_column in
  let df := map_cells GeocoderChunked.cell_value df_chunk in
  let df := assign df (u "該当住所") (map GeocoderChunked.r_matched results) in
  let df := assign df (u "緯度") (map GeocoderChunked.r_lat results) in
  let df := assign df (u "経度") (map GeocoderChunked.r_lon results) in
  assign df (u "エラー") (map GeocoderChunked.r_err_value results).

Definition RESULT_COLUMNS : list pystr :=
  [u "該当住所"; u "緯度"; u "経度"; u "エラー"].

(** A computation that leaves the file system alone. *)
Definition quiet {F A} (m : M F A) : Prop :=
  ∀ w, ∃ l, (m w).2 = logged w l ∧ snapshots l = [].

(** The checkpoint names only chunks whose output is complete: when the
    progress file holds [k], the output files of the chunks 1 to [k] are
    all there and completely written. *)
Definition checkpoint_ok (s : GeocoderChunked.fs) : Prop :=
  ∀ k, GeocoderChunked.progress s = Some (GeocoderChunked.Written k) →
  ∀ j, (1 ≤ j ≤ k)%Z →
    ∃ df, GeocoderChunked.outputs s !! j = Some (GeocoderChunked.Written df).

(** The state in which the chunk [n] is taken up: the outputs of the chunks
    before [n] are complete and the checkpoint is below [n]. *)
Definition ready_for (n : Z) (s : GeocoderChunked.fs) : Prop :=
  (∀ j, (1 ≤ j < n)%Z →
     ∃ df, GeocoderChunked.outputs s !! j = Some (GeocoderChunked.Written df))
  ∧ (∀ k, GeocoderChunked.progress s = Some (GeocoderChunked.Written k) →
       (k < n)%Z).

(** The four states of the file system while the output [out] of the
    chunk [n] is saved and the checkpoint advanced (lines 177 and 188-189):
    the output file truncated, then written; the progress file truncated,
    then written. *)
Definition chunk_states (n : Z) (out : frame json) (s : GeocoderChunked.fs)
  : list GeocoderChunked.fs :=
  let s1 := GeocoderChunked.set_output n GeocoderChunked.Truncated s in
  let s2 := GeocoderChunked.set_output n (GeocoderChunked.Written out) s1 in
  let s3 := GeocoderChunked.set_progress (Some GeocoderChunked.Truncated) s2 in
  let s4 := GeocoderChunked.set_progress
              (Some (GeocoderChunked.Written n)) s3 in
  [s1; s2; s3; s4].

Definition after_chunk (n : Z) (out : frame json) (s : GeocoderChunked.fs)
  : GeocoderChunked.fs :=
  GeocoderChunked.set_progress (Some (GeocoderChunked.Written n))
    (GeocoderChunked.set_progress (Some GeocoderChunked.Truncated)
       (GeocoderChunked.set_output n (GeocoderChunked.Written out)
          (GeocoderChunked.set_output n GeocoderChunked.Truncated s))).

(** The part a run starts from, by the progress file (lines 110-114). *)
Definition start_part_of (s : GeocoderChunked.fs) : Z :=
  match GeocoderChunked.progress s with
  | Some (GeocoderChunked.Written k) => (k + 1)%Z
  | _ => 1%Z
  end.

(** The events of one fallback lookup per candidate, in order: each
    acquires the gate, sends its request and releases the gate. *)
Definition lookup_calls {F : Type} (candidates : list pystr) : list (event F) :=
  concat (map (fun a => [EAcquire; ERequest a; ERelease]) candidates).

(** The response the lookup of the candidate [c], number [j] of the
    list, gets in a search that starts with the log [log]: the service is
    asked after the lookups of the candidates before it. *)
Definition answer_at {F : Type} (service : service_t F) (log : list (event F))
    (candidates : list pystr) (j : nat) (c : pystr) : response :=
  service (log ++ lookup_calls (take j candidates) ++ [EAcquire]) c.

(** The candidates of [fix_notfound.try_address_variants], in the order in
    which its three stages try them. *)
Definition notfound_candidates
    (convert_hamamatsu_address : pystr → option pystr)
    (normalize_kyoto_address normalize_general_address : pystr → list pystr)
    (original_address : pystr) : list pystr :=
  FixNotfound.hamamatsu_candidates convert_hamamatsu_address original_address
  ++ FixNotfound.kyoto_candidates normalize_kyoto_address original_address
  ++ normalize_general_address original_address.

(** An output file that has the four result columns. *)
Definition has_result_columns (df : csv) : Prop :=
  has_column df RetryTimeout.COL_MATCHED = true
  ∧ has_column df RetryTimeout.COL_LAT = true
  ∧ has_column df RetryTimeout.COL_LON = true
  ∧ has_column df RetryTimeout.COL_ERROR = true.

(** [df'] is [df] with nothing changed but rows that a predicate on the
    text of a column selects: same columns, same number of rows, and every
    row whose cell does not satisfy the predicate is the same. *)
Definition only_selected_rows_differ (col : pystr) (sel : pystr → bool)
    (df df' : csv) : Prop :=
  columns df' = columns df
  ∧ length (rows df') = length (rows df)
  ∧ ∀ i e, loc df i col = Ok e → sel e = false →
      rows df' !! i = rows df !! i.

(** The frame the fallback passes work on: the file with the three
    fallback columns added, empty, where they are missing. *)
Definition with_fallback_columns (df : csv) : csv :=
  ensure_column (ensure_column (ensure_column df COL_NEAR) COL_NEAR_LAT)
    COL_NEAR_LON.

(** What the recovery pass may have made of the file [file]: nothing, or
    the file as it was read in which only rows that the mask selects
    differ. *)
Definition recovery_pass_result (na : pystr → bool) (file file' : csv) : Prop :=
  file' = file
  ∨ only_selected_rows_differ RetryTimeout.COL_ERROR RetryTimeout.selected
      (read_csv na file) file'.

(** What a fallback pass may have made of the file [file]: nothing, or the
    file as it was read, with the fallback columns, in which only rows that
    are not found and have no fallback yet differ. *)
Definition fallback_pass_result (na : pystr → bool) (file file' : csv) : Prop :=
  file' = file
  ∨ (let df := with_fallback_columns (read_csv na file) in
     columns file' = columns df
     ∧ length (rows file') = length (rows file)
     ∧ ∀ i e n,
         loc df i COL_ERROR = Ok e →
         loc df i COL_NEAR = Ok n →
         Fallback.selected e n = false →
         rows file' !! i = rows df !! i).

(** A computation all of whose requests satisfy [Q], whatever the world it
    runs in. *)
Definition asks_only {F A} (Q : pystr → Prop) (m : M F A) : Prop :=
  ∀ w, ∃ l, w_log (m w).2 = w_log w ++ l ∧ Forall Q (requests l).


(** A text that [read_csv] reads as it is: it is not one of the texts read
    as the missing value, or it is the empty field. *)
Definition kept (na : pystr → bool) (t : pystr) : Prop := read_field na t = t.

(** The error text of a result of the recovery client. *)
Definition error_of (r : RetryTimeout.result) : pystr :=
  match r with
  | RetryTimeout.Success _ _ _ e | RetryTimeout.Failure e => e
  end.

(** The texts the recovery pass writes for a result are read back as they
    are. *)
Definition written_kept (na : pystr → bool) (py_str : json → pystr)
    (r : RetryTimeout.result) : Prop :=
  match r with
  | RetryTimeout.Success m lat lon e =>
      kept na (csv_text py_str m) ∧ kept na lat ∧ kept na lon ∧ kept na e
  | RetryTimeout.Failure e => kept na e
  end.

(** A file all of whose fields are read as they are. *)
Definition clean (na : pystr → bool) (file : csv) : Prop :=
  Forall (Forall (kept na)) (rows file).

(** An output file the recovery pass works on: as [to_csv] writes it, with
    the four result columns and the address column. *)
Definition recoverable (file : csv) : Prop :=
  rectangular file ∧ has_result_columns file
  ∧ has_column file RetryTimeout.COL_ADDRESS = true.

(** A task that returns [v] whatever the world, and only logs. *)
Definition returns_always {F A} (t : M F A) (v : A) : Prop :=
  ∀ w, ∃ l, t w = (Ok v, logged w l).





(** The events of one call of the primary client. *)
Definition lookup_trace {F : Type}
    (call : service_t F * option pystr * Z * world F) : list (event F) :=
  let '(service, address, retry_count, w) := call in
  emitted (GeocoderChunked.get_coordinates service address retry_count) w.

End Spec.
Export Spec.

(* ===================================================================== *)
(** ** Sample inputs *)
(* ===================================================================== *)

Module Demo.

(** A 200 response with JSON content. *)
Definition json_response (data : json) : response :=
  RespHttp {| status := 200; content_type := u "application/json";
              status_error_text := []; body := BodyJson data |}.

(** One match, at longitude 139.0 and latitude 35.0. *)
Definition one_match : json :=
  JArr [JObj [(u "geometry",
               JObj [(u "coordinates", JArr [JFloat 139.0; JFloat 35.0]);
                     (u "type", JStr (u "Point"))]);
              (u "type", JStr (u "Feature"));
              (u "properties", JObj [(u "addressCode", JStr []);
                                     (u "title", JStr (u "東京都千代田区"))])]].

(** A first element without its geometry. *)
Definition no_geometry : json :=
  JArr [JObj [(u "properties", JObj [(u "title", JStr (u "東京都"))])]].

(** [str] of the few values the samples need. *)
Definition py_str (v : json) : pystr :=
  match v with
  | JStr s => s
  | JInt z => str_of_Z z
  | JFloat f => if PrimFloat.eqb f 35.0 then u "35.0"
                else if PrimFloat.eqb f 139.0 then u "139.0" else u "0.0"
  | _ => u "None"
  end.

Definition always {F} (resp : response) : service_t F := fun _ _ => resp.

(** A service that knows one address. *)
Definition knows {F} (q : pystr) : service_t F :=
  fun _ q' => if pystr_eqb q' q then json_response one_match
              else json_response (JArr []).


Definition fresh {F} (s : F) : world F := {| w_fs := s; w_log := [] |}.

(** The float of an integer value. *)
Definition float_of_Z (z : Z) : float :=
  if (z <? 0)%Z then PrimFloat.opp (PrimFloat.of_uint63 (Uint63.of_Z (- z)))
  else PrimFloat.of_uint63 (Uint63.of_Z z).

(** Columns as pandas stores the lists of the samples: a list of numbers
    and [None] with at least one number, in which a float or a [None]
    occurs, becomes a column of floats ([None] stored as NaN, an [int] as
    the float of the same value); any other list is kept as it is. *)
Definition as_column (values : list json) (v : json) : json :=
  let number_or_none x :=
    match x with JNull | JInt _ | JFloat _ => true | _ => false end in
  let number x := match x with JInt _ | JFloat _ => true | _ => false end in
  let float_or_none x :=
    match x with JNull | JFloat _ => true | _ => false end in
  if forallb number_or_none values && existsb number values
     && existsb float_or_none values
  then match v with
       | JNull => JFloat nan
       | JInt z => JFloat (float_of_Z z)
       | _ => v
       end
  else v.

(** A chunk of three rows: a known address, a missing one, an unknown one. *)
Definition chunk : frame (option pystr) :=
  {| columns := [u "id"; u "住所"];
     rows := [[Some (u "1"); Some (u "東京都千代田区")];
              [Some (u "2"); None];
              [Some (u "3"); Some (u "どこか")]] |}.

(** An output directory in which the first chunk is done and checkpointed. *)
Definition resumable : GeocoderChunked.fs :=
  {| GeocoderChunked.progress := Some (GeocoderChunked.Written 1%Z);
     GeocoderChunked.outputs :=
       {[ 1%Z := GeocoderChunked.Written
                   (map_cells GeocoderChunked.cell_value chunk) ]} |}.

(** An empty output directory. *)
Definition empty_dir : GeocoderChunked.fs :=
  {| GeocoderChunked.progress := None; GeocoderChunked.outputs := ∅ |}.

(** The texts pandas 2 reads as the missing value by default, the empty
    field apart. *)
Definition na (c : pystr) : bool :=
  existsb (pystr_eqb c)
    [u "#N/A"; u "#N/A N/A"; u "#NA"; u "-1.#IND"; u "-1.#QNAN"; u "-NaN";
     u "-nan"; u "1.#IND"; u "1.#QNAN"; u "<NA>"; u "N/A"; u "NA"; u "NULL";
     u "NaN"; u "None"; u "n/a"; u "nan"; u "null"].

(** An output file of three rows: one resolved, one timed out, one not
    found. *)
Definition output_file : csv :=
  {| columns := [u "id"; u "住所"; u "該当住所"; u "緯度"; u "経度"; u "エラー"];
     rows := [[u "1"; u "東京都千代田区"; u "東京都千代田区"; u "35.0"; u "139.0"; []];
              [u "2"; u "東京都港区"; []; []; []; u "タイムアウト"];
              [u "3"; u "どこか"; []; []; []; u "住所が見つかりません"]] |}.

(** An output file in which a resolved row has the label [NA], beside a row
    that timed out. *)
Definition na_file : csv :=
  {| columns := [u "id"; u "住所"; u "該当住所"; u "緯度"; u "経度"; u "エラー"];
     rows := [[u "1"; u "どこか"; u "NA"; u "35.0"; u "139.0"; []];
              [u "2"; u "東京都港区"; []; []; []; u "タイムアウト"]] |}.

End Demo.

(* ===================================================================== *)
(** * Properties *)
(* ===================================================================== *)

(** ** Strings *)

Lemma lstrip_blank (s : pystr) : forallb isspace s = true → lstrip s = [].
Proof.
  induction s as [|c s IH]; simpl; [done|].
  intros [Hc Hs]%andb_prop. rewrite Hc. auto.
Qed.

Lemma strip_blank (s : pystr) : forallb isspace s = true → strip s = [].
Proof. intros H. unfold strip. by rewrite (lstrip_blank s H). Qed.

Lemma blank_is_empty (address : option pystr) :
  blank address → GeocoderChunked.address_is_empty address = true.
Proof.
  intros [->|(s & -> & Hs)]; simpl; [done|].
  by rewrite (strip_blank s Hs).
Qed.

(** ** The lookup clients *)

Ltac msimpl :=
  unfold with_semaphore in *;
  unfold bind, ret, raise, emit, sleep, request, attempt, of_pyres, get_fs,
    put_fs, logged, after in *; simpl in *.

Section GeocoderClientFacts.
Import GeocoderChunked.
Context {F : Type} (service : service_t F).

(** The loop of attempts only requests and sleeps. *)
Lemma GeocoderChunked_attempts_log q rc remaining : ∀ k w,
  ∃ l, (attempts service q rc remaining k w).2 = logged w l
       ∧ Forall (io_event q) l.
Proof.
  induction remaining as [|n IH]; intros k w; simpl.
  - exists []. msimpl. split; [|constructor]. destruct w; simpl. by rewrite app_nil_r.
  - unfold bind at 1. simpl.
    set (w1 := {| w_fs := w_fs w; w_log := w_log w ++ [ERequest q] |}).
    assert (Hret : ∀ (o : option lookup_result),
      ∃ l, (ret (F:=F) o w1).2 = logged w l ∧ Forall (io_event q) l).
    { intros o. exists [ERequest q]. split; [done|]. constructor; [by left|constructor]. }
    assert (Hretry : ∃ l,
      ((sleep 500 ;;; attempts service q rc n (k + 1)%Z) w1).2 = logged w l
      ∧ Forall (io_event q) l).
    { unfold bind, sleep, emit. simpl.
      destruct (IH (k + 1)%Z
        {| w_fs := w_fs w; w_log := (w_log w ++ [ERequest q]) ++ [ESleep 500] |})
        as (l & Hl & Hio).
      exists (ERequest q :: ESleep 500 :: l). split.
      - rewrite Hl. unfold logged, after. simpl. f_equal.
        by rewrite <- !app_assoc.
      - constructor; [by left|]. constructor; [right; by eexists|done]. }
    destruct (try_body (service (w_log w) q)) as [r|e]; [apply Hret|].
    destruct e; try (exists [ERequest q]; split; [done|constructor; [by left|constructor]]; fail);
      try apply Hret; destruct (_ <? _)%Z; auto.
Qed.

(** A result with an empty error came out of the [try] body. *)
Lemma GeocoderChunked_attempts_result q rc remaining : ∀ k w r w',
  attempts service q rc remaining k w = (Ok (Some r), w') →
  (∃ log, try_body (service log q) = Ok r) ∨ r_err r ≠ [].
Proof.
  induction remaining as [|n IH]; intros k w r w'; simpl.
  - by msimpl.
  - unfold bind at 1. simpl.
    destruct (try_body (service (w_log w) q)) as [r0|e] eqn:Hb.
    + msimpl. intros [= <- <-]. left. by eexists.
    + destruct e; try (by msimpl);
        try (msimpl; intros [= <- <-]; right; vm_compute; discriminate);
        destruct (_ <? _)%Z;
        try (msimpl; intros [= <- <-]; right; vm_compute; discriminate);
        unfold bind, sleep, emit; simpl; apply IH.
Qed.

(** The shape of the log of one lookup: nothing, or one acquisition that
    spans every attempt and every sleep, then one release. *)
Lemma GeocoderChunked_get_coordinates_log address rc w :
  ∃ l, (get_coordinates service address rc w).2 = logged w l
       ∧ (l = [] ∨ ∃ body, l = EAcquire :: body ++ [ERelease]
                           ∧ Forall (io_event (strip (default [] address))) body).
Proof.
  unfold get_coordinates.
  destruct (address_is_empty address).
  - exists []. split; [|by left]. msimpl. destruct w; simpl. by rewrite app_nil_r.
  - set (q := strip (default [] address)).
    destruct (GeocoderChunked_attempts_log q rc (Z.to_nat rc) 0
                {| w_fs := w_fs w; w_log := w_log w ++ [EAcquire] |})
      as (body & Hbody & Hio).
    exists (EAcquire :: body ++ [ERelease]). split; [|right; by eexists].
    msimpl.
    destruct (attempts service q rc (Z.to_nat rc) 0 _) as [res w2].
    simpl in *. subst w2. simpl.
    rewrite <- !app_assoc. simpl.
    by destruct res as [[r|]|e].
Qed.

End GeocoderClientFacts.


(** C7. A record whose query is missing, empty or whitespace-only gets
    the status "address empty" at once: the call returns in the world it
    started in, so that no request was issued and the gate was not
    acquired.  This holds for the primary client and for the client of the
    recovery pass. *)
Theorem blank_query_is_address_empty
    {F : Type} (service : service_t F) (py_str : json → pystr)
    (address : option pystr) (retry_count : Z) (w : world F) :
  blank address →
  GeocoderChunked.get_coordinates service address retry_count w
    = (Ok (GeocoderChunked.failure GeocoderChunked.ADDRESS_EMPTY), w)
  ∧ emitted (GeocoderChunked.get_coordinates service address retry_count) w = []
  ∧ RetryTimeout.get_coordinates py_str service address retry_count w
    = (Ok (RetryTimeout.Failure RetryTimeout.ADDRESS_EMPTY), w).
Proof.
  intros Hb%blank_is_empty.
  unfold GeocoderChunked.get_coordinates, RetryTimeout.get_coordinates, emitted.
  rewrite Hb. simpl. by rewrite drop_all.
Qed.

Lemma blank_query_is_address_empty_witness :
  let w : world unit := {| w_fs := tt; w_log := [ERequest (u "x")] |} in
  let address := Some (u "　 	") in
  GeocoderChunked.get_coordinates (fun _ _ => RespRaises TimeoutError) address 3 w
    = (Ok (GeocoderChunked.failure GeocoderChunked.ADDRESS_EMPTY), w)
  ∧ emitted (GeocoderChunked.get_coordinates
               (fun _ _ => RespRaises TimeoutError) address 3) w = []
  ∧ RetryTimeout.get_coordinates (fun _ => []) (fun _ _ => RespRaises TimeoutError)
      address 3 w
    = (Ok (RetryTimeout.Failure RetryTimeout.ADDRESS_EMPTY), w).
Proof.
  apply blank_query_is_address_empty.
  right. eexists. split; [reflexivity|]. vm_compute. reflexivity.
Defined.

Section ExtractFacts.
Import GeocoderChunked.

(** What a successful extraction read, and where. *)
Lemma extract_resolved data r :
  extract data = Ok r → r_err r = [] →
  ∃ first rest geometry coordinates properties,
    data = JArr (first :: rest)
    ∧ getitem_str first (u "geometry") = Ok geometry
    ∧ getitem_str geometry (u "coordinates") = Ok coordinates
    ∧ getitem_str first (u "properties") = Ok properties
    ∧ getitem_str properties (u "title") = Ok (r_matched r)
    ∧ getitem_int coordinates 1 = Ok (r_lat r)
    ∧ getitem_int coordinates 0 = Ok (r_lon r).
Proof.
  unfold extract. destruct (truthy data) eqn:Ht; simpl.
  2:{ intros [= <-]. vm_compute. discriminate. }
  destruct data as [| | | |s|l|items]; simpl; try discriminate.
  - destruct (s !! _); simpl; discriminate.
  - change (N.to_nat 0) with 0%nat. destruct l as [|first rest]; simpl; [discriminate|].
    destruct (getitem_str first (u "geometry")) as [geometry|] eqn:Hg; simpl; [|discriminate].
    destruct (getitem_str geometry (u "coordinates")) as [coordinates|] eqn:Hc; simpl; [|discriminate].
    destruct (getitem_str first (u "properties")) as [properties|] eqn:Hp; simpl; [|discriminate].
    destruct (getitem_str properties (u "title")) as [title|] eqn:Htitle; simpl; [|discriminate].
    destruct (getitem_int coordinates 1) as [c1|] eqn:H1; simpl; [|discriminate].
    destruct (getitem_int coordinates 0) as [c0|] eqn:H0; simpl; [|discriminate].
    intros [= <-] _. simpl. by exists first, rest, geometry, coordinates, properties.
Qed.

Lemma try_body_ok resp r :
  try_body resp = Ok r →
  ∃ h data, resp = RespHttp h ∧ (status h < 400)%Z
            ∧ body h = BodyJson data ∧ extract data = Ok r.
Proof.
  destruct resp as [e|h]; simpl; [discriminate|].
  unfold raise_for_status, resp_json.
  destruct (400 <=? status h)%Z eqn:Hs; simpl; [discriminate|].
  destruct (body h) as [data|e] eqn:Hb; simpl; [|discriminate].
  intros He. exists h, data. repeat split; auto. lia.
Qed.

End ExtractFacts.

(** C8. Whenever a lookup returns a resolved result (empty error), the
    service answered one of its requests with a JSON array whose first
    element holds the coordinate list under geometry/coordinates; the
    latitude of the result is the element at index 1 of that list and the
    longitude the element at index 0.  For a coordinate list [x, y, ...]
    the result therefore has latitude [y] and longitude [x]. *)
Theorem latitude_is_index_1_longitude_is_index_0
    {F : Type} (service : service_t F) (address : option pystr)
    (retry_count : Z) (w w' : world F) (r : GeocoderChunked.lookup_result) :
  GeocoderChunked.get_coordinates service address retry_count w = (Ok r, w') →
  GeocoderChunked.r_err r = [] →
  ∃ log h first rest geometry coordinates,
    service log (strip (default [] address)) = RespHttp h
    ∧ body h = BodyJson (JArr (first :: rest))
    ∧ getitem_str first (u "geometry") = Ok geometry
    ∧ getitem_str geometry (u "coordinates") = Ok coordinates
    ∧ getitem_int coordinates 1 = Ok (GeocoderChunked.r_lat r)
    ∧ getitem_int coordinates 0 = Ok (GeocoderChunked.r_lon r)
    ∧ ∀ x y more, coordinates = JArr (x :: y :: more) →
        GeocoderChunked.r_lat r = y ∧ GeocoderChunked.r_lon r = x.
Proof.
  unfold GeocoderChunked.get_coordinates.
  destruct (GeocoderChunked.address_is_empty address).
  { msimpl. intros [= <- <-]. vm_compute. discriminate. }
  set (q := strip (default [] address)). msimpl.
  destruct (GeocoderChunked.attempts service q retry_count _ _ _)
    as [[[r0|]|e] w2] eqn:Hrun; simpl; try discriminate.
  2:{ intros [= <- <-]. vm_compute. discriminate. }
  intros [= <- <-] Herr.
  apply GeocoderChunked_attempts_result in Hrun as [(log & Hlog)|Hne]; [|done].
  apply try_body_ok in Hlog as (h & data & Hresp & _ & Hbody & Hex).
  apply extract_resolved in Hex as
    (first & rest & geometry & coordinates & properties & -> & Hg & Hc & _ & _ & H1 & H0);
    [|done].
  exists log, h, first, rest, geometry, coordinates.
  repeat split; auto; subst coordinates; simpl in *; congruence.
Qed.

Section FirstAttempt.
Import GeocoderChunked.
Context {F : Type} (service : service_t F).

(** The first response decides when its [try] body returns. *)
Lemma get_coordinates_first_returns address rc w r :
  address_is_empty address = false → (0 < rc)%Z →
  try_body (service (w_log w ++ [EAcquire]) (strip (default [] address))) = Ok r →
  get_coordinates service address rc w
  = (Ok r, logged w [EAcquire; ERequest (strip (default [] address)); ERelease]).
Proof.
  intros Ha Hrc Hb. unfold get_coordinates. rewrite Ha.
  destruct (Z.to_nat rc) as [|n] eqn:Hn; [lia|].
  unfold with_semaphore, bind, emit, attempt, request, logged, after.
  cbn [attempts w_log w_fs]. unfold bind, request. cbn [w_log w_fs].
  rewrite Hb. simpl. by rewrite <- !app_assoc.
Qed.

Lemma getitem_str_obj items k :
  getitem_str (JObj items) k
  = match dict_get items k with
    | Some x => Ok x
    | None => Err (KeyError (KStr k))
    end.
Proof. reflexivity. Qed.

Lemma extract_first_object items rest :
  extract (JArr (JObj items :: rest))
  = (geometry <-? getitem_str (JObj items) (u "geometry") ;;
     coordinates <-? getitem_str geometry (u "coordinates") ;;
     properties <-? getitem_str (JObj items) (u "properties") ;;
     title <-? getitem_str properties (u "title") ;;
     c1 <-? getitem_int coordinates 1 ;;
     c0 <-? getitem_int coordinates 0 ;;
     Ok {| r_matched := title; r_lat := c1; r_lon := c0; r_err := [] |}).
Proof. reflexivity. Qed.

Lemma lacks_extract data :
  lacks_expected_fields data → ∃ e, extract data = Err e ∧ is_parse_error e.
Proof.
  destruct 1 as [k v items|items rest Hg|items rest g Hg Hc
                 |items rest g c Hg Hc Hp
                 |items rest g c p Hg Hc Hp Ht|items rest g c p t Hg Hc Hp Ht Hc2];
    [by eexists|..];
    rewrite extract_first_object, getitem_str_obj, Hg; unfold pybind at 1;
    try (by eexists);
    rewrite getitem_str_obj, Hc; unfold pybind at 1; try (by eexists);
    rewrite getitem_str_obj, Hp; unfold pybind at 1; try (by eexists);
    rewrite getitem_str_obj, Ht; unfold pybind at 1; try (by eexists).
  destruct c as [| | | |s|cs|o]; simpl in Hc2; try done.
  - destruct s as [|c0 [|c1 s]]; [by eexists|by eexists|simpl in Hc2; lia].
  - destruct cs as [|c0 [|c1 cs]]; [by eexists|by eexists|simpl in Hc2; lia].
  - by eexists.
Qed.

(** The class is all of it: whenever reading the payload raises KeyError or
    IndexError, the payload lacks an expected field in one of these ways. *)
Lemma parse_error_lacks data e :
  extract data = Err e → is_parse_error e → lacks_expected_fields data.
Proof.
  destruct data as [|b|z|f|s|l|o].
  - done.
  - destruct b; [by intros [= <-]|done].
  - unfold extract. destruct (negb (truthy (JInt z))); [done|by intros [= <-]].
  - unfold extract. destruct (negb (truthy (JFloat f))); [done|by intros [= <-]].
  - unfold extract. destruct (negb (truthy (JStr s))) eqn:E; [done|].
    destruct s as [|c s]; [done|]. by intros [= <-].
  - destruct l as [|d0 rest]; [done|].
    destruct d0 as [| | | | | |items]; try (by intros [= <-]).
    rewrite extract_first_object, getitem_str_obj.
    destruct (dict_get items (u "geometry")) as [g|] eqn:Hg;
      [|intros _ _; by apply lacks_geometry].
    unfold pybind at 1.
    destruct g as [| | | | | |g]; try (by intros [= <-]).
    rewrite getitem_str_obj.
    destruct (dict_get g (u "coordinates")) as [c|] eqn:Hc;
      [|intros _ _; by eapply lacks_coordinates].
    unfold pybind at 1. rewrite getitem_str_obj.
    destruct (dict_get items (u "properties")) as [p|] eqn:Hp;
      [|intros _ _; by eapply lacks_properties].
    unfold pybind at 1.
    destruct p as [| | | | | |p]; try (by intros [= <-]).
    rewrite getitem_str_obj.
    destruct (dict_get p (u "title")) as [t|] eqn:Ht;
      [|intros _ _; by eapply lacks_title].
    unfold pybind at 1. intros He Hpe.
    eapply lacks_pair; [done..|].
    destruct c as [| | | |s|cs|o]; try (by injection He as <-).
    + destruct s as [|c0 [|c1 s]]; simpl; [lia|lia|done].
    + destruct cs as [|c0 [|c1 cs]]; simpl; [lia|lia|done].
  - destruct o as [|[k v] items]; [done|]. intros _ _. apply lacks_first_element.
Qed.

(** A payload without the expected fields ends the loop at once. *)
Lemma attempts_parse_error q rc n k w data e :
  (∃ h, service (w_log w) q = RespHttp h ∧ (status h < 400)%Z
        ∧ body h = BodyJson data) →
  extract data = Err e → is_parse_error e →
  attempts service q rc (S n) k w
  = (Ok (Some (failure (PARSE_PREFIX ++ u ": " ++ exn_str e))),
     logged w [ERequest q]).
Proof.
  intros (h & Hresp & Hs & Hb) He Hp. simpl. unfold bind at 1. simpl.
  rewrite Hresp. simpl. unfold raise_for_status, resp_json.
  destruct (400 <=? status h)%Z eqn:E; [lia|]. rewrite Hb. simpl. rewrite He.
  by destruct e.
Qed.

End FirstAttempt.

Section RetryClientFacts.
Context (py_str : json → pystr).

(** Both clients read the payload in the same order and fail alike. *)
Lemma retry_extract_error data e :
  GeocoderChunked.extract data = Err e →
  RetryTimeout.extract py_str data = Err e.
Proof.
  unfold GeocoderChunked.extract, RetryTimeout.extract.
  destruct (negb (truthy data)); [discriminate|].
  destruct (getitem_int data 0) as [d0|]; simpl; [|by intros [= ->]].
  destruct (getitem_str d0 (u "geometry")) as [g|]; simpl; [|by intros [= ->]].
  destruct (getitem_str g (u "coordinates")) as [c|]; simpl; [|by intros [= ->]].
  destruct (getitem_str d0 (u "properties")) as [p|]; simpl; [|by intros [= ->]].
  destruct (getitem_str p (u "title")) as [t|]; simpl; [|by intros [= ->]].
  destruct (getitem_int c 1) as [c1|]; simpl; [|by intros [= ->]].
  destruct (getitem_int c 0) as [c0|]; simpl; [discriminate|by intros [= ->]].
Qed.

Context {F : Type} (service : service_t F).

(** The recovery client treats a payload without the expected fields as
    one more failed attempt. *)
Lemma retry_attempts_parse_error q rc n k w data e :
  delivers (service (w_log w) q) data →
  RetryTimeout.extract py_str data = Err e → is_parse_error e →
  RetryTimeout.attempts py_str service q rc (S n) k w
  = if (k <? rc - 1)%Z
    then RetryTimeout.attempts py_str service q rc n (k + 1)
           (logged w [ERequest q; ESleep 1000])
    else (Ok (Some (RetryTimeout.Failure
                      (RetryTimeout.PARSE ++ u ": " ++ exn_str e))),
          logged w [ERequest q]).
Proof.
  intros (h & Hresp & Hs & Hct & Hb) He Hp.
  cbn [RetryTimeout.attempts]. unfold bind at 1, request. cbn [w_log w_fs].
  rewrite Hresp. unfold RetryTimeout.try_body, resp_json.
  rewrite Hs, Hct, Hb. cbn [Z.eqb negb andb Pos.eqb pybind].
  rewrite He.
  destruct e; try done; destruct (k <? rc - 1)%Z; try done;
    unfold bind, sleep, emit, logged, after; cbn [w_log w_fs];
    by rewrite <- app_assoc.
Qed.

End RetryClientFacts.

(** C6 (amended). When an HTTP exchange succeeds and its payload lacks an
    expected field by an absent key or entry (the payload is a non-empty
    object instead of an array; or a key is absent from the object that
    should hold it; or the coordinate value holds no pair), the primary
    client (geocoder_chunked) ends its loop of attempts at once, after that
    one request, with the parse error and its detail.  The client of the
    recovery pass (retry_timeout) does not: while attempts remain it sleeps
    one second and tries again, and it returns the parse error and its
    detail only when the payload came on the last attempt.  By
    [parse_error_lacks] these are all the payloads that the clause
    [except (KeyError, IndexError)] of the primary client meets; a field
    that is there with a value of another kind is outside this statement. *)
Theorem malformed_payload_is_final_in_primary_client_only
    {F : Type} (service : service_t F) (py_str : json → pystr)
    (q : pystr) (retry_count : Z) (n : nat) (k : Z) (w : world F) (data : json) :
  delivers (service (w_log w) q) data →
  lacks_expected_fields data →
  ∃ e, is_parse_error e
    ∧ GeocoderChunked.attempts service q retry_count (S n) k w
      = (Ok (Some (GeocoderChunked.failure
                     (GeocoderChunked.PARSE_PREFIX ++ u ": " ++ exn_str e))),
         logged w [ERequest q])
    ∧ RetryTimeout.attempts py_str service q retry_count (S n) k w
      = if (k <? retry_count - 1)%Z
        then RetryTimeout.attempts py_str service q retry_count n (k + 1)
               (logged w [ERequest q; ESleep 1000])
        else (Ok (Some (RetryTimeout.Failure
                          (RetryTimeout.PARSE ++ u ": " ++ exn_str e))),
              logged w [ERequest q]).
Proof.
  intros Hd Hl. destruct (lacks_extract data Hl) as (e & He & Hp).
  exists e. split; [done|]. split.
  - apply attempts_parse_error with (data := data); [|done..].
    destruct Hd as (h & ? & Hs & _ & ?). exists h. repeat split; auto. lia.
  - apply retry_attempts_parse_error with (data := data); auto.
    by apply retry_extract_error.
Qed.

Lemma malformed_payload_is_final_in_primary_client_only_witness :
  let service : service_t unit := Demo.always (Demo.json_response Demo.no_geometry) in
  let w := Demo.fresh tt in
  ∃ e, is_parse_error e
    ∧ GeocoderChunked.attempts service (u "x") 3 3 0 w
      = (Ok (Some (GeocoderChunked.failure
                     (GeocoderChunked.PARSE_PREFIX ++ u ": " ++ exn_str e))),
         logged w [ERequest (u "x")])
    ∧ RetryTimeout.attempts Demo.py_str service (u "x") 3 3 0 w
      = if (0 <? 3 - 1)%Z
        then RetryTimeout.attempts Demo.py_str service (u "x") 3 2 (0 + 1)
               (logged w [ERequest (u "x"); ESleep 1000])
        else (Ok (Some (RetryTimeout.Failure
                          (RetryTimeout.PARSE ++ u ": " ++ exn_str e))),
              logged w [ERequest (u "x")]).
Proof.
  intros service w.
  apply (malformed_payload_is_final_in_primary_client_only
           service Demo.py_str (u "x") 3 2 0 w Demo.no_geometry).
  - eexists. repeat split; reflexivity.
  - apply lacks_geometry. reflexivity.
Defined.

(** C6, as stated, fails in the recovery client: against a service that
    always answers 200 with a first element that has no geometry, one call
    with the default five attempts issues five requests, sleeping a second
    between them, before it returns the parse error. *)
Lemma recovery_client_retries_malformed_payload :
  let service : service_t unit := Demo.always (Demo.json_response Demo.no_geometry) in
  delivers (service [] (u "x")) Demo.no_geometry
  ∧ lacks_expected_fields Demo.no_geometry
  ∧ RetryTimeout.get_coordinates Demo.py_str service (Some (u "x")) 5 (Demo.fresh tt)
    = (Ok (RetryTimeout.Failure (u "解析エラー: 'geometry'")),
       logged (Demo.fresh tt)
         [EAcquire; ERequest (u "x"); ESleep 1000; ERequest (u "x"); ESleep 1000;
          ERequest (u "x"); ESleep 1000; ERequest (u "x"); ESleep 1000;
          ERequest (u "x"); ERelease])
  ∧ requests (emitted (RetryTimeout.get_coordinates Demo.py_str service
                         (Some (u "x")) 5) (Demo.fresh tt))
    ≠ [u "x"].
Proof.
  intros service. split; [|split; [|split]].
  - eexists. repeat split; reflexivity.
  - apply lacks_geometry. reflexivity.
  - vm_compute. reflexivity.
  - vm_compute. discriminate.
Qed.

Lemma latitude_is_index_1_longitude_is_index_0_witness :
  let service : service_t unit := Demo.knows (u "東京都千代田区") in
  let address := Some (u " 東京都千代田区 ") in
  ∃ log h first rest geometry coordinates,
    service log (strip (default [] address)) = RespHttp h
    ∧ body h = BodyJson (JArr (first :: rest))
    ∧ getitem_str first (u "geometry") = Ok geometry
    ∧ getitem_str geometry (u "coordinates") = Ok coordinates
    ∧ getitem_int coordinates 1 = Ok (JFloat 35.0)
    ∧ getitem_int coordinates 0 = Ok (JFloat 139.0)
    ∧ ∀ x y more, coordinates = JArr (x :: y :: more) →
        JFloat 35.0 = y ∧ JFloat 139.0 = x.
Proof.
  intros service address.
  apply (latitude_is_index_1_longitude_is_index_0 service address 3
           (Demo.fresh tt)
           (logged (Demo.fresh tt)
              [EAcquire; ERequest (u "東京都千代田区"); ERelease])
           {| GeocoderChunked.r_matched := JStr (u "東京都千代田区");
              GeocoderChunked.r_lat := JFloat 35.0;
              GeocoderChunked.r_lon := JFloat 139.0;
              GeocoderChunked.r_err := [] |}).
  - vm_compute. reflexivity.
  - reflexivity.
Defined.

(** ** The concurrency gate *)

Section EmittedFacts.
Context {F : Type}.

Lemma emitted_logged {A} (m : M F A) (w : world F) l :
  (m w).2 = logged w l → emitted m w = l.
Proof.
  unfold emitted. intros ->. simpl. by rewrite drop_app_length.
Qed.

Lemma bracketed_io (q : pystr) (held : bool) (body rest : list (event F)) :
  Forall (io_event q) body →
  bracketed held (body ++ rest) = bracketed held rest.
Proof.
  induction 1 as [|e body [->|[ms ->]] _ IH]; simpl; auto.
Qed.

Lemma sleeps_while_held_io_free (held : bool) (trace : list (event F)) :
  held = false → Forall (fun e => is_gate_event e = false) trace →
  sleeps_while_held held trace = false.
Proof.
  intros -> H. induction H as [|e trace He _ IH]; simpl; [done|].
  by destruct e.
Qed.

End EmittedFacts.

Section PoolFacts.
Context {F : Type}.
Implicit Types (p : pool (F:=F)) (t : task (F:=F)).

Lemma in_flight_weight p : in_flight p = sum_list (weight <$> tasks p).
Proof.
  unfold in_flight. induction (tasks p) as [|t l IH]; simpl; [done|].
  rewrite filter_cons. unfold weight at 1.
  destruct (holding t); simpl; by rewrite IH.
Qed.

Lemma weight_insert (l : list task) i t t' :
  l !! i = Some t →
  sum_list (weight <$> <[i:=t']> l) + weight t = sum_list (weight <$> l) + weight t'.
Proof.
  revert i. induction l as [|a l IH]; intros [|i]; simpl; try done.
  - intros [= ->].
    generalize (sum_list (weight <$> l)), (weight t), (weight t'). intros; lia.
  - intros H. specialize (IH i H). unfold fmap in *. lia.
Qed.

Lemma in_flight_insert p g i t t' :
  tasks p !! i = Some t →
  in_flight {| gate := g; tasks := <[i:=t']> (tasks p) |} + weight t
  = in_flight p + weight t'.
Proof.
  intros Hi. rewrite !in_flight_weight. simpl. by apply weight_insert.
Qed.

Lemma step_inv capacity i p p' :
  pool_inv capacity p → step i p = Some p' → pool_inv capacity p'.
Proof.
  intros (Hg & Hsum & Hok). unfold step.
  destruct (tasks p !! i) as [t|] eqn:Hi; [|done].
  assert (Ht : task_ok t) by (eapply Forall_lookup_1; eauto).
  unfold task_ok in Ht.
  destruct (todo t) as [|e rest] eqn:Htodo; [done|].
  destruct e; simpl in Ht.
  - destruct (0 <? gate p)%Z eqn:Hpos; [|done]. intros [= <-].
    apply andb_prop in Ht as [Hh Hrest]. apply negb_true_iff in Hh.
    pose proof (in_flight_insert p (gate p - 1) i t
                  {| holding := true; todo := rest |} Hi) as Hw.
    unfold weight in Hw. rewrite Hh in Hw. simpl in Hw.
    split; [simpl; lia|]. split; [simpl; lia|].
    simpl. by apply Forall_insert.
  - intros [= <-].
    apply andb_prop in Ht as [Hh Hrest].
    pose proof (in_flight_insert p (gate p + 1) i t
                  {| holding := false; todo := rest |} Hi) as Hw.
    unfold weight in Hw. rewrite Hh in Hw. simpl in Hw.
    split; [simpl; lia|]. split; [simpl; lia|].
    simpl. by apply Forall_insert.
  - intros [= <-].
    pose proof (in_flight_insert p (gate p) i t
                  {| holding := holding t; todo := rest |} Hi) as Hw.
    unfold weight in Hw. simpl in Hw.
    split; [done|]. split; [simpl; lia|].
    simpl. by apply Forall_insert.
  - intros [= <-].
    pose proof (in_flight_insert p (gate p) i t
                  {| holding := holding t; todo := rest |} Hi) as Hw.
    unfold weight in Hw. simpl in Hw.
    split; [done|]. split; [simpl; lia|].
    simpl. by apply Forall_insert.
  - intros [= <-].
    pose proof (in_flight_insert p (gate p) i t
                  {| holding := holding t; todo := rest |} Hi) as Hw.
    unfold weight in Hw. simpl in Hw.
    split; [done|]. split; [simpl; lia|].
    simpl. by apply Forall_insert.
Qed.

Lemma run_inv capacity choices : ∀ p,
  pool_inv capacity p → pool_inv capacity (run choices p).
Proof.
  induction choices as [|i choices IH]; intros p Hp; simpl; [done|].
  destruct (step i p) as [p'|] eqn:Hs; [|auto].
  apply IH. eapply step_inv; eauto.
Qed.

Lemma start_inv capacity (traces : list (list (event F))) :
  (0 ≤ capacity)%Z → Forall (fun tr => bracketed false tr = true) traces →
  pool_inv capacity (start capacity traces).
Proof.
  intros Hc Hb. split; [done|]. split.
  - rewrite in_flight_weight. simpl.
    assert (sum_list (weight <$> map (fun tr => {| holding := false; todo := tr |}) traces) = 0)
      as ->; [|lia].
    clear. induction traces; simpl; auto.
  - simpl. apply Forall_fmap. eapply Forall_impl; [exact Hb|]. done.
Qed.

End PoolFacts.

Lemma lookup_trace_shape {F : Type} (service : service_t F)
    (address : option pystr) (rc : Z) (w : world F) :
  let trace := emitted (GeocoderChunked.get_coordinates service address rc) w in
  trace = []
  ∨ ∃ body, trace = EAcquire :: body ++ [ERelease]
            ∧ Forall (io_event (strip (default [] address))) body.
Proof.
  destruct (GeocoderChunked_get_coordinates_log service address rc w)
    as (l & Hl & Hshape).
  simpl. by rewrite (emitted_logged _ _ _ Hl).
Qed.

Lemma lookup_trace_bracketed {F : Type}
    (call : service_t F * option pystr * Z * world F) :
  bracketed false (lookup_trace call) = true.
Proof.
  destruct call as [[[service address] rc] w]. unfold lookup_trace.
  destruct (lookup_trace_shape service address rc w) as [->|(body & -> & Hio)];
    [done|].
  simpl. by rewrite (bracketed_io _ _ _ _ Hio).
Qed.

(** C5 (amended). A lookup acquires the gate once, before its first
    attempt, and releases it once, after its last: every attempt and every
    backoff sleep of the lookup lies between the two (a lookup with a blank
    query touches neither gate nor network).  However the lookups of a pool
    interleave under a semaphore of capacity [capacity], the number of
    lookups inside the gate never exceeds the capacity. *)
Theorem gate_spans_the_lookup_and_bounds_in_flight {F : Type} :
  (∀ (service : service_t F) (address : option pystr) (retry_count : Z)
     (w : world F),
     let trace :=
       emitted (GeocoderChunked.get_coordinates service address retry_count) w in
     trace = []
     ∨ ∃ body, trace = EAcquire :: body ++ [ERelease]
               ∧ Forall (io_event (strip (default [] address))) body)
  ∧ (∀ (capacity : Z) (calls : list (service_t F * option pystr * Z * world F))
       (choices : list nat),
       (0 ≤ capacity)%Z →
       let p := run choices (start capacity (map lookup_trace calls)) in
       (Z.of_nat (in_flight p) ≤ capacity)%Z
       ∧ (gate p + Z.of_nat (in_flight p))%Z = capacity).
Proof.
  split; [apply lookup_trace_shape|].
  intros capacity calls choices Hc p.
  assert (Hinv : pool_inv capacity p).
  { apply run_inv, start_inv; [done|].
    apply Forall_fmap, Forall_forall. intros call _. apply lookup_trace_bracketed. }
  destruct Hinv as (Hg & Hsum & _). lia.
Qed.

Lemma gate_spans_the_lookup_and_bounds_in_flight_witness :
  let timeouts : service_t unit := Demo.always (RespRaises TimeoutError) in
  let call := (timeouts, Some (u "x"), 3%Z, Demo.fresh tt) in
  let p := run [0; 1; 2; 0; 1; 2; 0; 0; 0; 0; 0; 1; 2]
             (start 2 (map lookup_trace [call; call; call])) in
  (Z.of_nat (in_flight p) ≤ 2)%Z ∧ (gate p + Z.of_nat (in_flight p))%Z = 2%Z.
Proof.
  intros timeouts call.
  apply (proj2 (gate_spans_the_lookup_and_bounds_in_flight (F:=unit))
           2%Z [call; call; call] [0; 1; 2; 0; 1; 2; 0; 0; 0; 0; 0; 1; 2]).
  lia.
Defined.

(** C5, as stated, fails: a lookup whose requests time out keeps the gate
    through its backoff sleeps.  Its log acquires once, requests and sleeps
    in turn, and releases once; no request has an acquisition of its own.
    With capacity 1, a second lookup cannot enter the gate while the first
    one sleeps. *)
Lemma gate_is_held_across_backoff_sleeps :
  let timeouts : service_t unit := Demo.always (RespRaises TimeoutError) in
  let call := (timeouts, Some (u "x"), 3%Z, Demo.fresh tt) in
  lookup_trace call
  = [EAcquire; ERequest (u "x"); ESleep 500; ERequest (u "x"); ESleep 500;
     ERequest (u "x"); ERelease]
  ∧ gated_per_attempt (lookup_trace call) = false
  ∧ sleeps_while_held false (lookup_trace call) = true
  ∧ let p := run [0; 0] (start 1 (map lookup_trace [call; call])) in
    (todo <$> tasks p !! 0)
    = Some [ESleep 500; ERequest (u "x"); ESleep 500; ERequest (u "x"); ERelease]
    ∧ gate p = 0%Z
    ∧ step 1 p = None.
Proof.
  intros timeouts call. repeat split; vm_compute; reflexivity.
Qed.

(** ** [gather] *)

Lemma completion_order_covers (sched : list nat) (n i : nat) :
  i < n → i ∈ completion_order sched n.
Proof.
  intros Hi. unfold completion_order.
  set (named := remove_dups _).
  destruct (decide (i ∈ named)) as [Hin|Hout].
  - apply elem_of_app. by left.
  - apply elem_of_app. right. apply list_elem_of_filter. split; [done|].
    apply elem_of_seq. lia.
Qed.

Lemma all_some_fmap {A} (l : list (option A)) :
  (∀ i x, l !! i = Some x → is_Some x) → ∃ rs, l = Some <$> rs.
Proof.
  induction l as [|o l IH]; intros H.
  - by exists [].
  - destruct (H 0 o eq_refl) as [r ->].
    destruct IH as [rs ->]; [intros i x Hx; apply (H (S i) x Hx)|].
    by exists (r :: rs).
Qed.

Lemma omap_id_fmap_Some {A} (rs : list A) : omap id (Some <$> rs) = rs.
Proof.
  induction rs as [|a rs IH]; [done|].
  rewrite fmap_cons.
  change (omap id (Some a :: (Some <$> rs))) with (a :: omap id (Some <$> rs)).
  by rewrite IH.
Qed.

Section GatherFacts.
Context {F A : Type}.
Implicit Types (tasks : list (M F A)) (slots : list (option A)).

Lemma run_tasks_spec tasks order : ∀ slots w slots' w',
  length slots = length tasks →
  run_tasks order tasks slots w = (Ok slots', w') →
  length slots' = length tasks
  ∧ ∀ i t, tasks !! i = Some t →
      (i ∈ order → ∃ r w1 w1', slots' !! i = Some (Some r) ∧ t w1 = (Ok r, w1'))
      ∧ (i ∉ order → slots' !! i = slots !! i).
Proof.
  induction order as [|j order IH]; intros slots w slots' w' Hlen; simpl.
  - intros [= <- <-]. split; [done|]. intros i t _. split; [|done].
    intros Hin. by apply elem_of_nil in Hin.
  - destruct (tasks !! j) as [tj|] eqn:Hj.
    + unfold bind. destruct (tj w) as [[r|e] w1] eqn:Hrun; [|discriminate].
      intros Hrest.
      apply IH in Hrest as [Hlen' Hslots]; [|by rewrite length_insert].
      split; [done|]. intros i t Hi.
      destruct (Hslots i t Hi) as [Hin Hout]. split.
      * intros Hmem. destruct (decide (i ∈ order)) as [Ho|Ho]; [auto|].
        apply elem_of_cons in Hmem as [->|]; [|done].
        rewrite (Hout Ho). pose proof (eq_trans (eq_sym Hi) Hj) as [= ->].
        exists r, w, w1. split; [|done].
        apply list_lookup_insert_eq. rewrite Hlen. by eapply lookup_lt_Some.
      * intros Hmem. apply not_elem_of_cons in Hmem as [Hne Ho].
        rewrite (Hout Ho). by apply list_lookup_insert_ne.
    + intros Hrest. apply IH in Hrest as [Hlen' Hslots]; [|done].
      split; [done|]. intros i t Hi.
      destruct (Hslots i t Hi) as [Hin Hout]. split.
      * intros Hmem. apply elem_of_cons in Hmem as [->|]; [|auto].
        by pose proof (eq_trans (eq_sym Hi) Hj).
      * intros Hmem. apply not_elem_of_cons in Hmem as [_ Ho]. auto.
Qed.

(** The results of [gather] are those of the tasks, in the order of the
    tasks. *)
Lemma gather_spec sched tasks w rs w' :
  gather sched tasks w = (Ok rs, w') →
  length rs = length tasks
  ∧ ∀ i t, tasks !! i = Some t →
      ∃ r w1 w1', rs !! i = Some r ∧ t w1 = (Ok r, w1').
Proof.
  unfold gather, bind, ret.
  destruct (run_tasks _ tasks _ w) as [[slots|e] w1] eqn:Hrun; [|discriminate].
  intros [= <- <-].
  apply run_tasks_spec in Hrun as [Hlen Hslots]; [|by rewrite length_replicate].
  destruct (all_some_fmap slots) as [rs Hrs].
  { intros i x Hx.
    assert (Hi : i < length tasks) by (rewrite <- Hlen; by eapply lookup_lt_Some).
    destruct (lookup_lt_is_Some_2 tasks i Hi) as [t Ht].
    destruct (Hslots i t Ht) as [Hin _].
    destruct Hin as (r & _ & _ & Hr & _);
      [by apply completion_order_covers|].
    rewrite Hr in Hx. injection Hx as <-. by eexists. }
  subst slots. rewrite omap_id_fmap_Some.
  rewrite length_fmap in Hlen. split; [done|].
  intros i t Ht. destruct (Hslots i t Ht) as [Hin _].
  destruct Hin as (r & w2 & w2' & Hr & Hrun);
    [apply completion_order_covers; by eapply lookup_lt_Some|].
  exists r, w2, w2'. split; [|done].
  rewrite list_lookup_fmap in Hr.
  destruct (rs !! i); simpl in Hr; congruence.
Qed.

Lemma run_tasks_pure tasks (vs : list A) order : ∀ slots w,
  Forall2 returns_always tasks vs →
  (∀ i o, slots !! i = Some o → o = None ∨ o = vs !! i) →
  length slots = length tasks →
  ∃ slots' l,
    run_tasks order tasks slots w = (Ok slots', logged w l)
    ∧ length slots' = length tasks
    ∧ (∀ i o, slots' !! i = Some o → o = None ∨ o = vs !! i)
    ∧ (∀ i, i ∈ order → i < length tasks → slots' !! i = Some (vs !! i)).
Proof.
  intros slots w Hall. revert slots w.
  induction order as [|j order IH]; intros slots w Hs Hlen; simpl.
  - exists slots, []. split.
    { unfold ret, logged, after. destruct w; simpl. by rewrite app_nil_r. }
    split; [done|]. split; [done|]. intros i Hin. by apply elem_of_nil in Hin.
  - destruct (tasks !! j) as [tj|] eqn:Hj.
    + destruct (Forall2_lookup_l _ _ _ _ _ Hall Hj) as (v & Hv & Hret).
      destruct (Hret w) as (l1 & Hrun). unfold bind. rewrite Hrun.
      destruct (IH (<[j:=Some v]> slots) (logged w l1)) as (slots' & l2 & Hr & Hl & Hs' & Hin).
      { intros i o Hi. destruct (decide (i = j)) as [->|Hne].
        - rewrite list_lookup_insert_eq in Hi
            by (rewrite Hlen; by eapply lookup_lt_Some).
          right. congruence.
        - rewrite list_lookup_insert_ne in Hi by done. eauto. }
      { by rewrite length_insert. }
      exists slots', (l1 ++ l2). split.
      { rewrite Hr. unfold logged, after. simpl. by rewrite app_assoc. }
      split; [done|]. split; [done|].
      intros i Hmem Hi. destruct (decide (i ∈ order)) as [Ho|Ho]; [auto|].
      apply elem_of_cons in Hmem as [->|]; [|done].
      assert (Hlt : j < length slots') by (rewrite Hl; done).
      destruct (lookup_lt_is_Some_2 _ _ Hlt) as [o Ho'].
      destruct (run_tasks_spec tasks order (<[j:=Some v]> slots) (logged w l1)
                  slots' _ ltac:(by rewrite length_insert) Hr) as [_ Hspec].
      destruct (Hspec j tj Hj) as [_ Hkeep]. rewrite (Hkeep Ho).
      rewrite list_lookup_insert_eq by (rewrite Hlen; done). by rewrite Hv.
    + destruct (IH slots w Hs Hlen) as (slots' & l & Hr & Hl & Hs' & Hin).
      exists slots', l. repeat split; auto.
      intros i Hmem Hi. apply elem_of_cons in Hmem as [->|]; [|auto].
      apply lookup_lt_is_Some_2 in Hi as [? ?]. congruence.
Qed.

(** Tasks whose results do not depend on the world give the same results
    under every schedule. *)
Lemma gather_pure sched tasks (vs : list A) w :
  Forall2 returns_always tasks vs →
  ∃ l, gather sched tasks w = (Ok vs, logged w l).
Proof.
  intros Hall.
  destruct (run_tasks_pure tasks vs (completion_order sched (length tasks))
              (replicate (length tasks) None) w Hall)
    as (slots' & l & Hr & Hl & Hs & Hin).
  { intros i o Hi. apply lookup_replicate in Hi as [-> _]. by left. }
  { by rewrite length_replicate. }
  exists l. unfold gather, bind, ret. rewrite Hr. f_equal. f_equal.
  assert (slots' = Some <$> vs) as ->; [|apply omap_id_fmap_Some].
  apply list_eq. intros i. rewrite list_lookup_fmap.
  destruct (decide (i < length tasks)) as [Hi|Hi].
  - rewrite (Hin i (completion_order_covers _ _ _ Hi) Hi).
    apply lookup_lt_is_Some_2 in Hi as [t Ht].
    destruct (Forall2_lookup_l _ _ _ _ _ Hall Ht) as (v & -> & _). done.
  - rewrite lookup_ge_None_2 by lia.
    rewrite lookup_ge_None_2; [done|].
    rewrite <- (Forall2_length _ _ _ Hall). lia.
Qed.

End GatherFacts.

(** ** More on the primary client *)

Section PrimaryClientBounds.
Import GeocoderChunked.
Context {F : Type} (service : service_t F).

Lemma requests_app (l1 l2 : list (event F)) :
  requests (l1 ++ l2) = requests l1 ++ requests l2.
Proof. unfold requests. apply omap_app. Qed.

(** The loop issues at most one request per iteration, all for [q]. *)
Lemma attempts_requests q rc remaining : ∀ k w,
  ∃ l, (attempts service q rc remaining k w).2 = logged w l
       ∧ length (requests l) ≤ remaining
       ∧ Forall (fun q' => q' = q) (requests l).
Proof.
  induction remaining as [|n IH]; intros k w; simpl.
  - exists []. unfold ret, logged, after. simpl. rewrite app_nil_r.
    destruct w; simpl. repeat split; [lia|constructor].
  - unfold bind at 1, request. simpl.
    set (w1 := {| w_fs := w_fs w; w_log := w_log w ++ [ERequest q] |}).
    assert (Hstop : ∀ x : pyres (option lookup_result) * world F,
      x.2 = w1 →
      ∃ l, x.2 = logged w l ∧ length (requests l) ≤ S n
           ∧ Forall (fun q' => q' = q) (requests l)).
    { intros x ->. exists [ERequest q]. repeat split; simpl; [lia|].
      by constructor. }
    assert (Hgo :
      ∃ l, ((sleep 500 ;;; attempts service q rc n (k + 1)%Z) w1).2 = logged w l
           ∧ length (requests l) ≤ S n
           ∧ Forall (fun q' => q' = q) (requests l)).
    { unfold bind, sleep, emit. simpl.
      destruct (IH (k + 1)%Z
        {| w_fs := w_fs w; w_log := (w_log w ++ [ERequest q]) ++ [ESleep 500] |})
        as (l & Hl & Hlen & Hq).
      exists (ERequest q :: ESleep 500 :: l). split; [|split].
      - rewrite Hl. unfold logged, after. simpl. f_equal. by rewrite <- !app_assoc.
      - simpl. lia.
      - simpl. by constructor. }
    destruct (try_body (service (w_log w) q)) as [r|e]; [by apply Hstop|].
    destruct e; try (by apply Hstop); destruct (_ <? _)%Z;
      try (by apply Hstop); apply Hgo.
Qed.

End PrimaryClientBounds.

(** X1. One call of the primary client issues at most [retry_count]
    requests (none when [retry_count] is not positive), and each of them
    asks for the address with its surrounding whitespace removed. *)
Theorem lookup_requests_are_bounded {F : Type} (service : service_t F)
    (address : option pystr) (retry_count : Z) (w : world F) :
  let trace :=
    emitted (GeocoderChunked.get_coordinates service address retry_count) w in
  length (requests trace) ≤ Z.to_nat retry_count
  ∧ Forall (fun q => q = strip (default [] address)) (requests trace).
Proof.
  simpl. unfold GeocoderChunked.get_coordinates.
  destruct (GeocoderChunked.address_is_empty address).
  { unfold emitted, ret. simpl. rewrite drop_all. simpl. split; [lia|constructor]. }
  set (q := strip (default [] address)).
  destruct (attempts_requests service q retry_count (Z.to_nat retry_count) 0
              {| w_fs := w_fs w; w_log := w_log w ++ [EAcquire] |})
    as (l & Hl & Hlen & Hq).
  assert (Hem : emitted
    (o <- with_semaphore
            (GeocoderChunked.attempts service q retry_count (Z.to_nat retry_count) 0) ;;
     match o with
     | Some r => ret r
     | None => ret (GeocoderChunked.failure GeocoderChunked.RETRY_LIMIT)
     end) w = EAcquire :: l ++ [ERelease]).
  { apply emitted_logged. msimpl.
    destruct (GeocoderChunked.attempts service q retry_count _ _ _) as [res w2].
    simpl in *. subst w2. simpl. rewrite <- !app_assoc. simpl.
    by destruct res as [[r|]|e]. }
  rewrite Hem.
  change (EAcquire :: l ++ [ERelease]) with ([EAcquire] ++ l ++ [ERelease]).
  rewrite !requests_app. simpl. rewrite app_nil_r. done.
Qed.

Section PrimaryClientOutcomes.
Import GeocoderChunked.
Context {F : Type} (service : service_t F).



(** A call in terms of its loop of attempts. *)
Lemma get_coordinates_via_attempts address rc w res l :
  address_is_empty address = false →
  attempts service (strip (default [] address)) rc (Z.to_nat rc) 0
    (logged w [EAcquire])
  = (res, logged (logged w [EAcquire]) l) →
  get_coordinates service address rc w
  = (match res with
     | Ok (Some r) => Ok r
     | Ok None => Ok (failure RETRY_LIMIT)
     | Err e => Err e
     end,
     logged w (EAcquire :: l ++ [ERelease])).
Proof.
  intros Ha Hrun. unfold get_coordinates. rewrite Ha.
  unfold with_semaphore, bind, emit, attempt, of_pyres, ret.
  unfold logged, after in *. cbn [w_log w_fs] in *. rewrite Hrun.
  cbn [w_log w_fs]. rewrite <- !app_assoc.
  by destruct res as [[r|]|e].
Qed.

End PrimaryClientOutcomes.



Section PrimaryClientEdges.
Import GeocoderChunked.
Context {F : Type} (service : service_t F).

Lemma attempts_returns q rc n k w r :
  try_body (service (w_log w) q) = Ok r →
  attempts service q rc (S n) k w = (Ok (Some r), logged w [ERequest q]).
Proof.
  intros Hb. cbn [attempts]. unfold bind, request. cbn [w_log w_fs].
  by rewrite Hb.
Qed.

Lemma attempts_raises q rc n k w e :
  try_body (service (w_log w) q) = Err e →
  match e with
  | TimeoutError | ClientError _ | KeyError _ | IndexError _ => False
  | _ => True
  end →
  attempts service q rc (S n) k w = (Err e, logged w [ERequest q]).
Proof.
  intros Hb He. cbn [attempts]. unfold bind, request. cbn [w_log w_fs].
  rewrite Hb. by destruct e.
Qed.

(** Every dict the client returns either carries an empty error or is one
    of the failure dicts. *)
Lemma attempts_result_shape q rc remaining : ∀ k w r w',
  attempts service q rc remaining k w = (Ok (Some r), w') →
  r_err r = [] ∨ ∃ err, r = failure err.
Proof.
  induction remaining as [|n IH]; intros k w r w'; simpl.
  - by msimpl.
  - unfold bind at 1, request. simpl.
    destruct (try_body (service (w_log w) q)) as [r0|e] eqn:Hb.
    + unfold ret. intros [= <- <-].
      apply try_body_ok in Hb as (h & data & _ & _ & _ & Hex).
      unfold extract in Hex. destruct (negb (truthy data)).
      * injection Hex as <-. right. by eexists.
      * left.
        destruct (getitem_int data 0) as [d0|]; simpl in Hex; [|done].
        destruct (getitem_str d0 (u "geometry")) as [g|]; simpl in Hex; [|done].
        destruct (getitem_str g (u "coordinates")) as [c|]; simpl in Hex; [|done].
        destruct (getitem_str d0 (u "properties")) as [p|]; simpl in Hex; [|done].
        destruct (getitem_str p (u "title")) as [t|]; simpl in Hex; [|done].
        destruct (getitem_int c 1) as [c1|]; simpl in Hex; [|done].
        destruct (getitem_int c 0) as [c0|]; simpl in Hex; [|done].
        by injection Hex as <-.
    + destruct e; try (by unfold raise);
        try (unfold ret; intros [= <- <-]; right; by eexists);
        destruct (_ <? _)%Z;
        try (unfold ret; intros [= <- <-]; right; by eexists);
        unfold bind, sleep, emit; simpl; apply IH.
Qed.

End PrimaryClientEdges.

(** X3. A response whose JSON payload is empty (an empty array, but also
    null, an empty object or any other false value) ends the loop of
    attempts at once with the not-found status: it is never retried,
    whichever attempt it answers. *)
Theorem empty_payload_is_not_found_at_once {F : Type} (service : service_t F)
    (q : pystr) (retry_count : Z) (n : nat) (k : Z) (w : world F)
    (h : http_response) (data : json) :
  service (w_log w) q = RespHttp h →
  (status h < 400)%Z → body h = BodyJson data → truthy data = false →
  GeocoderChunked.attempts service q retry_count (S n) k w
  = (Ok (Some (GeocoderChunked.failure GeocoderChunked.NOT_FOUND)),
     logged w [ERequest q]).
Proof.
  intros Hresp Hs Hb Ht. apply attempts_returns. rewrite Hresp. simpl.
  unfold raise_for_status, resp_json.
  destruct (400 <=? status h)%Z eqn:E; [lia|]. rewrite Hb. simpl.
  unfold GeocoderChunked.extract. by rewrite Ht.
Qed.

Lemma empty_payload_is_not_found_at_once_witness :
  GeocoderChunked.attempts (F:=unit) (Demo.always (Demo.json_response (JArr [])))
    (u "x") 3 2 1 (Demo.fresh tt)
  = (Ok (Some (GeocoderChunked.failure GeocoderChunked.NOT_FOUND)),
     logged (Demo.fresh tt) [ERequest (u "x")]).
Proof.
  eapply (empty_payload_is_not_found_at_once
            (Demo.always (Demo.json_response (JArr []))) (u "x") 3 1 1
            (Demo.fresh tt)); [reflexivity|simpl; lia|reflexivity|reflexivity].
Defined.

(** X4. With a retry count of zero or less the client acquires and
    releases the gate without issuing any request and reports that the
    retry limit was reached. *)
Theorem no_attempts_reports_retry_limit {F : Type} (service : service_t F)
    (address : option pystr) (retry_count : Z) (w : world F) :
  GeocoderChunked.address_is_empty address = false →
  (retry_count ≤ 0)%Z →
  GeocoderChunked.get_coordinates service address retry_count w
  = (Ok (GeocoderChunked.failure GeocoderChunked.RETRY_LIMIT),
     logged w [EAcquire; ERelease]).
Proof.
  intros Ha Hrc.
  rewrite (get_coordinates_via_attempts service address retry_count w
             (Ok None) [] Ha); [done|].
  assert (Z.to_nat retry_count = 0) as -> by lia.
  unfold logged, after. simpl. unfold ret. by rewrite app_nil_r.
Qed.

Lemma no_attempts_reports_retry_limit_witness :
  GeocoderChunked.get_coordinates (F:=unit)
    (Demo.knows (u "x")) (Some (u "x")) 0 (Demo.fresh tt)
  = (Ok (GeocoderChunked.failure GeocoderChunked.RETRY_LIMIT),
     logged (Demo.fresh tt) [EAcquire; ERelease]).
Proof.
  apply no_attempts_reports_retry_limit; [reflexivity|lia].
Defined.

(** X5. The client does not handle every malformed payload: when the first
    element of the array is not an object (a number, a string, null, a
    list), reading it raises a TypeError, which no clause of the client
    catches.  The call then raises that error instead of returning a
    status; the gate is released all the same. *)
Theorem non_object_element_raises_type_error {F : Type} (service : service_t F)
    (address : option pystr) (retry_count : Z) (w : world F)
    (h : http_response) (first : json) (rest : list json) :
  GeocoderChunked.address_is_empty address = false →
  (0 < retry_count)%Z →
  service (w_log w ++ [EAcquire]) (strip (default [] address)) = RespHttp h →
  (status h < 400)%Z → body h = BodyJson (JArr (first :: rest)) →
  (∀ items, first ≠ JObj items) →
  ∃ msg,
    GeocoderChunked.get_coordinates service address retry_count w
    = (Err (TypeError msg),
       logged w [EAcquire; ERequest (strip (default [] address)); ERelease]).
Proof.
  intros Ha Hrc Hresp Hs Hb Hfirst.
  set (q := strip (default [] address)) in *.
  assert (∃ msg, GeocoderChunked.try_body (RespHttp h) = Err (TypeError msg))
    as [msg Hmsg].
  { simpl. unfold raise_for_status, resp_json.
    destruct (400 <=? status h)%Z eqn:E; [lia|]. rewrite Hb. simpl.
    unfold GeocoderChunked.extract. simpl.
    change (getitem_int (JArr (first :: rest)) 0) with (Ok (A:=json) first).
    simpl. destruct first; simpl; try (by eexists). by destruct (Hfirst items). }
  exists msg.
  rewrite (get_coordinates_via_attempts service address retry_count w
             (Err (TypeError msg)) [ERequest q] Ha); [done|].
  destruct (Z.to_nat retry_count) as [|n] eqn:Hn; [lia|].
  apply attempts_raises; [|done].
  unfold logged, after. cbn [w_log w_fs]. fold q. by rewrite Hresp.
Qed.

Lemma non_object_element_raises_type_error_witness :
  ∃ msg,
    GeocoderChunked.get_coordinates (F:=unit)
      (Demo.always (Demo.json_response (JArr [JInt 5]))) (Some (u "x")) 3
      (Demo.fresh tt)
    = (Err (TypeError msg),
       logged (Demo.fresh tt)
         [EAcquire; ERequest (strip (default [] (Some (u "x")))); ERelease]).
Proof.
  eapply (non_object_element_raises_type_error
            (Demo.always (Demo.json_response (JArr [JInt 5]))) (Some (u "x")) 3
            (Demo.fresh tt) _ (JInt 5) []);
    [reflexivity|lia|reflexivity|simpl; lia|reflexivity|discriminate].
Defined.

(** X6. Coordinates and a matched label are present only in a result whose
    error is empty: every dict the client returns with an error has the
    empty label and no latitude and no longitude. *)
Theorem failed_lookup_has_no_coordinates {F : Type} (service : service_t F)
    (address : option pystr) (retry_count : Z) (w w' : world F)
    (r : GeocoderChunked.lookup_result) :
  GeocoderChunked.get_coordinates service address retry_count w = (Ok r, w') →
  GeocoderChunked.r_err r ≠ [] →
  GeocoderChunked.r_matched r = JStr []
  ∧ GeocoderChunked.r_lat r = JNull ∧ GeocoderChunked.r_lon r = JNull.
Proof.
  unfold GeocoderChunked.get_coordinates.
  destruct (GeocoderChunked.address_is_empty address).
  { unfold ret. by intros [= <- <-]. }
  msimpl.
  destruct (GeocoderChunked.attempts service _ retry_count _ _ _)
    as [[[r0|]|e] w2] eqn:Hrun; simpl; try discriminate.
  - intros [= <- <-] Herr.
    apply attempts_result_shape in Hrun as [?|[err ->]]; done.
  - by intros [= <- <-].
Qed.

Lemma failed_lookup_has_no_coordinates_witness :
  let r := GeocoderChunked.failure GeocoderChunked.NOT_FOUND in
  GeocoderChunked.r_matched r = JStr []
  ∧ GeocoderChunked.r_lat r = JNull ∧ GeocoderChunked.r_lon r = JNull.
Proof.
  intros r.
  apply (failed_lookup_has_no_coordinates (F:=unit)
           (Demo.always (Demo.json_response (JArr []))) (Some (u "x")) 3
           (Demo.fresh tt)
           (logged (Demo.fresh tt) [EAcquire; ERequest (u "x"); ERelease]) r).
  - vm_compute. reflexivity.
  - vm_compute. discriminate.
Defined.

(** ** [process_chunk] *)

Section ChunkFacts.
Import GeocoderChunked.
Context {F : Type}.

(** Against a service that answers by the query alone, the result of a
    lookup does not depend on the world it runs in. *)
Lemma attempts_deterministic (respond : pystr → response) q rc remaining :
  ∀ k (w1 w2 : world F),
    (attempts (fun _ => respond) q rc remaining k w1).1
    = (attempts (fun _ => respond) q rc remaining k w2).1.
Proof.
  induction remaining as [|n IH]; intros k w1 w2; [done|].
  cbn [attempts]. unfold bind, request, sleep, emit. cbn [w_log w_fs].
  destruct (try_body (respond q)) as [r|e]; [done|].
  destruct e; try done; destruct (_ <? _)%Z; try done; apply IH.
Qed.

Lemma get_coordinates_deterministic (respond : pystr → response) address rc
    (w1 w2 : world F) :
  (get_coordinates (fun _ => respond) address rc w1).1
  = (get_coordinates (fun _ => respond) address rc w2).1.
Proof.
  unfold get_coordinates. destruct (address_is_empty address); [done|].
  unfold with_semaphore, bind, emit, attempt, of_pyres. simpl.
  set (q := strip (default [] address)).
  pose proof (attempts_deterministic respond q rc (Z.to_nat rc) 0
    {| w_fs := w_fs w1; w_log := w_log w1 ++ [EAcquire] |}
    {| w_fs := w_fs w2; w_log := w_log w2 ++ [EAcquire] |}) as Hdet.
  destruct (attempts _ q rc _ _ {| w_fs := w_fs w1 |}) as [res1 w1'].
  destruct (attempts _ q rc _ _ {| w_fs := w_fs w2 |}) as [res2 w2'].
  simpl in Hdet. subst res2. by destruct res1 as [[r|]|e].
Qed.

Lemma get_coordinates_returns_always (respond : pystr → response) address rc
    (w w' : world F) r :
  get_coordinates (fun _ => respond) address rc w = (Ok r, w') →
  returns_always (get_coordinates (F:=F) (fun _ => respond) address rc) r.
Proof.
  intros Hrun w2.
  destruct (GeocoderChunked_get_coordinates_log (fun _ => respond) address rc w2)
    as (l & Hl & _).
  exists l.
  pose proof (get_coordinates_deterministic respond address rc w2 w) as Hd.
  rewrite Hrun in Hd. simpl in Hd.
  destruct (get_coordinates _ address rc w2) as [res w2'].
  simpl in *. congruence.
Qed.

Lemma rows_set_column {C} (df : frame C) c (vs : list C) i row v :
  rows df !! i = Some row → vs !! i = Some v →
  rows (set_column df c vs) !! i = Some (set_cell (columns df) c row v).
Proof.
  intros Hr Hv. unfold set_column. simpl.
  rewrite lookup_zip_with, Hr. simpl. by rewrite Hv.
Qed.


Context (as_column : list json → json → json).

Lemma rows_assign_column (df : frame json) c (vs : list json) i row v :
  rows df !! i = Some row → vs !! i = Some v →
  rows (assign_column as_column df c vs) !! i
  = Some (set_cell (columns df) c row (as_column vs v)).
Proof.
  intros Hr Hv. apply rows_set_column; [done|].
  by rewrite list_lookup_fmap, Hv.
Qed.


Lemma augmented_row df results i row r :
  rows df !! i = Some row → results !! i = Some r →
  rows (augmented as_column df results) !! i
  = Some (augment_row as_column results (columns df) (cell_value <$> row) r).
Proof.
  intros Hrow Hr. unfold augmented, augment_row, put_result.
  assert (H0 : rows (map_cells cell_value df) !! i = Some (cell_value <$> row)).
  { unfold map_cells. simpl. by rewrite list_lookup_fmap, Hrow. }
  pose proof (rows_assign_column (map_cells cell_value df) (u "該当住所")
                (map r_matched results) i _ (r_matched r) H0
                ltac:(by rewrite list_lookup_fmap, Hr)) as H1.
  pose proof (rows_assign_column _ (u "緯度") (map r_lat results) i _ (r_lat r) H1
                ltac:(by rewrite list_lookup_fmap, Hr)) as H2.
  pose proof (rows_assign_column _ (u "経度") (map r_lon results) i _ (r_lon r) H2
                ltac:(by rewrite list_lookup_fmap, Hr)) as H3.
  pose proof (rows_assign_column _ (u "エラー") (map r_err_value results) i _
                (r_err_value r) H3 ltac:(by rewrite list_lookup_fmap, Hr)) as H4.
  exact H4.
Qed.


(** [process_chunk] in terms of [gather]. *)
Lemma process_chunk_unfold service sched df col (w : world F) :
  process_chunk service as_column sched df col w
  = match index_of col (columns df) with
    | Some i =>
        match gather sched
                (map (fun addr => get_coordinates service (mjoin addr) 3)
                     (map (fun row => row !! i) (rows df))) w with
        | (Ok results, w') => (Ok (augmented as_column df results), w')
        | (Err e, w') => (Err e, w')
        end
    | None => (Err (KeyError (KStr col)), w)
    end.
Proof.
  unfold process_chunk, column.
  destruct (index_of col (columns df)) as [i|]; [|done].
  unfold bind at 1, of_pyres. unfold bind.
  destruct (gather _ _ w) as [[results|e] w']; done.
Qed.

(** The frame a chunk gives is built from the results of its lookups, one
    per row and in the order of the rows. *)
Lemma process_chunk_rows service sched df col (w w' : world F) out :
  process_chunk service as_column sched df col w = (Ok out, w') →
  ∃ results,
    out = augmented as_column df results
    ∧ length results = length (rows df)
    ∧ ∀ i row, rows df !! i = Some row →
        ∃ r w1 w1',
          results !! i = Some r
          ∧ get_coordinates service (row_address (columns df) col row) 3 w1
            = (Ok r, w1').
Proof.
  rewrite process_chunk_unfold.
  destruct (index_of col (columns df)) as [i0|] eqn:Hcol; [|discriminate].
  destruct (gather _ _ w) as [[results|e] w1] eqn:Hg; [|discriminate].
  intros [= <- <-].
  apply gather_spec in Hg as [Hlen Htasks].
  rewrite !length_map in Hlen.
  exists results. split; [done|]. split; [done|].
  intros i row Hrow.
  destruct (Htasks i (get_coordinates service (mjoin (row !! i0)) 3))
    as (r & w2 & w2' & Hr & Hrun).
  { rewrite !list_lookup_fmap, Hrow. done. }
  exists r, w2, w2'. split; [done|].
  unfold row_address. by rewrite Hcol.
Qed.

End ChunkFacts.



(** X8. Against a service whose answer depends on the query alone, the
    frame [process_chunk] returns is the same for every order in which the
    lookups finish, and in every world. *)
Theorem chunk_output_ignores_completion_order {F : Type}
    (respond : pystr → response) (as_column : list json → json → json)
    (sched1 sched2 : list nat)
    (df_chunk : frame (option pystr)) (address_column : pystr)
    (w1 w1' w2 : world F) (out : frame json) :
  GeocoderChunked.process_chunk (fun _ => respond) as_column sched1 df_chunk
    address_column w1 = (Ok out, w1') →
  ∃ l, GeocoderChunked.process_chunk (fun _ => respond) as_column sched2 df_chunk
         address_column w2 = (Ok out, logged w2 l).
Proof.
  rewrite !process_chunk_unfold.
  destruct (index_of address_column (columns df_chunk)) as [i0|]; [|discriminate].
  set (tasks := map _ _).
  destruct (gather sched1 tasks w1) as [[results|e] w3] eqn:Hg; [|discriminate].
  intros [= <- <-].
  apply gather_spec in Hg as [Hlen Htasks].
  destruct (gather_pure sched2 tasks results w2) as [l Hl].
  { apply Forall2_same_length_lookup. split; [done|].
    intros i t r Ht Hr.
    destruct (Htasks i t Ht) as (r' & w4 & w4' & Hr' & Hrun).
    assert (r' = r) as -> by congruence.
    subst tasks. rewrite !list_lookup_fmap in Ht.
    destruct (rows df_chunk !! i) as [row|]; [|discriminate].
    simpl in Ht. injection Ht as <-.
    by eapply get_coordinates_returns_always. }
  exists l. by rewrite Hl.
Qed.

Lemma chunk_output_ignores_completion_order_witness :
  ∃ l, GeocoderChunked.process_chunk (F:=unit)
         (fun _ _ => Demo.json_response Demo.one_match) Demo.as_column [0; 1; 2]
         Demo.chunk
         (u "住所") (Demo.fresh tt)
       = (Ok (augmented Demo.as_column Demo.chunk
                [ {| GeocoderChunked.r_matched := JStr (u "東京都千代田区");
                     GeocoderChunked.r_lat := JFloat 35.0;
                     GeocoderChunked.r_lon := JFloat 139.0;
                     GeocoderChunked.r_err := [] |};
                  GeocoderChunked.failure GeocoderChunked.ADDRESS_EMPTY;
                  {| GeocoderChunked.r_matched := JStr (u "東京都千代田区");
                     GeocoderChunked.r_lat := JFloat 35.0;
                     GeocoderChunked.r_lon := JFloat 139.0;
                     GeocoderChunked.r_err := [] |} ]),
          logged (Demo.fresh tt) l).
Proof.
  eapply (chunk_output_ignores_completion_order
            (fun _ => Demo.json_response Demo.one_match) Demo.as_column
            [2; 1; 0] [0; 1; 2]
            Demo.chunk (u "住所") (Demo.fresh tt) _ (Demo.fresh tt)).
  vm_compute. reflexivity.
Defined.

Section ColumnFacts.

Lemma index_of_snoc_None (c c' : pystr) (cols : list pystr) :
  index_of c cols = None → c' ≠ c → index_of c (cols ++ [c']) = None.
Proof.
  intros Hn Hne. induction cols as [|a cols IH]; simpl in *.
  - unfold pystr_eqb. by rewrite bool_decide_eq_false_2.
  - destruct (pystr_eqb a c); [done|].
    destruct (index_of c cols); [done|]. by rewrite IH.
Qed.

Lemma has_column_false {C} (df : frame C) c :
  has_column df c = false → index_of c (columns df) = None.
Proof.
  unfold has_column. intros H%bool_decide_eq_false.
  destruct (index_of c (columns df)); [|done]. destruct H. by eexists.
Qed.

End ColumnFacts.

(** X9. When the input has none of the four result columns, the frame
    [process_chunk] returns keeps every input column, in order, and appends
    the four result columns after them; every row keeps its input cells and
    gets the label, the latitude, the longitude and the error of the lookup
    of its own address appended in that order, as the columns store them. *)
Theorem chunk_output_appends_result_columns {F : Type} (service : service_t F)
    (as_column : list json → json → json)
    (sched : list nat) (df_chunk : frame (option pystr)) (address_column : pystr)
    (w w' : world F) (out : frame json) :
  GeocoderChunked.process_chunk service as_column sched df_chunk
    address_column w = (Ok out, w') →
  Forall (fun c => has_column df_chunk c = false) RESULT_COLUMNS →
  columns out = columns df_chunk ++ RESULT_COLUMNS
  ∧ ∃ results,
      length results = length (rows df_chunk)
      ∧ ∀ i row, rows df_chunk !! i = Some row →
          ∃ r w1 w1',
            results !! i = Some r
            ∧ GeocoderChunked.get_coordinates service
                (row_address (columns df_chunk) address_column row) 3 w1
              = (Ok r, w1')
            ∧ rows out !! i
              = Some ((GeocoderChunked.cell_value <$> row)
                      ++ result_cells as_column results r).
Proof.
  intros Hrun Hcols.
  destruct (process_chunk_rows as_column service sched df_chunk address_column
              w w' out Hrun) as (results & -> & Hlen & Hrows).
  apply Forall_cons in Hcols as [H1%has_column_false Hcols].
  apply Forall_cons in Hcols as [H2%has_column_false Hcols].
  apply Forall_cons in Hcols as [H3%has_column_false Hcols].
  apply Forall_cons in Hcols as [H4%has_column_false _].
  set (cols := columns df_chunk) in *.
  assert (E1 : with_column cols (u "該当住所") = cols ++ [u "該当住所"]).
  { unfold with_column. by rewrite H1. }
  assert (H2' : index_of (u "緯度") (cols ++ [u "該当住所"]) = None).
  { apply index_of_snoc_None; [done|]. vm_compute. discriminate. }
  assert (E2 : with_column (cols ++ [u "該当住所"]) (u "緯度")
               = (cols ++ [u "該当住所"]) ++ [u "緯度"]).
  { unfold with_column. by rewrite H2'. }
  assert (H3' : index_of (u "経度") ((cols ++ [u "該当住所"]) ++ [u "緯度"]) = None).
  { apply index_of_snoc_None; [|vm_compute; discriminate].
    apply index_of_snoc_None; [done|]. vm_compute. discriminate. }
  assert (E3 : with_column ((cols ++ [u "該当住所"]) ++ [u "緯度"]) (u "経度")
               = ((cols ++ [u "該当住所"]) ++ [u "緯度"]) ++ [u "経度"]).
  { unfold with_column. by rewrite H3'. }
  assert (H4' : index_of (u "エラー")
                  (((cols ++ [u "該当住所"]) ++ [u "緯度"]) ++ [u "経度"]) = None).
  { apply index_of_snoc_None; [|vm_compute; discriminate].
    apply index_of_snoc_None; [|vm_compute; discriminate].
    apply index_of_snoc_None; [done|]. vm_compute. discriminate. }
  split.
  - unfold augmented, GeocoderChunked.assign_column, set_column, map_cells.
    cbn [columns].
    fold cols. rewrite E1, E2, E3. unfold with_column at 1. rewrite H4'.
    unfold RESULT_COLUMNS. by rewrite <- !app_assoc.
  - exists results. split; [done|].
    intros i row Hrow. destruct (Hrows i row Hrow) as (r & w1 & w1' & Hr & Hl).
    exists r, w1, w1'. split; [done|]. split; [done|].
    rewrite (augmented_row as_column df_chunk results i row r Hrow Hr).
    f_equal. unfold augment_row, put_result, result_cells.
    fold cols. rewrite E1, E2, E3.
    unfold set_cell. rewrite H1, H2', H3', H4'.
    by rewrite <- !app_assoc.
Qed.

Lemma chunk_output_appends_result_columns_witness :
  let service : service_t unit := Demo.knows (u "東京都千代田区") in
  let out := augmented Demo.as_column Demo.chunk
               [ {| GeocoderChunked.r_matched := JStr (u "東京都千代田区");
                    GeocoderChunked.r_lat := JFloat 35.0;
                    GeocoderChunked.r_lon := JFloat 139.0;
                    GeocoderChunked.r_err := [] |};
                 GeocoderChunked.failure GeocoderChunked.ADDRESS_EMPTY;
                 GeocoderChunked.failure GeocoderChunked.NOT_FOUND ] in
  columns out = columns Demo.chunk ++ RESULT_COLUMNS
  ∧ ∃ results,
      length results = length (rows Demo.chunk)
      ∧ ∀ i row, rows Demo.chunk !! i = Some row →
          ∃ r w1 w1',
            results !! i = Some r
            ∧ GeocoderChunked.get_coordinates service
                (row_address (columns Demo.chunk) (u "住所") row) 3 w1
              = (Ok r, w1')
            ∧ rows out !! i
              = Some ((GeocoderChunked.cell_value <$> row)
                      ++ result_cells Demo.as_column results r).
Proof.
  intros service out.
  apply (chunk_output_appends_result_columns service Demo.as_column [2; 0; 1]
           Demo.chunk (u "住所") (Demo.fresh tt)
           (logged (Demo.fresh tt)
              [EAcquire; ERequest (u "どこか"); ERelease;
               EAcquire; ERequest (u "東京都千代田区"); ERelease]) out).
  - vm_compute. reflexivity.
  - repeat constructor.
Defined.

(** ** Chunks and the checkpoint *)

Section QuietFacts.
Context {F : Type}.

Lemma snapshots_app (l1 l2 : list (event F)) :
  snapshots (l1 ++ l2) = snapshots l1 ++ snapshots l2.
Proof. unfold snapshots. apply omap_app. Qed.

Lemma snapshots_io q (l : list (event F)) :
  Forall (io_event q) l → snapshots l = [].
Proof.
  induction 1 as [|e l [->|[ms ->]] _ IH]; simpl; auto.
Qed.

Lemma logged_nil (w : world F) : logged w [] = w.
Proof. destruct w. unfold logged, after. simpl. by rewrite app_nil_r. Qed.

Lemma logged_logged (w : world F) l1 l2 :
  logged (logged w l1) l2 = logged w (l1 ++ l2).
Proof. unfold logged, after. simpl. by rewrite app_assoc. Qed.

Lemma quiet_ret {A} (a : A) : quiet (ret (F:=F) a).
Proof. intros w. exists []. by rewrite logged_nil. Qed.

Lemma quiet_of_pyres {A} (r : pyres A) : quiet (of_pyres (F:=F) r).
Proof. intros w. exists []. by rewrite logged_nil. Qed.

Lemma quiet_bind {A B} (m : M F A) (k : A → M F B) :
  quiet m → (∀ a, quiet (k a)) → quiet (bind m k).
Proof.
  intros Hm Hk w. destruct (Hm w) as (l1 & Hl1 & Hs1). unfold bind.
  destruct (m w) as [[a|e] w1]; simpl in *; subst w1.
  - destruct (Hk a (logged w l1)) as (l2 & Hl2 & Hs2).
    exists (l1 ++ l2). rewrite Hl2, logged_logged, snapshots_app, Hs1, Hs2. done.
  - by exists l1.
Qed.

Lemma quiet_get_coordinates (service : service_t F) address rc :
  quiet (GeocoderChunked.get_coordinates service address rc).
Proof.
  intros w.
  destruct (GeocoderChunked_get_coordinates_log service address rc w)
    as (l & Hl & [->|(body & -> & Hio)]); eexists; (split; [exact Hl|]); [done|].
  change (EAcquire :: body ++ [ERelease]) with ([EAcquire] ++ body ++ [ERelease]).
  rewrite !snapshots_app. by rewrite (snapshots_io _ _ Hio).
Qed.

Lemma quiet_run_tasks {A} (tasks : list (M F A)) order :
  Forall quiet tasks → ∀ slots, quiet (run_tasks order tasks slots).
Proof.
  intros Hall. induction order as [|j order IH]; intros slots; simpl.
  - apply quiet_ret.
  - destruct (tasks !! j) as [t|] eqn:Hj; [|apply IH].
    apply quiet_bind; [|intros r; apply IH].
    eapply Forall_lookup_1; eauto.
Qed.

Lemma quiet_gather {A} sched (tasks : list (M F A)) :
  Forall quiet tasks → quiet (gather sched tasks).
Proof.
  intros Hall. unfold gather. apply quiet_bind.
  - by apply quiet_run_tasks.
  - intros slots. apply quiet_ret.
Qed.

Lemma quiet_process_chunk (service : service_t F) as_column sched df col :
  quiet (GeocoderChunked.process_chunk service as_column sched df col).
Proof.
  unfold GeocoderChunked.process_chunk.
  apply quiet_bind; [apply quiet_of_pyres|]. intros addresses.
  apply quiet_bind; [|intros results; apply quiet_ret].
  apply quiet_gather. apply Forall_fmap, Forall_forall. intros addr _.
  apply quiet_get_coordinates.
Qed.

End QuietFacts.

Section OrchestratorFacts.
Import GeocoderChunked.
Context (service : service_t fs) (as_column : list json → json → json).
Context (scheds : Z → list nat) (col : pystr).

(** Chunks numbered below the start are passed over unread. *)
Lemma chunk_loop_skip sp chunks : ∀ pn w,
  (pn ≤ sp)%Z →
  chunk_loop service as_column scheds col sp pn chunks w = chunk_loop service as_column scheds col sp sp (drop (Z.to_nat (sp - pn)) chunks) w.
Proof.
  induction chunks as [|df rest IH]; intros pn w Hle.
  - by rewrite drop_nil.
  - destruct (decide (pn = sp)) as [->|Hne].
    + by rewrite Z.sub_diag.
    + cbn [chunk_loop]. assert ((pn <? sp)%Z = true) as -> by lia.
      rewrite IH by lia.
      replace (Z.to_nat (sp - pn)) with (S (Z.to_nat (sp - (pn + 1)))) by lia.
      done.
Qed.

(** One turn of the loop on a chunk that is not skipped. *)
Lemma chunk_loop_cons sp pn df rest w :
  (sp ≤ pn)%Z →
  chunk_loop service as_column scheds col sp pn (df :: rest) w
  = if negb (has_column df col) then (Err (SystemExit 1), w)
    else match process_chunk service as_column (scheds pn) df col w with
         | (Ok out, w1) =>
             chunk_loop service as_column scheds col sp (pn + 1) rest
               (after w1 (after_chunk pn out (w_fs w1))
                  (EFs <$> chunk_states pn out (w_fs w1)))
         | (Err e, w1) => (Err e, w1)
         end.
Proof.
  intros Hle. cbn [chunk_loop]. assert ((pn <? sp)%Z = false) as -> by lia.
  destruct (negb (has_column df col)); [done|].
  unfold bind at 1.
  destruct (process_chunk service as_column (scheds pn) df col w) as [[out|e] w1]; [|done].
  unfold bind, to_csv, write_progress, get_fs, put_fs, bind, after, after_chunk,
    chunk_states.
  cbn [w_fs w_log fmap list_fmap]. by rewrite <- !app_assoc.
Qed.

Lemma ready_checkpoint_ok n s : ready_for n s → checkpoint_ok s.
Proof.
  intros [Hout Hk] k Hp j Hj. apply Hout. specialize (Hk k Hp). lia.
Qed.

Lemma outputs_chunk_states pn out s s' n :
  s' ∈ chunk_states pn out s → n ≠ pn → outputs s' !! n = outputs s !! n.
Proof.
  unfold chunk_states. intros Hin Hne.
  repeat (apply elem_of_cons in Hin as [->|Hin]); try (by apply elem_of_nil in Hin);
    simpl; by rewrite ?lookup_insert_ne.
Qed.

Lemma outputs_after_chunk pn out s n :
  outputs (after_chunk pn out s) !! n
  = if decide (n = pn) then Some (Written out) else outputs s !! n.
Proof.
  unfold after_chunk. simpl. destruct (decide (n = pn)) as [->|Hne].
  - by rewrite lookup_insert_eq.
  - by rewrite !lookup_insert_ne.
Qed.

Lemma ready_after_chunk pn out s :
  ready_for pn s → ready_for (pn + 1) (after_chunk pn out s).
Proof.
  intros [Hout Hk]. split.
  - intros j Hj. rewrite outputs_after_chunk.
    destruct (decide (j = pn)); [by eexists|]. apply Hout. lia.
  - simpl. intros k [= <-]. lia.
Qed.

Lemma checkpoint_ok_chunk_states pn out s :
  ready_for pn s → Forall checkpoint_ok (chunk_states pn out s).
Proof.
  intros [Hout Hk]. unfold chunk_states.
  repeat apply Forall_cons_2; [| | | |constructor].
  - intros k Hp j Hj. simpl in *. specialize (Hk k Hp).
    rewrite lookup_insert_ne by lia. apply Hout. lia.
  - intros k Hp j Hj. simpl in *. specialize (Hk k Hp).
    rewrite !lookup_insert_ne by lia. apply Hout. lia.
  - intros k Hp. simpl in Hp. discriminate.
  - intros k Hp j Hj. simpl in *. injection Hp as <-.
    destruct (decide (j = pn)) as [->|Hne].
    + rewrite lookup_insert_eq. by eexists.
    + rewrite !lookup_insert_ne by done. apply Hout. lia.
Qed.

(** What a run of the loop does to the file system, from a chunk that is
    not skipped on. *)
Lemma chunk_loop_spec sp chunks : ∀ pn w,
  (sp ≤ pn)%Z →
  ∃ l,
    let r := (chunk_loop service as_column scheds col sp pn chunks w).1 in
    let w' := (chunk_loop service as_column scheds col sp pn chunks w).2 in
    w_log w' = w_log w ++ l
    ∧ (∀ s, s ∈ snapshots l ∨ s = w_fs w' →
       ∀ n, (n < pn)%Z → outputs s !! n = outputs (w_fs w) !! n)
    ∧ (ready_for pn (w_fs w) →
       Forall checkpoint_ok (snapshots l) ∧ checkpoint_ok (w_fs w')
       ∧ (r = Ok tt → ready_for (pn + Z.of_nat (length chunks)) (w_fs w')))
    ∧ (r = Ok tt → ∀ i df, chunks !! i = Some df →
       ∃ out w1 w1',
         process_chunk service as_column (scheds (pn + Z.of_nat i)%Z) df col w1 = (Ok out, w1')
         ∧ outputs (w_fs w') !! (pn + Z.of_nat i)%Z = Some (Written out)).
Proof.
  induction chunks as [|df rest IH]; intros pn w Hle.
  - exists []. cbn [chunk_loop]. unfold ret. cbn [fst snd].
    rewrite app_nil_r. split; [done|]. split.
    { intros s [Hs| ->] n _; [by apply elem_of_nil in Hs|done]. }
    split.
    { intros Hr. split; [constructor|]. split; [by eapply ready_checkpoint_ok|].
      intros _. simpl. by rewrite Z.add_0_r. }
    intros _ i df Hi. by rewrite lookup_nil in Hi.
  - rewrite chunk_loop_cons by done.
    destruct (negb (has_column df col)).
    { exists []. cbn [fst snd]. rewrite app_nil_r. split; [done|]. split.
      { intros s [Hs| ->] n _; [by apply elem_of_nil in Hs|done]. }
      split; [|done].
      intros Hr. split; [constructor|]. split; [by eapply ready_checkpoint_ok|done]. }
    destruct (quiet_process_chunk service as_column (scheds pn) df col w) as (l1 & Hl1 & Hs1).
    destruct (process_chunk service as_column (scheds pn) df col w) as [[out|e] w1] eqn:Hrun;
      simpl in Hl1; subst w1.
    2:{ exists l1. cbn [fst snd]. split; [done|]. split.
        { intros s [Hs| ->] n _; [rewrite Hs1 in Hs; by apply elem_of_nil in Hs|done]. }
        split; [|done].
        intros Hr. rewrite Hs1.
        split; [constructor|]. split; [by eapply ready_checkpoint_ok|done]. }
    change (w_fs (logged w l1)) with (w_fs w).
    set (w2 := after (logged w l1) (after_chunk pn out (w_fs w))
                 (EFs <$> chunk_states pn out (w_fs w))).
    destruct (IH (pn + 1)%Z w2 ltac:(lia)) as (l2 & Hlog & Hframe & Hinv & Hdone).
    cbn zeta in *.
    set (res := chunk_loop service as_column scheds col sp (pn + 1) rest w2) in *.
    exists (l1 ++ (EFs <$> chunk_states pn out (w_fs w)) ++ l2).
    assert (Hsnap : snapshots (l1 ++ (EFs <$> chunk_states pn out (w_fs w)) ++ l2)
                    = chunk_states pn out (w_fs w) ++ snapshots l2).
    { rewrite !snapshots_app, Hs1. done. }
    rewrite Hsnap.
    split.
    { rewrite Hlog. unfold w2, logged, after. cbn [w_log]. by rewrite <- !app_assoc. }
    split.
    { intros s Hs n Hn.
      assert (Hmid : outputs (w_fs w2) !! n = outputs (w_fs w) !! n).
      { unfold w2, after. cbn [w_fs]. rewrite outputs_after_chunk.
        destruct (decide (n = pn)); [lia|done]. }
      destruct Hs as [Hs|Hs]; [apply elem_of_app in Hs as [Hs|Hs]|].
      - eapply outputs_chunk_states; [done|lia].
      - rewrite <- Hmid. apply Hframe; [by left|lia].
      - rewrite <- Hmid. apply Hframe; [by right|lia]. }
    split.
    { intros Hr.
      destruct Hinv as (Hall & Hfin & Hnext).
      { unfold w2, after. cbn [w_fs]. by apply ready_after_chunk. }
      split; [|split; [done|]].
      - apply Forall_app. split; [by apply checkpoint_ok_chunk_states|done].
      - intros Hok. specialize (Hnext Hok).
        replace (pn + Z.of_nat (length (df :: rest)))%Z
          with (pn + 1 + Z.of_nat (length rest))%Z by (simpl; lia).
        done. }
    intros Hok [|i] df' Hi.
    + simpl in Hi. injection Hi as <-.
      exists out, w, (logged w l1). split; [by rewrite Z.add_0_r|].
      rewrite Z.add_0_r.
      rewrite (Hframe (w_fs res.2) (or_intror eq_refl) pn ltac:(lia)).
      unfold w2, after. cbn [w_fs]. rewrite outputs_after_chunk.
      by rewrite decide_True.
    + simpl in Hi. destruct (Hdone Hok i df' Hi) as (out' & w3 & w3' & Hp & Ho).
      exists out', w3, w3'.
      replace (pn + Z.of_nat (S i))%Z with (pn + 1 + Z.of_nat i)%Z by lia.
      done.
Qed.

End OrchestratorFacts.

Section RunFacts.
Import GeocoderChunked.
Context (service : service_t fs) (as_column : list json → json → json).
Context (scheds : Z → list nat) (col : pystr).

Lemma emitted_app {A} (m : M fs A) (w : world fs) l :
  w_log (m w).2 = w_log w ++ l → emitted m w = l.
Proof. unfold emitted. intros ->. by rewrite drop_app_length. Qed.

(** A run is the loop over the chunks that are not skipped, then the
    removal of the progress file. *)
Lemma process_file_chunked_unfold chunks w :
  progress (w_fs w) ≠ Some Truncated →
  let sp := start_part_of (w_fs w) in
  let pn := Z.max 1 sp in
  process_file_chunked service as_column scheds col chunks w
  = (chunk_loop service as_column scheds col sp pn (drop (Z.to_nat (pn - 1)) chunks) ;;;
     clear_progress) w.
Proof.
  intros Hp sp pn. unfold process_file_chunked, read_start_part.
  unfold bind at 1 2, get_fs. cbn [fst snd].
  assert (Hsp : (match progress (w_fs w) with
                 | Some (Written k) => ret (k + 1)%Z
                 | Some Truncated =>
                     raise (ValueError (u "invalid literal for int() with base 10: ''"))
                 | None => ret 1%Z
                 end) w = (Ok sp, w)).
  { unfold sp, start_part_of. by destruct (progress (w_fs w)) as [[|k]|]. }
  rewrite Hsp. unfold bind.
  destruct (Z.le_gt_cases 1 sp) as [Hle|Hgt].
  - rewrite (chunk_loop_skip service as_column scheds col sp chunks 1 w Hle).
    by replace pn with sp by lia.
  - replace pn with 1%Z by lia. by rewrite Z.sub_diag.
Qed.

Lemma clear_progress_run w :
  ∃ l, (clear_progress w).1 = Ok tt
       ∧ w_log (clear_progress w).2 = w_log w ++ l
       ∧ progress (w_fs (clear_progress w).2) = None
       ∧ outputs (w_fs (clear_progress w).2) = outputs (w_fs w)
       ∧ Forall (fun s => progress s = None ∧ outputs s = outputs (w_fs w))
           (snapshots l).
Proof.
  unfold clear_progress, bind, get_fs. cbn [fst snd].
  destruct (progress (w_fs w)) as [p|] eqn:Hp.
  - exists [EFs (set_progress None (w_fs w))]. simpl. repeat split; auto.
  - exists []. simpl. rewrite app_nil_r. repeat split; auto.
Qed.

Lemma checkpoint_ok_ready s :
  checkpoint_ok s → ready_for (Z.max 1 (start_part_of s)) s.
Proof.
  intros Hok. unfold start_part_of. split.
  - intros j Hj. destruct (progress s) as [[|k]|] eqn:Hp; try lia.
    apply (Hok k Hp). lia.
  - intros k Hp. rewrite Hp. lia.
Qed.

(** What a whole run does to the file system. *)
Lemma process_file_chunked_spec chunks w :
  let sp := start_part_of (w_fs w) in
  let pn := Z.max 1 sp in
  let r := (process_file_chunked service as_column scheds col chunks w).1 in
  let w' := (process_file_chunked service as_column scheds col chunks w).2 in
  ∃ l,
    w_log w' = w_log w ++ l
    ∧ (∀ s, s ∈ snapshots l ∨ s = w_fs w' →
       ∀ n, (n < pn)%Z → outputs s !! n = outputs (w_fs w) !! n)
    ∧ (checkpoint_ok (w_fs w) →
       Forall checkpoint_ok (snapshots l) ∧ checkpoint_ok (w_fs w'))
    ∧ (r = Ok tt →
       progress (w_fs w') = None
       ∧ ∀ i df, chunks !! i = Some df → (sp ≤ Z.of_nat i + 1)%Z →
           ∃ out w1 w1',
             process_chunk service as_column (scheds (Z.of_nat i + 1)%Z) df col w1
               = (Ok out, w1')
             ∧ outputs (w_fs w') !! (Z.of_nat i + 1)%Z = Some (Written out)).
Proof.
  intros sp pn.
  assert (progress (w_fs w) = Some Truncated
          ∨ progress (w_fs w) ≠ Some Truncated) as [Ht|Ht]
    by (destruct (progress (w_fs w)) as [[|k]|]; [by left|by right|by right]).
  { exists []. unfold process_file_chunked, read_start_part, bind, get_fs.
    cbn [fst snd]. rewrite Ht. unfold raise. cbn [fst snd]. rewrite app_nil_r.
    split; [done|]. split.
    { intros s [Hs| ->] n _; [by apply elem_of_nil in Hs|done]. }
    split; [|done]. intros Hok. split; [constructor|done]. }
  rewrite (process_file_chunked_unfold chunks w Ht). fold sp pn.
  set (rest := drop (Z.to_nat (pn - 1)) chunks).
  destruct (chunk_loop_spec service as_column scheds col sp rest pn w ltac:(lia))
    as (l1 & Hlog & Hframe & Hinv & Hdone).
  cbn zeta in *. unfold bind.
  destruct (chunk_loop service as_column scheds col sp pn rest w) as [[[]|e] w1] eqn:Hloop;
    cbn [fst snd] in *.
  2:{ exists l1. split; [done|]. split; [done|]. split; [|done].
      intros Hok. destruct Hinv as (Hall & Hfin & _); [|done].
      by apply checkpoint_ok_ready. }
  destruct (clear_progress_run w1) as (l2 & Hr2 & Hlog2 & Hp2 & Ho2 & Hs2).
  destruct (clear_progress w1) as [r2 w2]. cbn [fst snd] in *. subst r2.
  exists (l1 ++ l2). split; [by rewrite Hlog2, Hlog, app_assoc|].
  split.
  { intros s Hs n Hn. rewrite snapshots_app in Hs.
    destruct Hs as [Hs| ->]; [apply elem_of_app in Hs as [Hs|Hs]|].
    - apply Hframe; [by left|done].
    - rewrite Forall_forall in Hs2. destruct (Hs2 s Hs) as [_ ->].
      apply Hframe; [by right|done].
    - rewrite Ho2. apply Hframe; [by right|done]. }
  split.
  { intros Hok. destruct Hinv as (Hall & Hfin & _).
    { by apply checkpoint_ok_ready. }
    split.
    - rewrite snapshots_app. apply Forall_app. split; [done|].
      eapply Forall_impl; [exact Hs2|]. intros s [Hp _] k Hk. congruence.
    - intros k Hk. congruence. }
  intros _. split; [done|]. intros i df Hi Hsp.
  assert (Hi' : rest !! (i - Z.to_nat (pn - 1)) = Some df).
  { unfold rest. rewrite lookup_drop. rewrite <- Hi. f_equal. lia. }
  destruct (Hdone eq_refl _ df Hi') as (out & w3 & w3' & Hrun & Hout).
  replace (pn + Z.of_nat (i - Z.to_nat (pn - 1)))%Z with (Z.of_nat i + 1)%Z
    in * by lia.
  exists out, w3, w3'. split; [done|]. by rewrite Ho2.
Qed.

End RunFacts.

(** X10. A run that finds the checkpoint [K] in the progress file passes
    over the first [K] chunks without looking at them: it is the run of the
    loop over the remaining chunks, numbered from [K + 1], followed by the
    removal of the progress file; two inputs that agree after their first
    [K] chunks give the same run (same result, same requests, same
    files). *)
Theorem resumed_run_skips_checkpointed_chunks
    (service : service_t GeocoderChunked.fs)
    (as_column : list json → json → json) (scheds : Z → list nat)
    (address_column : pystr) (chunks : list (frame (option pystr)))
    (w : world GeocoderChunked.fs) (K : Z) :
  GeocoderChunked.progress (w_fs w) = Some (GeocoderChunked.Written K) →
  (0 ≤ K)%Z →
  GeocoderChunked.process_file_chunked service as_column scheds address_column chunks w
  = (GeocoderChunked.chunk_loop service as_column scheds address_column (K + 1) (K + 1)
       (drop (Z.to_nat K) chunks) ;;;
     GeocoderChunked.clear_progress) w
  ∧ ∀ chunks', drop (Z.to_nat K) chunks' = drop (Z.to_nat K) chunks →
      GeocoderChunked.process_file_chunked service as_column scheds address_column chunks' w
      = GeocoderChunked.process_file_chunked service as_column scheds address_column chunks w.
Proof.
  intros Hp HK.
  assert (Hun : ∀ cs,
    GeocoderChunked.process_file_chunked service as_column scheds address_column cs w
    = (GeocoderChunked.chunk_loop service as_column scheds address_column (K + 1) (K + 1)
         (drop (Z.to_nat K) cs) ;;;
       GeocoderChunked.clear_progress) w).
  { intros cs. rewrite process_file_chunked_unfold by (rewrite Hp; discriminate).
    unfold start_part_of. rewrite Hp.
    replace (Z.max 1 (K + 1)) with (K + 1)%Z by lia.
    by replace (K + 1 - 1)%Z with K by lia. }
  split; [apply Hun|].
  intros chunks' Heq. rewrite !Hun. unfold bind. by rewrite Heq.
Qed.

Lemma resumed_run_skips_checkpointed_chunks_witness :
  let service : service_t GeocoderChunked.fs := Demo.knows (u "東京都千代田区") in
  let w := Demo.fresh Demo.resumable in
  GeocoderChunked.process_file_chunked service Demo.as_column (fun _ => []) (u "住所")
    [Demo.chunk; Demo.chunk] w
  = (GeocoderChunked.chunk_loop service Demo.as_column (fun _ => []) (u "住所") (1 + 1) (1 + 1)
       (drop (Z.to_nat 1) [Demo.chunk; Demo.chunk]) ;;;
     GeocoderChunked.clear_progress) w.
Proof.
  intros service w.
  apply (proj1 (resumed_run_skips_checkpointed_chunks service Demo.as_column (fun _ => [])
                  (u "住所") [Demo.chunk; Demo.chunk] w 1 eq_refl ltac:(lia))).
Defined.

(** X11. A run that finds the checkpoint [K] never writes the output file
    of a chunk numbered [K] or less: at every moment of the run and at its
    end, each of these files is what it was when the run began. *)
Theorem checkpointed_outputs_are_left_alone
    (service : service_t GeocoderChunked.fs)
    (as_column : list json → json → json) (scheds : Z → list nat)
    (address_column : pystr) (chunks : list (frame (option pystr)))
    (w : world GeocoderChunked.fs) (K : Z) :
  GeocoderChunked.progress (w_fs w) = Some (GeocoderChunked.Written K) →
  let run := GeocoderChunked.process_file_chunked service as_column scheds address_column
               chunks in
  ∀ n, (n ≤ K)%Z →
  ∀ s, s ∈ snapshots (emitted run w) ∨ s = w_fs (run w).2 →
    GeocoderChunked.outputs s !! n = GeocoderChunked.outputs (w_fs w) !! n.
Proof.
  intros Hp run n Hn s Hs.
  destruct (process_file_chunked_spec service as_column scheds address_column chunks w)
    as (l & Hlog & Hframe & _).
  cbn zeta in *. fold run in Hlog, Hframe.
  rewrite (emitted_app run w l Hlog) in Hs.
  apply Hframe; [done|]. unfold start_part_of. rewrite Hp. lia.
Qed.

Lemma checkpointed_outputs_are_left_alone_witness :
  let service : service_t GeocoderChunked.fs := Demo.knows (u "東京都千代田区") in
  let w := Demo.fresh Demo.resumable in
  let run := GeocoderChunked.process_file_chunked service Demo.as_column (fun _ => []) (u "住所")
               [Demo.chunk; Demo.chunk] in
  GeocoderChunked.outputs (w_fs (run w).2) !! 1%Z
  = GeocoderChunked.outputs (w_fs w) !! 1%Z.
Proof.
  intros service w run.
  apply (checkpointed_outputs_are_left_alone service Demo.as_column (fun _ => []) (u "住所")
           [Demo.chunk; Demo.chunk] w 1 eq_refl 1%Z ltac:(lia)).
  by right.
Defined.

(** X12. If the checkpoint found at the start names only chunks whose
    outputs are complete, it does so at every moment of the run and at its
    end: the progress file is set to [N] only once the output of the chunk
    [N] has been written completely, and while an output file is truncated
    and rewritten the checkpoint is still below its number. *)
Theorem checkpoint_names_only_complete_outputs
    (service : service_t GeocoderChunked.fs)
    (as_column : list json → json → json) (scheds : Z → list nat)
    (address_column : pystr) (chunks : list (frame (option pystr)))
    (w : world GeocoderChunked.fs) :
  checkpoint_ok (w_fs w) →
  let run := GeocoderChunked.process_file_chunked service as_column scheds address_column
               chunks in
  Forall checkpoint_ok (snapshots (emitted run w))
  ∧ checkpoint_ok (w_fs (run w).2).
Proof.
  intros Hok run.
  destruct (process_file_chunked_spec service as_column scheds address_column chunks w)
    as (l & Hlog & _ & Hinv & _).
  cbn zeta in *. fold run in Hlog, Hinv.
  rewrite (emitted_app run w l Hlog). by apply Hinv.
Qed.

Lemma checkpoint_names_only_complete_outputs_witness :
  let service : service_t GeocoderChunked.fs := Demo.knows (u "東京都千代田区") in
  let w := Demo.fresh Demo.resumable in
  let run := GeocoderChunked.process_file_chunked service Demo.as_column (fun _ => []) (u "住所")
               [Demo.chunk; Demo.chunk] in
  Forall checkpoint_ok (snapshots (emitted run w))
  ∧ checkpoint_ok (w_fs (run w).2).
Proof.
  intros service w run.
  apply (checkpoint_names_only_complete_outputs service Demo.as_column (fun _ => []) (u "住所")
           [Demo.chunk; Demo.chunk] w).
  intros k [= <-] j Hj. assert (j = 1%Z) as -> by lia. by eexists.
Defined.

(** X13. When a run returns normally, the progress file is gone and the
    output file of every chunk from the starting part on holds, completely
    written, the frame [process_chunk] returned for that chunk. *)
Theorem finished_run_has_every_output_and_no_checkpoint
    (service : service_t GeocoderChunked.fs)
    (as_column : list json → json → json) (scheds : Z → list nat)
    (address_column : pystr) (chunks : list (frame (option pystr)))
    (w w' : world GeocoderChunked.fs) :
  GeocoderChunked.process_file_chunked service as_column scheds address_column chunks w
    = (Ok tt, w') →
  GeocoderChunked.progress (w_fs w') = None
  ∧ ∀ i df, chunks !! i = Some df →
      (start_part_of (w_fs w) ≤ Z.of_nat i + 1)%Z →
      ∃ out w1 w1',
        GeocoderChunked.process_chunk service as_column (scheds (Z.of_nat i + 1)%Z) df
          address_column w1 = (Ok out, w1')
        ∧ GeocoderChunked.outputs (w_fs w') !! (Z.of_nat i + 1)%Z
          = Some (GeocoderChunked.Written out).
Proof.
  intros Hrun.
  destruct (process_file_chunked_spec service as_column scheds address_column chunks w)
    as (l & _ & _ & _ & Hdone).
  cbn zeta in *. rewrite Hrun in Hdone. by apply Hdone.
Qed.

Lemma finished_run_has_every_output_and_no_checkpoint_witness :
  let service : service_t GeocoderChunked.fs := Demo.knows (u "東京都千代田区") in
  let run := GeocoderChunked.process_file_chunked service Demo.as_column (fun _ => []) (u "住所")
               [Demo.chunk; Demo.chunk] in
  let w' := (run (Demo.fresh Demo.resumable)).2 in
  GeocoderChunked.progress (w_fs w') = None
  ∧ ∀ i df, [Demo.chunk; Demo.chunk] !! i = Some df →
      (start_part_of Demo.resumable ≤ Z.of_nat i + 1)%Z →
      ∃ out w1 w1',
        GeocoderChunked.process_chunk service Demo.as_column [] df (u "住所") w1 = (Ok out, w1')
        ∧ GeocoderChunked.outputs (w_fs w') !! (Z.of_nat i + 1)%Z
          = Some (GeocoderChunked.Written out).
Proof.
  intros service run w'.
  apply (finished_run_has_every_output_and_no_checkpoint service Demo.as_column (fun _ => [])
           (u "住所") [Demo.chunk; Demo.chunk] (Demo.fresh Demo.resumable) w').
  vm_compute. reflexivity.
Defined.

(** ** The fallback passes *)

Section CandidateFacts.
Context {F : Type} (service : service_t F).
Context (lk : pystr → response → found_result).
Context (gc : pystr → M F found_result).
Hypothesis gc_run : ∀ a w,
  gc a w = (Ok (lk a (service (w_log w ++ [EAcquire]) a)),
            logged w [EAcquire; ERequest a; ERelease]).

Lemma try_candidates_app (l1 l2 : list pystr) (k : M F found_result) :
  try_candidates gc (l1 ++ l2) k = try_candidates gc l1 (try_candidates gc l2 k).
Proof. induction l1 as [|a l1 IH]; simpl; [done|]. by rewrite IH. Qed.

Lemma lookup_calls_cons (a : pystr) (l : list pystr) :
  lookup_calls (F:=F) (a :: l)
  = [EAcquire; ERequest a; ERelease] ++ lookup_calls l.
Proof. reflexivity. Qed.

Lemma lookup_calls_app (l1 l2 : list pystr) :
  lookup_calls (F:=F) (l1 ++ l2) = lookup_calls l1 ++ lookup_calls l2.
Proof. unfold lookup_calls. by rewrite map_app, concat_app. Qed.

(** In every search one candidate is the first that resolves, or none
    does. *)
Lemma first_that_resolves (l : list pystr) : ∀ p : nat → pystr → bool,
  (∃ j c, l !! j = Some c
          ∧ (∀ i a, i < j → l !! i = Some a → p i a = false)
          ∧ p j c = true)
  ∨ (∀ i a, l !! i = Some a → p i a = false).
Proof.
  induction l as [|a l IH]; intros p; [by right|].
  destruct (p 0 a) eqn:H0.
  { left. exists 0, a. split; [done|]. split; [lia|done]. }
  destruct (IH (fun i => p (S i))) as [(j & c & Hj & Hlt & Hc)|Hnone].
  - left. exists (S j), c. split; [done|]. split; [|done].
    intros [|i] b Hi Hb; [by injection Hb as <-|]. apply Hlt; [lia|done].
  - right. intros [|i] b Hb; [by injection Hb as <-|]. by apply Hnone.
Qed.

(** Candidates that do not resolve are tried one after the other. *)
Lemma try_candidates_none (l : list pystr) (k : M F found_result) : ∀ w,
  (∀ i a, l !! i = Some a →
     found (lk a (answer_at service (w_log w) l i a)) = false) →
  try_candidates gc l k w = k (logged w (lookup_calls l)).
Proof using gc_run.
  induction l as [|a l IH]; intros w Hfail.
  - cbn [try_candidates]. unfold lookup_calls. cbn [map concat].
    by rewrite logged_nil.
  - cbn [try_candidates]. unfold bind. rewrite gc_run.
    pose proof (Hfail 0 a eq_refl) as H0. unfold answer_at in H0.
    cbn [take lookup_calls map concat app] in H0. rewrite H0.
    rewrite IH.
    + by rewrite logged_logged, lookup_calls_cons.
    + intros i b Hb. pose proof (Hfail (S i) b Hb) as Hi.
      unfold answer_at in *. cbn [take] in Hi. rewrite lookup_calls_cons in Hi.
      unfold logged, after. cbn [w_log].
      by rewrite <- !app_assoc in *.
Qed.

(** The first candidate that resolves ends the search. *)
Lemma try_candidates_first (l : list pystr) (k : M F found_result) :
  ∀ (j : nat) (c : pystr) w,
  l !! j = Some c →
  (∀ i a, i < j → l !! i = Some a →
     found (lk a (answer_at service (w_log w) l i a)) = false) →
  found (lk c (answer_at service (w_log w) l j c)) = true →
  try_candidates gc l k w
  = (Ok (lk c (answer_at service (w_log w) l j c)),
     logged w (lookup_calls (take (S j) l))).
Proof using gc_run.
  induction l as [|a l IH]; intros j c w Hj Hfail Hc; [done|].
  cbn [try_candidates]. unfold bind. rewrite gc_run.
  destruct j as [|j].
  - injection Hj as ->. unfold answer_at in *.
    cbn [take lookup_calls map concat app] in *. rewrite Hc.
    reflexivity.
  - pose proof (Hfail 0 a ltac:(lia) eq_refl) as H0. unfold answer_at in H0.
    cbn [take lookup_calls map concat app] in H0. rewrite H0.
    assert (Hshift : ∀ i b,
      answer_at service
        (w_log (logged w [EAcquire; ERequest a; ERelease])) l i b
      = answer_at service (w_log w) (a :: l) (S i) b).
    { intros i b. unfold answer_at, logged, after. cbn [w_log take].
      rewrite lookup_calls_cons. by rewrite <- !app_assoc. }
    rewrite (IH j c); [| done | |].
    + rewrite Hshift, logged_logged. cbn [take].
      by rewrite lookup_calls_cons.
    + intros i b Hi Hb. rewrite Hshift. apply Hfail; [lia|done].
    + by rewrite Hshift.
Qed.

End CandidateFacts.

Section FallbackLookupFacts.
Context (py_str : json → pystr).

Lemma extract_query address data r :
  extract py_str address data = Ok r →
  ∃ matched lat lon, r = Found matched address lat lon.
Proof.
  unfold extract.
  destruct (getitem_int data 0) as [d0|]; simpl; [|done].
  destruct (getitem_str d0 (u "geometry")) as [g|]; simpl; [|done].
  destruct (getitem_str g (u "coordinates")) as [c|]; simpl; [|done].
  destruct (getitem_str d0 (u "properties")) as [p|]; simpl; [|done].
  destruct (getitem_str p (u "title")) as [t|]; simpl; [|done].
  destruct (getitem_int c 1) as [c1|]; simpl; [|done].
  destruct (getitem_int c 0) as [c0|]; simpl; [|done].
  intros [= <-]. by eexists _, _, _.
Qed.

Lemma old_lookup_query address resp :
  found (FixOldMunicipalities.lookup py_str address resp) = true →
  ∃ matched lat lon,
    FixOldMunicipalities.lookup py_str address resp = Found matched address lat lon.
Proof.
  unfold FixOldMunicipalities.lookup.
  destruct resp as [e|h]; [done|].
  destruct (negb _); [done|].
  destruct (resp_json h) as [data|e]; [|done].
  destruct (truthy data); [|done].
  destruct (extract py_str address data) as [r|e] eqn:He; [|done].
  intros _. by apply extract_query in He.
Qed.

Lemma notfound_lookup_query address resp :
  found (FixNotfound.lookup py_str address resp) = true →
  ∃ matched lat lon,
    FixNotfound.lookup py_str address resp = Found matched address lat lon.
Proof.
  unfold FixNotfound.lookup.
  destruct resp as [e|h]; [done|].
  destruct (resp_json h) as [data|e]; [|done].
  destruct (truthy data); [|done].
  destruct (extract py_str address data) as [r|e] eqn:He; [|done].
  intros _. by apply extract_query in He.
Qed.

Lemma old_get_coordinates_run (service : service_t dir) a w :
  FixOldMunicipalities.get_coordinates py_str service a w
  = (Ok (FixOldMunicipalities.lookup py_str a (service (w_log w ++ [EAcquire]) a)),
     logged w [EAcquire; ERequest a; ERelease]).
Proof.
  unfold FixOldMunicipalities.get_coordinates, with_semaphore, bind, emit,
    attempt, request, ret, of_pyres, logged, after.
  cbn [w_log w_fs]. by rewrite <- !app_assoc.
Qed.

Lemma notfound_get_coordinates_run (service : service_t dir) a w :
  FixNotfound.get_coordinates py_str service a w
  = (Ok (FixNotfound.lookup py_str a (service (w_log w ++ [EAcquire]) a)),
     logged w [EAcquire; ERequest a; ERelease]).
Proof.
  unfold FixNotfound.get_coordinates, with_semaphore, bind, emit,
    attempt, request, ret, of_pyres, logged, after.
  cbn [w_log w_fs]. by rewrite <- !app_assoc.
Qed.

End FallbackLookupFacts.

(** X14. [fix_old_municipalities.try_address_variants] tries the candidates
    of [convert_address] in their order, one lookup each, and stops at the
    first that resolves in this run: the candidates after it are never
    requested, and the result carries that candidate as its query address.
    When no candidate resolves, each has been requested once, in order, and
    the result is not-found.  Whether a candidate resolves is read off the
    response the service gives when it is asked, after the lookups before
    it: the service may answer by its history, and by
    [first_that_resolves] one of the two cases is that of the run. *)
Theorem old_municipalities_search_stops_at_first_match
    (py_str : json → pystr) (convert_address : pystr → list pystr)
    (service : service_t dir) (original : pystr) (w : world dir) :
  let candidates := convert_address original in
  let resolves (j : nat) (c : pystr) : bool :=
    found (FixOldMunicipalities.lookup py_str c
             (answer_at service (w_log w) candidates j c)) in
  let search :=
    FixOldMunicipalities.try_address_variants py_str convert_address service
      original in
  (∀ j c,
     candidates !! j = Some c →
     (∀ i a, i < j → candidates !! i = Some a → resolves i a = false) →
     resolves j c = true →
     ∃ matched lat lon,
       search w = (Ok (Found matched c lat lon),
                   logged w (lookup_calls (take (S j) candidates))))
  ∧ ((∀ i a, candidates !! i = Some a → resolves i a = false) →
     search w = (Ok NotFound, logged w (lookup_calls candidates))).
Proof.
  intros candidates resolves search.
  unfold search, FixOldMunicipalities.try_address_variants. fold candidates.
  split.
  - intros j c Hj Hfail Hc.
    rewrite (try_candidates_first service (FixOldMunicipalities.lookup py_str)
               _ (old_get_coordinates_run py_str service) candidates _ j c w
               Hj Hfail Hc).
    destruct (old_lookup_query py_str c _ Hc) as (m & lat & lon & ->).
    by exists m, lat, lon.
  - intros Hfail.
    by rewrite (try_candidates_none service (FixOldMunicipalities.lookup py_str)
                  _ (old_get_coordinates_run py_str service) _ _ w Hfail).
Qed.

Lemma old_municipalities_search_stops_at_first_match_witness :
  let convert_address := fun _ : pystr => [u "A"; u "B"; u "C"] in
  let service : service_t dir := Demo.knows (u "B") in
  ∃ matched lat lon,
    FixOldMunicipalities.try_address_variants Demo.py_str convert_address service
      (u "X") (Demo.fresh ∅)
    = (Ok (Found matched (u "B") lat lon),
       logged (Demo.fresh ∅)
         (lookup_calls (take 2 [u "A"; u "B"; u "C"]))).
Proof.
  intros convert_address service.
  apply (proj1 (old_municipalities_search_stops_at_first_match Demo.py_str
                  convert_address service (u "X") (Demo.fresh ∅))
           1 (u "B") eq_refl).
  - intros [|i] a Hi Ha; [|lia]. injection Ha as <-. reflexivity.
  - reflexivity.
Defined.

(** X15. [fix_notfound.try_address_variants] goes through its three stages
    as one list of candidates: the converted Hamamatsu address (when the
    address names Hamamatsu and the conversion yields a non-empty string),
    then the Kyoto variants (when the address names Kyoto), then the general
    variants.  It requests them in that order, one lookup each, stops at the
    first that resolves in this run and returns it as the query address;
    when none resolves the result is not-found.  Whether a candidate
    resolves is read off the response the service gives when it is asked,
    after the lookups before it. *)
Theorem notfound_search_stops_at_first_match
    (py_str : json → pystr)
    (convert_hamamatsu_address : pystr → option pystr)
    (normalize_kyoto_address normalize_general_address : pystr → list pystr)
    (service : service_t dir) (original : pystr) (w : world dir) :
  let candidates :=
    notfound_candidates convert_hamamatsu_address normalize_kyoto_address
      normalize_general_address original in
  let resolves (j : nat) (c : pystr) : bool :=
    found (FixNotfound.lookup py_str c
             (answer_at service (w_log w) candidates j c)) in
  let search :=
    FixNotfound.try_address_variants py_str convert_hamamatsu_address
      normalize_kyoto_address normalize_general_address service original in
  (∀ j c,
     candidates !! j = Some c →
     (∀ i a, i < j → candidates !! i = Some a → resolves i a = false) →
     resolves j c = true →
     ∃ matched lat lon,
       search w = (Ok (Found matched c lat lon),
                   logged w (lookup_calls (take (S j) candidates))))
  ∧ ((∀ i a, candidates !! i = Some a → resolves i a = false) →
     search w = (Ok NotFound, logged w (lookup_calls candidates))).
Proof.
  intros candidates resolves search.
  assert (Hsearch : search
    = try_candidates (FixNotfound.get_coordinates py_str service) candidates
        (ret NotFound)).
  { unfold search, candidates, FixNotfound.try_address_variants,
      notfound_candidates.
    by rewrite !try_candidates_app. }
  rewrite Hsearch. split.
  - intros j c Hj Hfail Hc.
    rewrite (try_candidates_first service (FixNotfound.lookup py_str)
               _ (notfound_get_coordinates_run py_str service) candidates _ j c w
               Hj Hfail Hc).
    destruct (notfound_lookup_query py_str c _ Hc) as (m & lat & lon & ->).
    by exists m, lat, lon.
  - intros Hfail.
    by rewrite (try_candidates_none service (FixNotfound.lookup py_str)
                  _ (notfound_get_coordinates_run py_str service) _ _ w Hfail).
Qed.

Lemma notfound_search_stops_at_first_match_witness :
  let hamamatsu := fun _ : pystr => Some (u "静岡県浜松市中央区") in
  let kyoto := fun _ : pystr => [u "K"] in
  let general := fun _ : pystr => [u "B"; u "C"] in
  let service : service_t dir := Demo.knows (u "B") in
  ∃ matched lat lon,
    FixNotfound.try_address_variants Demo.py_str hamamatsu kyoto general service
      (u "静岡県浜松市中区") (Demo.fresh ∅)
    = (Ok (Found matched (u "B") lat lon),
       logged (Demo.fresh ∅)
         (lookup_calls
            (take 2 (notfound_candidates hamamatsu kyoto general
                       (u "静岡県浜松市中区"))))).
Proof.
  intros hamamatsu kyoto general service.
  apply (proj1 (notfound_search_stops_at_first_match Demo.py_str hamamatsu kyoto
                  general service (u "静岡県浜松市中区") (Demo.fresh ∅))
           1 (u "B")).
  - vm_compute. reflexivity.
  - intros [|i] a Hi Ha; [|lia]. vm_compute in Ha. injection Ha as <-.
    vm_compute. reflexivity.
  - vm_compute. reflexivity.
Defined.

(** ** Frames of text *)

Section FrameFacts.
Implicit Types (df : csv) (c col : pystr).



Lemma has_column_true {C} (df' : frame C) c :
  has_column df' c = true ↔ ∃ j, index_of c (columns df') = Some j.
Proof. unfold has_column. by rewrite bool_decide_eq_true. Qed.

Lemma columns_set_loc df idx col v :
  has_column df col = true → columns (set_loc df idx col v) = columns df.
Proof. intros [j Hj]%has_column_true. unfold set_loc. by rewrite Hj. Qed.

Lemma rows_set_loc_ne df idx col v i :
  has_column df col = true → i ≠ idx →
  rows (set_loc df idx col v) !! i = rows df !! i.
Proof.
  intros [j Hj]%has_column_true Hne. unfold set_loc. rewrite Hj. simpl.
  by apply list_lookup_alter_ne.
Qed.

Lemma length_rows_set_loc df idx col v :
  length (rows (set_loc df idx col v)) = length (rows df).
Proof.
  unfold set_loc. destruct (index_of col (columns df)); simpl;
    rewrite length_alter; [done|by rewrite length_map].
Qed.

Lemma has_column_set_loc df idx col v c :
  has_column df col = true →
  has_column (set_loc df idx col v) c = has_column df c.
Proof. intros H. unfold has_column. by rewrite columns_set_loc. Qed.


Lemma indices_where_spec {A} (p : A → bool) (l : list A) : ∀ k i,
  i ∈ indices_where p k l
  ↔ k ≤ i ∧ ∃ x, l !! (i - k) = Some x ∧ p x = true.
Proof.
  induction l as [|a l IH]; intros k i; simpl.
  - split; [by intros ?%elem_of_nil|]. by intros (_ & x & Hx & _).
  - rewrite elem_of_app, IH. split.
    + intros [Hin|(Hle & x & Hx & Hp)].
      * destruct (p a) eqn:Hp; [|by apply elem_of_nil in Hin].
        apply list_elem_of_singleton in Hin as ->. split; [done|].
        exists a. by rewrite Nat.sub_diag.
      * split; [lia|]. exists x. split; [|done].
        replace (i - k) with (S (i - S k)) by lia. done.
    + intros (Hle & x & Hx & Hp).
      destruct (decide (i = k)) as [->|Hne].
      * left. rewrite Nat.sub_diag in Hx. simpl in Hx. injection Hx as ->.
        rewrite Hp. by apply list_elem_of_singleton.
      * right. split; [lia|]. exists x. split; [|done].
        replace (i - k) with (S (i - S k)) in Hx by lia. done.
Qed.

End FrameFacts.

(** ** The loop over the parts *)

Section PartsLoopFacts.
Context (body : Z → M dir unit).
Hypothesis body_other : ∀ part w (q : Z),
  q ≠ part → w_fs (body part w).2 !! q = w_fs w !! q.

Lemma parts_loop_other (p : Z) : ∀ remaining part w,
  (p < part)%Z →
  w_fs (parts_loop body remaining part w).2 !! p = w_fs w !! p.
Proof using body_other.
  induction remaining as [|n IH]; intros part w Hlt; simpl; [done|].
  unfold bind. pose proof (body_other part w p ltac:(lia)) as Hb.
  destruct (body part w) as [[[]|e] w1]; simpl in *; [|done].
  rewrite IH by lia. done.
Qed.

(** Each file is handled by the turn of its own part, if by any. *)
Lemma parts_loop_file (R : csv → csv → Prop) (p : Z) :
  (∀ df, R df df) →
  (∀ w df, w_fs w !! p = Some df →
     ∃ df', w_fs (body p w).2 !! p = Some df' ∧ R df df') →
  ∀ remaining part w df,
    w_fs w !! p = Some df →
    ∃ df', w_fs (parts_loop body remaining part w).2 !! p = Some df' ∧ R df df'.
Proof using body_other.
  intros Hrefl Hbody.
  induction remaining as [|n IH]; intros part w df Hdf; simpl.
  - exists df. auto.
  - unfold bind. destruct (decide (part = p)) as [->|Hne].
    + destruct (Hbody w df Hdf) as (df' & Hdf' & HR).
      destruct (body p w) as [[[]|e] w1] eqn:Hb; simpl in *.
      * exists df'. split; [|done]. rewrite parts_loop_other by lia. done.
      * exists df'. auto.
    + pose proof (body_other part w p ltac:(done)) as Hb.
      destruct (body part w) as [[[]|e] w1]; simpl in *.
      * apply IH. by rewrite Hb.
      * exists df. split; [by rewrite Hb|auto].
Qed.

End PartsLoopFacts.

Section MoreQuiet.
Context {F : Type}.

Lemma quiet_emit_io (e : event F) :
  snapshots [e] = [] → quiet (emit e).
Proof. intros H w. by exists [e]. Qed.

Lemma quiet_request (service : service_t F) q : quiet (request service q).
Proof. intros w. by exists [ERequest q]. Qed.

Lemma quiet_raise {A} (e : exn) : quiet (raise (F:=F) (A:=A) e).
Proof. intros w. exists []. by rewrite logged_nil. Qed.

Lemma quiet_attempt {A} (m : M F A) : quiet m → quiet (attempt m).
Proof.
  intros Hm w. destruct (Hm w) as (l & Hl & Hs). exists l. split; [|done].
  unfold attempt. by destruct (m w).
Qed.

Lemma quiet_with_semaphore {A} (m : M F A) : quiet m → quiet (with_semaphore m).
Proof.
  intros Hm. unfold with_semaphore.
  apply quiet_bind; [by apply quiet_emit_io|]. intros _.
  apply quiet_bind; [by apply quiet_attempt|]. intros r.
  apply quiet_bind; [by apply quiet_emit_io|]. intros _.
  apply quiet_of_pyres.
Qed.

Lemma quiet_retry_attempts py_str (service : service_t F) q rc remaining :
  ∀ k, quiet (RetryTimeout.attempts py_str service q rc remaining k).
Proof.
  induction remaining as [|n IH]; intros k; cbn [RetryTimeout.attempts].
  - apply quiet_ret.
  - apply quiet_bind; [apply quiet_request|]. intros resp.
    assert (Hgo : ∀ ms, quiet (sleep ms ;;;
      RetryTimeout.attempts py_str service q rc n (k + 1)%Z)).
    { intros ms. apply quiet_bind; [by apply quiet_emit_io|]. intros _. apply IH. }
    destruct (RetryTimeout.try_body py_str resp) as [r|final|e];
      [apply quiet_ret| |].
    + destruct (_ <? _)%Z; [apply Hgo|apply quiet_ret].
    + destruct e; try apply quiet_raise;
        destruct (_ <? _)%Z; try apply Hgo; apply quiet_ret.
Qed.

Lemma quiet_retry_get_coordinates py_str (service : service_t F) address rc :
  quiet (RetryTimeout.get_coordinates py_str service address rc).
Proof.
  unfold RetryTimeout.get_coordinates.
  destruct (GeocoderChunked.address_is_empty address); [apply quiet_ret|].
  apply quiet_bind; [apply quiet_with_semaphore, quiet_retry_attempts|].
  intros [r|]; apply quiet_ret.
Qed.

End MoreQuiet.

(** ** The recovery pass *)

Section RetryPassFacts.
Import RetryTimeout.
Context (py_str : json → pystr).

Lemma retry_apply_result_frame df idx res :
  has_result_columns df →
  columns (apply_result py_str df idx res) = columns df
  ∧ length (rows (apply_result py_str df idx res)) = length (rows df)
  ∧ ∀ i, i ≠ idx → rows (apply_result py_str df idx res) !! i = rows df !! i.
Proof.
  intros (Hm & Hlat & Hlon & Herr). destruct res as [m lat lon e|e]; simpl.
  - repeat split.
    + rewrite !columns_set_loc; rewrite ?has_column_set_loc; auto;
        rewrite ?has_column_set_loc; auto; rewrite ?has_column_set_loc; auto.
    + by rewrite !length_rows_set_loc.
    + intros i Hne.
      rewrite !rows_set_loc_ne; rewrite ?has_column_set_loc; auto;
        rewrite ?has_column_set_loc; auto; rewrite ?has_column_set_loc; auto.
  - repeat split.
    + by rewrite columns_set_loc.
    + by rewrite length_rows_set_loc.
    + intros i Hne. by rewrite rows_set_loc_ne.
Qed.

Lemma has_result_columns_same df df' :
  columns df' = columns df → has_result_columns df → has_result_columns df'.
Proof. unfold has_result_columns, has_column. by intros ->. Qed.

Lemma retry_apply_results_frame updates : ∀ df,
  has_result_columns df →
  columns (apply_results py_str df updates) = columns df
  ∧ length (rows (apply_results py_str df updates)) = length (rows df)
  ∧ ∀ i, i ∉ updates.*1 →
      rows (apply_results py_str df updates) !! i = rows df !! i.
Proof.
  induction updates as [|[idx res] updates IH]; intros df Hdf.
  - by repeat split.
  - unfold apply_results. cbn [fold_left].
    destruct (retry_apply_result_frame df idx res Hdf) as (Hc & Hl & Hr).
    destruct (IH (apply_result py_str df idx res)
                (has_result_columns_same _ _ Hc Hdf)) as (Hc' & Hl' & Hr').
    unfold apply_results in *. repeat split.
    + by rewrite Hc'.
    + by rewrite Hl'.
    + intros i Hi. cbn [fmap list_fmap fst] in Hi.
      apply not_elem_of_cons in Hi as [Hne Hi]. rewrite Hr' by done. by apply Hr.
Qed.

Lemma zip_fst_subset {A B} (l : list A) (k : list B) x :
  x ∈ (zip l k).*1 → x ∈ l.
Proof.
  revert k. induction l as [|a l IH]; intros [|b k]; simpl;
    try (by intros ?%elem_of_nil).
  intros [->|Hin]%elem_of_cons; [left|right; eauto].
Qed.

(** A row that the mask does not select is not among the indices. *)
Lemma retry_unselected_not_index df indices i e :
  error_indices df = Ok indices →
  loc df i COL_ERROR = Ok e → selected e = false → i ∉ indices.
Proof.
  unfold error_indices, column, loc.
  destruct (index_of COL_ERROR (columns df)) as [j|]; simpl; [|done].
  intros [= <-] [= <-] Hsel Hin.
  apply indices_where_spec in Hin as (_ & x & Hx & Hp).
  rewrite Nat.sub_0_r, list_lookup_fmap in Hx.
  destruct (rows df !! i) as [row|]; simpl in *; [|done].
  injection Hx as <-. by pose proof (eq_trans (eq_sym Hp) Hsel).
Qed.

Context (service : service_t dir) (scheds : Z → list nat).
Context (na : pystr → bool).

Lemma columns_read_csv (file : csv) : columns (read_csv na file) = columns file.
Proof. reflexivity. Qed.

Lemma length_rows_read_csv (file : csv) :
  length (rows (read_csv na file)) = length (rows file).
Proof. unfold read_csv, map_cells. simpl. by rewrite length_map. Qed.

Lemma retry_process_part_other part w (q : Z) :
  q ≠ part →
  w_fs (process_part py_str service scheds na part w).2 !! q = w_fs w !! q.
Proof.
  intros Hne. unfold process_part, bind, get_fs, of_pyres. cbn [fst snd].
  destruct (w_fs w !! part) as [file|]; [|done]. cbn zeta.
  set (df := read_csv na file).
  destruct (error_indices df) as [[|i0 indices]|e]; [done| |done].
  destruct (address_column df) as [addr_col|e]; [|done].
  destruct (pymapM _ _) as [addresses|e]; [|done].
  set (tasks := map _ addresses).
  destruct (quiet_gather (scheds part) tasks) with (w := w) as (l & Hl & _).
  { apply Forall_fmap, Forall_forall. intros a _.
    apply quiet_retry_get_coordinates. }
  destruct (gather (scheds part) tasks w) as [[results|e] w1];
    simpl in Hl; subst w1; [|done].
  unfold put_fs, logged, after. simpl. by apply lookup_insert_ne.
Qed.

Lemma retry_process_part_file part w file :
  w_fs w !! part = Some file →
  ∃ file',
    w_fs (process_part py_str service scheds na part w).2 !! part = Some file'
    ∧ (has_result_columns file → recovery_pass_result na file file').
Proof.
  intros Hfile.
  assert (Hsame : ∃ file', w_fs w !! part = Some file'
            ∧ (has_result_columns file → recovery_pass_result na file file')).
  { exists file. split; [done|]. intros _. by left. }
  unfold process_part, bind, get_fs, of_pyres. cbn [fst snd]. rewrite Hfile.
  cbn zeta. set (df := read_csv na file).
  destruct (error_indices df) as [[|i0 indices]|e] eqn:Hidx; [done| |done].
  destruct (address_column df) as [addr_col|e]; [|done].
  destruct (pymapM _ _) as [addresses|e]; [|done].
  set (tasks := map _ addresses).
  destruct (quiet_gather (scheds part) tasks) with (w := w) as (l & Hl & _).
  { apply Forall_fmap, Forall_forall. intros a _.
    apply quiet_retry_get_coordinates. }
  destruct (gather (scheds part) tasks w) as [[results|e] w1];
    simpl in Hl; subst w1; [|done].
  unfold put_fs, logged, after. simpl.
  eexists. split; [apply lookup_insert_eq|]. intros Hcols. right.
  assert (Hcols' : has_result_columns df).
  { exact (has_result_columns_same file df (columns_read_csv file) Hcols). }
  destruct (retry_apply_results_frame (zip (i0 :: indices) results) df Hcols')
    as (Hc & Hlen & Hrows).
  split; [done|]. split; [done|].
  intros i e He Hsel. apply Hrows. intros Hin%zip_fst_subset.
  by eapply retry_unselected_not_index.
Qed.

End RetryPassFacts.

(** X16. The recovery pass changes no row that its mask does not select,
    beyond what reading and rewriting the file does.  For an output file as
    [to_csv] writes it, with the four result columns, after
    [retry_timeout.main] the file is either untouched, or it has the same
    columns and as many rows, and every row whose error text, as read,
    contains neither the timeout nor the transport-error marker holds the
    fields as [read_csv] read them: its own fields, those that pandas reads
    as the missing value written empty.  This holds whatever the service
    answered and whether or not the pass ran to its end. *)
Theorem recovery_pass_changes_selected_rows_only
    (py_str : json → pystr) (service : service_t dir) (scheds : Z → list nat)
    (na : pystr → bool)
    (total_parts : Z) (w : world dir) (part : Z) (file : csv) :
  w_fs w !! part = Some file →
  rectangular file →
  has_result_columns file →
  ∃ file',
    w_fs (RetryTimeout.main py_str service scheds na total_parts w).2 !! part
      = Some file'
    ∧ recovery_pass_result na file file'.
Proof.
  intros Hfile _ Hcols. unfold RetryTimeout.main.
  destruct (parts_loop_file (RetryTimeout.process_part py_str service scheds na)
              (retry_process_part_other py_str service scheds na)
              (fun file file' => has_result_columns file →
                 recovery_pass_result na file file')
              part) with (remaining := Z.to_nat total_parts) (part := 1%Z)
              (w := w) (df := file) as (file' & Hfile' & HR).
  - intros d _. by left.
  - intros w0 d Hd. by apply retry_process_part_file.
  - done.
  - exists file'. auto.
Qed.

Lemma recovery_pass_changes_selected_rows_only_witness :
  let service : service_t dir := Demo.knows (u "東京都港区") in
  let w := Demo.fresh ({[ 1%Z := Demo.output_file ]} : dir) in
  ∃ file',
    w_fs (RetryTimeout.main Demo.py_str service (fun _ => []) Demo.na 1 w).2
      !! 1%Z = Some file'
    ∧ recovery_pass_result Demo.na Demo.output_file file'.
Proof.
  intros service w.
  apply (recovery_pass_changes_selected_rows_only Demo.py_str service
           (fun _ => []) Demo.na 1 w 1%Z Demo.output_file).
  - reflexivity.
  - repeat constructor.
  - repeat split; reflexivity.
Defined.

(** ** The fallback passes on a file *)

Section FallbackFrameFacts.

Lemma index_of_app_Some c (cols extra : list pystr) j :
  index_of c cols = Some j → index_of c (cols ++ extra) = Some j.
Proof.
  revert j. induction cols as [|a cols IH]; intros j; simpl; [done|].
  destruct (pystr_eqb a c); [done|].
  destruct (index_of c cols) as [k|]; simpl; [|done].
  intros [= <-]. by rewrite (IH k eq_refl).
Qed.

Lemma index_of_snoc_same c (cols : list pystr) :
  is_Some (index_of c (cols ++ [c])).
Proof.
  induction cols as [|a cols IH]; simpl.
  - unfold pystr_eqb. rewrite bool_decide_eq_true_2 by done. by eexists.
  - destruct (pystr_eqb a c); [by eexists|].
    destruct IH as [k ->]. by eexists.
Qed.

Lemma has_column_ensure_same (df : csv) c :
  has_column (ensure_column df c) c = true.
Proof.
  unfold ensure_column. destruct (has_column df c) eqn:H; [done|].
  apply has_column_true. unfold set_column_scalar, set_column, with_column. simpl.
  rewrite (has_column_false df c H). apply index_of_snoc_same.
Qed.

Lemma has_column_ensure_keeps (df : csv) c c' :
  has_column df c' = true → has_column (ensure_column df c) c' = true.
Proof.
  intros [j Hj]%has_column_true. unfold ensure_column.
  destruct (has_column df c) eqn:H; [by apply has_column_true; eexists|].
  apply has_column_true. unfold set_column_scalar, set_column, with_column. simpl.
  rewrite (has_column_false df c H). exists j. by apply index_of_app_Some.
Qed.

Lemma length_rows_ensure (df : csv) c :
  length (rows (ensure_column df c)) = length (rows df).
Proof.
  unfold ensure_column. destruct (has_column df c); [done|].
  unfold set_column_scalar, set_column. simpl.
  rewrite length_zip_with, length_replicate. lia.
Qed.

Lemma length_rows_with_fallback (df : csv) :
  length (rows (with_fallback_columns df)) = length (rows df).
Proof. unfold with_fallback_columns. by rewrite !length_rows_ensure. Qed.

Lemma with_fallback_has_columns (df : csv) :
  has_column (with_fallback_columns df) COL_NEAR = true
  ∧ has_column (with_fallback_columns df) COL_NEAR_LAT = true
  ∧ has_column (with_fallback_columns df) COL_NEAR_LON = true.
Proof.
  unfold with_fallback_columns. repeat split.
  - do 2 apply has_column_ensure_keeps. apply has_column_ensure_same.
  - apply has_column_ensure_keeps. apply has_column_ensure_same.
  - apply has_column_ensure_same.
Qed.

Lemma has_column_same (df df' : csv) c :
  columns df' = columns df → has_column df' c = has_column df c.
Proof. unfold has_column. by intros ->. Qed.

Lemma set_loc_frame (df : csv) idx col v :
  has_column df col = true →
  columns (set_loc df idx col v) = columns df
  ∧ length (rows (set_loc df idx col v)) = length (rows df)
  ∧ ∀ i, i ≠ idx → rows (set_loc df idx col v) !! i = rows df !! i.
Proof.
  intros Hcol. split; [by apply columns_set_loc|].
  split; [apply length_rows_set_loc|].
  intros i Hne. by apply rows_set_loc_ne.
Qed.

Lemma fallback_apply_result_frame (df : csv) idx res :
  has_column df COL_NEAR = true → has_column df COL_NEAR_LAT = true →
  has_column df COL_NEAR_LON = true →
  columns (Fallback.apply_result df idx res) = columns df
  ∧ length (rows (Fallback.apply_result df idx res)) = length (rows df)
  ∧ ∀ i, i ≠ idx → rows (Fallback.apply_result df idx res) !! i = rows df !! i.
Proof.
  intros Hn Hlat Hlon. destruct res as [m q lat lon|].
  2:{ split; [reflexivity|]. split; [reflexivity|]. intros; reflexivity. }
  cbn [Fallback.apply_result].
  destruct (set_loc_frame df idx COL_NEAR q Hn) as (c1 & l1 & r1).
  set (d1 := set_loc df idx COL_NEAR q) in *.
  assert (Hlat1 : has_column d1 COL_NEAR_LAT = true).
  { rewrite (has_column_same df d1 COL_NEAR_LAT c1). exact Hlat. }
  destruct (set_loc_frame d1 idx COL_NEAR_LAT lat Hlat1) as (c2 & l2 & r2).
  set (d2 := set_loc d1 idx COL_NEAR_LAT lat) in *.
  assert (Hlon2 : has_column d2 COL_NEAR_LON = true).
  { rewrite (has_column_same d1 d2 COL_NEAR_LON c2).
    rewrite (has_column_same df d1 COL_NEAR_LON c1). exact Hlon. }
  destruct (set_loc_frame d2 idx COL_NEAR_LON lon Hlon2) as (c3 & l3 & r3).
  split; [exact (eq_trans c3 (eq_trans c2 c1))|].
  split; [exact (eq_trans l3 (eq_trans l2 l1))|].
  intros i Hne.
  exact (eq_trans (r3 i Hne) (eq_trans (r2 i Hne) (r1 i Hne))).
Qed.

Lemma fallback_apply_results_frame updates : ∀ df : csv,
  has_column df COL_NEAR = true → has_column df COL_NEAR_LAT = true →
  has_column df COL_NEAR_LON = true →
  columns (Fallback.apply_results df updates) = columns df
  ∧ length (rows (Fallback.apply_results df updates)) = length (rows df)
  ∧ ∀ i, i ∉ updates.*1 →
      rows (Fallback.apply_results df updates) !! i = rows df !! i.
Proof.
  induction updates as [|[idx res] updates IH]; intros df Hn Hlat Hlon.
  { split; [reflexivity|]. split; [reflexivity|]. intros; reflexivity. }
  unfold Fallback.apply_results. cbn [fold_left].
  destruct (fallback_apply_result_frame df idx res Hn Hlat Hlon) as (Hc & Hl & Hr).
  set (d := Fallback.apply_result df idx res) in *.
  assert (Hn' : has_column d COL_NEAR = true).
  { rewrite (has_column_same df d COL_NEAR Hc). exact Hn. }
  assert (Hlat' : has_column d COL_NEAR_LAT = true).
  { rewrite (has_column_same df d COL_NEAR_LAT Hc). exact Hlat. }
  assert (Hlon' : has_column d COL_NEAR_LON = true).
  { rewrite (has_column_same df d COL_NEAR_LON Hc). exact Hlon. }
  destruct (IH d Hn' Hlat' Hlon') as (Hc' & Hl' & Hr').
  unfold Fallback.apply_results in Hc', Hl', Hr'.
  split; [exact (eq_trans Hc' Hc)|].
  split; [exact (eq_trans Hl' Hl)|].
  intros i Hi. cbn [fmap list_fmap fst] in Hi.
  apply not_elem_of_cons in Hi as [Hne Hi].
  exact (eq_trans (Hr' i Hi) (Hr i Hne)).
Qed.

Lemma fallback_unselected_not_index (df : csv) indices i e n :
  Fallback.error_indices df = Ok indices →
  loc df i COL_ERROR = Ok e → loc df i COL_NEAR = Ok n →
  Fallback.selected e n = false → i ∉ indices.
Proof.
  unfold Fallback.error_indices, column, loc.
  destruct (index_of COL_ERROR (columns df)) as [je|]; simpl; [|done].
  destruct (index_of COL_NEAR (columns df)) as [jn|]; simpl; [|done].
  intros [= <-] [= <-] [= <-] Hsel Hin.
  apply indices_where_spec in Hin as (_ & [x y] & Hx & Hp).
  rewrite Nat.sub_0_r in Hx. apply lookup_zip_Some in Hx as [Hx Hy].
  rewrite list_lookup_fmap in Hx, Hy.
  destruct (rows df !! i) as [row|]; simpl in *; [|done].
  injection Hx as <-. injection Hy as <-.
  by pose proof (eq_trans (eq_sym Hp) Hsel).
Qed.

Lemma quiet_try_candidates {F} (gc : pystr → M F found_result)
    (l : list pystr) (k : M F found_result) :
  (∀ a, quiet (gc a)) → quiet k → quiet (try_candidates gc l k).
Proof.
  intros Hgc Hk. induction l as [|a l IH]; simpl; [done|].
  apply quiet_bind; [apply Hgc|]. intros r.
  destruct (found r); [apply quiet_ret|apply IH].
Qed.

Lemma quiet_old_search py_str convert_address (service : service_t dir) a :
  quiet (FixOldMunicipalities.try_address_variants py_str convert_address
           service a).
Proof.
  apply quiet_try_candidates; [|apply quiet_ret]. intros c.
  apply quiet_with_semaphore, quiet_bind; [apply quiet_request|].
  intros r. apply quiet_ret.
Qed.

Lemma quiet_notfound_search py_str hamamatsu kyoto general
    (service : service_t dir) a :
  quiet (FixNotfound.try_address_variants py_str hamamatsu kyoto general
           service a).
Proof.
  assert (Hgc : ∀ c, quiet (FixNotfound.get_coordinates py_str service c)).
  { intros c. apply quiet_with_semaphore, quiet_bind; [apply quiet_request|].
    intros r. apply quiet_ret. }
  unfold FixNotfound.try_address_variants.
  repeat (apply quiet_try_candidates; [done|]). apply quiet_ret.
Qed.

End FallbackFrameFacts.

Section FallbackPassFacts.
Context (py_str : json → pystr).
Context (service : service_t dir) (scheds : Z → list nat).
Context (na : pystr → bool).

Lemma fallback_frame_result (file : csv) indices results :
  Fallback.error_indices (with_fallback_columns (read_csv na file))
  = Ok indices →
  fallback_pass_result na file
    (Fallback.apply_results (with_fallback_columns (read_csv na file))
       (zip indices results)).
Proof.
  intros Hidx. right. cbn zeta. set (df := read_csv na file) in *.
  destruct (with_fallback_has_columns df) as (Hn & Hlat & Hlon).
  destruct (fallback_apply_results_frame (zip indices results)
              (with_fallback_columns df) Hn Hlat Hlon) as (Hc & Hlen & Hrows).
  split; [exact Hc|].
  split.
  { rewrite Hlen, (length_rows_with_fallback df). apply length_rows_read_csv. }
  intros i e n He Hnear Hsel. apply Hrows. intros Hin%zip_fst_subset.
  by eapply fallback_unselected_not_index.
Qed.

Lemma fallback_frame_untouched (file : csv) :
  fallback_pass_result na file (with_fallback_columns (read_csv na file)).
Proof.
  right. cbn zeta. split; [reflexivity|].
  split; [|intros; reflexivity].
  rewrite length_rows_with_fallback. apply length_rows_read_csv.
Qed.

Section Old.
Context (convert_address : pystr → list pystr).

Lemma old_process_part_other part w (q : Z) :
  q ≠ part →
  w_fs (FixOldMunicipalities.process_part py_str convert_address service
          scheds na part w).2 !! q = w_fs w !! q.
Proof.
  intros Hne.
  unfold FixOldMunicipalities.process_part, bind, get_fs, of_pyres.
  cbn [fst snd].
  destruct (w_fs w !! part) as [file|]; [|done]. cbn zeta.
  fold (with_fallback_columns (read_csv na file)).
  destruct (Fallback.error_indices _) as [[|i0 indices]|e]; [done| |done].
  destruct (FixOldMunicipalities.address_column _) as [addr_col|e]; [|done].
  destruct (pymapM _ _) as [addresses|e]; [|done].
  set (tasks := map _ addresses).
  destruct (quiet_gather (scheds part) tasks) with (w := w) as (l & Hl & _).
  { apply Forall_fmap, Forall_forall. intros a _. apply quiet_old_search. }
  destruct (gather (scheds part) tasks w) as [[results|e] w1];
    simpl in Hl; subst w1; [|done].
  unfold put_fs, logged, after. simpl. by apply lookup_insert_ne.
Qed.

Lemma old_process_part_file part w file :
  w_fs w !! part = Some file →
  ∃ file', w_fs (FixOldMunicipalities.process_part py_str convert_address
                   service scheds na part w).2 !! part = Some file'
           ∧ fallback_pass_result na file file'.
Proof.
  intros Hfile.
  assert (Hsame : ∃ file', w_fs w !! part = Some file'
                           ∧ fallback_pass_result na file file').
  { exists file. split; [done|]. by left. }
  unfold FixOldMunicipalities.process_part, bind, get_fs, of_pyres.
  cbn [fst snd]. rewrite Hfile. cbn zeta.
  fold (with_fallback_columns (read_csv na file)).
  destruct (Fallback.error_indices _) as [[|i0 indices]|e] eqn:Hidx;
    [done| |done].
  destruct (FixOldMunicipalities.address_column _) as [addr_col|e]; [|done].
  destruct (pymapM _ _) as [addresses|e]; [|done].
  set (tasks := map _ addresses).
  destruct (quiet_gather (scheds part) tasks) with (w := w) as (l & Hl & _).
  { apply Forall_fmap, Forall_forall. intros a _. apply quiet_old_search. }
  destruct (gather (scheds part) tasks w) as [[results|e] w1];
    simpl in Hl; subst w1; [|done].
  unfold put_fs, logged, after. simpl.
  eexists. split; [apply lookup_insert_eq|].
  exact (fallback_frame_result file (i0 :: indices) results Hidx).
Qed.

End Old.

Section Notfound.
Context (convert_hamamatsu_address : pystr → option pystr).
Context (normalize_kyoto_address : pystr → list pystr).
Context (normalize_general_address : pystr → list pystr).

Lemma notfound_process_part_other part w (q : Z) :
  q ≠ part →
  w_fs (FixNotfound.process_part py_str convert_hamamatsu_address
          normalize_kyoto_address normalize_general_address service
          scheds na part w).2 !! q = w_fs w !! q.
Proof.
  intros Hne.
  unfold FixNotfound.process_part, bind, get_fs, of_pyres.
  cbn [fst snd].
  destruct (w_fs w !! part) as [file|]; [|done]. cbn zeta.
  fold (with_fallback_columns (read_csv na file)).
  destruct (Fallback.error_indices _) as [[|i0 indices]|e]; [| |done].
  { unfold put_fs, logged, after. simpl. by apply lookup_insert_ne. }
  destruct (pymapM _ _) as [addresses|e]; [|done].
  set (tasks := map _ addresses).
  destruct (quiet_gather (scheds part) tasks) with (w := w) as (l & Hl & _).
  { apply Forall_fmap, Forall_forall. intros a _. apply quiet_notfound_search. }
  destruct (gather (scheds part) tasks w) as [[results|e] w1];
    simpl in Hl; subst w1; [|done].
  unfold put_fs, logged, after. simpl. by apply lookup_insert_ne.
Qed.

Lemma notfound_process_part_file part w file :
  w_fs w !! part = Some file →
  ∃ file', w_fs (FixNotfound.process_part py_str convert_hamamatsu_address
                   normalize_kyoto_address normalize_general_address service
                   scheds na part w).2 !! part = Some file'
           ∧ fallback_pass_result na file file'.
Proof.
  intros Hfile.
  assert (Hsame : ∃ file', w_fs w !! part = Some file'
                           ∧ fallback_pass_result na file file').
  { exists file. split; [done|]. by left. }
  unfold FixNotfound.process_part, bind, get_fs, of_pyres.
  cbn [fst snd]. rewrite Hfile. cbn zeta.
  fold (with_fallback_columns (read_csv na file)).
  destruct (Fallback.error_indices _) as [[|i0 indices]|e] eqn:Hidx;
    [| |done].
  { unfold put_fs, logged, after. simpl.
    eexists. split; [apply lookup_insert_eq|]. apply fallback_frame_untouched. }
  destruct (pymapM _ _) as [addresses|e]; [|done].
  set (tasks := map _ addresses).
  destruct (quiet_gather (scheds part) tasks) with (w := w) as (l & Hl & _).
  { apply Forall_fmap, Forall_forall. intros a _. apply quiet_notfound_search. }
  destruct (gather (scheds part) tasks w) as [[results|e] w1];
    simpl in Hl; subst w1; [|done].
  unfold put_fs, logged, after. simpl.
  eexists. split; [apply lookup_insert_eq|].
  exact (fallback_frame_result file (i0 :: indices) results Hidx).
Qed.

End Notfound.

End FallbackPassFacts.

(** X17. The not-found pass changes no row that its mask does not select,
    beyond what reading and rewriting the file does.  After
    [fix_notfound.main] an output file as [to_csv] writes it is either
    untouched, or it is the file as [read_csv] read it (the fields that
    pandas reads as the missing value written empty) with the three
    fallback columns added, empty, where they were missing: it has as many
    rows, and every row whose error is not the not-found message, or that
    already has a fallback address, is as in that frame.  This holds
    whatever the service answered and whatever the candidate generators
    produce. *)
Theorem notfound_pass_changes_selected_rows_only
    (py_str : json → pystr)
    (convert_hamamatsu_address : pystr → option pystr)
    (normalize_kyoto_address normalize_general_address : pystr → list pystr)
    (service : service_t dir) (scheds : Z → list nat) (na : pystr → bool)
    (total_parts : Z) (w : world dir) (part : Z) (file : csv) :
  w_fs w !! part = Some file →
  rectangular file →
  ∃ file',
    w_fs (FixNotfound.main py_str convert_hamamatsu_address
            normalize_kyoto_address normalize_general_address service scheds
            na total_parts w).2 !! part = Some file'
    ∧ fallback_pass_result na file file'.
Proof.
  intros Hfile _. unfold FixNotfound.main.
  apply (parts_loop_file
           (FixNotfound.process_part py_str convert_hamamatsu_address
              normalize_kyoto_address normalize_general_address service scheds
              na)
           (notfound_process_part_other py_str service scheds na
              convert_hamamatsu_address normalize_kyoto_address
              normalize_general_address)
           (fallback_pass_result na) part).
  - intros d. by left.
  - intros w0 d Hd. by apply notfound_process_part_file.
  - done.
Qed.

Lemma notfound_pass_changes_selected_rows_only_witness :
  ∃ file',
    w_fs (FixNotfound.main Demo.py_str (fun _ => None) (fun _ => [])
            (fun a => [a]) (Demo.knows (u "どこか")) (fun _ => []) Demo.na 1
            (Demo.fresh ({[ 1%Z := Demo.output_file ]} : dir))).2 !! 1%Z
      = Some file'
    ∧ fallback_pass_result Demo.na Demo.output_file file'.
Proof.
  apply (notfound_pass_changes_selected_rows_only Demo.py_str (fun _ => None)
           (fun _ => []) (fun a => [a]) (Demo.knows (u "どこか"))
           (fun _ => []) Demo.na 1
           (Demo.fresh ({[ 1%Z := Demo.output_file ]} : dir)) 1%Z
           Demo.output_file).
  - reflexivity.
  - repeat constructor.
Defined.

(** X18. The old-municipalities pass changes no row that its mask does not
    select, beyond what reading and rewriting the file does.  After
    [fix_old_municipalities.main] an output file as [to_csv] writes it is
    either untouched, or it is the file as [read_csv] read it (the fields
    that pandas reads as the missing value written empty) with the three
    fallback columns added, empty, where they were missing: it has as many
    rows, and every row whose error is not the not-found message, or that
    already has a fallback address, is as in that frame. *)
Theorem old_municipalities_pass_changes_selected_rows_only
    (py_str : json → pystr) (convert_address : pystr → list pystr)
    (service : service_t dir) (scheds : Z → list nat) (na : pystr → bool)
    (total_parts : Z) (w : world dir) (part : Z) (file : csv) :
  w_fs w !! part = Some file →
  rectangular file →
  ∃ file',
    w_fs (FixOldMunicipalities.main py_str convert_address service scheds na
            total_parts w).2 !! part = Some file'
    ∧ fallback_pass_result na file file'.
Proof.
  intros Hfile _. unfold FixOldMunicipalities.main.
  apply (parts_loop_file
           (FixOldMunicipalities.process_part py_str convert_address service
              scheds na)
           (old_process_part_other py_str service scheds na convert_address)
           (fallback_pass_result na) part).
  - intros d. by left.
  - intros w0 d Hd. by apply old_process_part_file.
  - done.
Qed.

Lemma old_municipalities_pass_changes_selected_rows_only_witness :
  ∃ file',
    w_fs (FixOldMunicipalities.main Demo.py_str (fun a => [a])
            (Demo.knows (u "どこか")) (fun _ => []) Demo.na 1
            (Demo.fresh ({[ 1%Z := Demo.output_file ]} : dir))).2 !! 1%Z
      = Some file'
    ∧ fallback_pass_result Demo.na Demo.output_file file'.
Proof.
  apply (old_municipalities_pass_changes_selected_rows_only Demo.py_str
           (fun a => [a]) (Demo.knows (u "どこか")) (fun _ => []) Demo.na 1
           (Demo.fresh ({[ 1%Z := Demo.output_file ]} : dir)) 1%Z
           Demo.output_file).
  - reflexivity.
  - repeat constructor.
Defined.

(** ** The frame of the passes *)

Section ReadFacts.
Context (na : pystr → bool).

Lemma read_fields_intact (row : list pystr) :
  Forall (fun c => na c = false) row → map (read_field na) row = row.
Proof.
  induction 1 as [|c row Hc _ IH]; [done|].
  cbn [map]. unfold read_field at 1. by rewrite Hc, IH.
Qed.

(** A row without a text that is read as the missing value is read as it
    is. *)
Lemma read_row_intact (file : csv) i row :
  rows file !! i = Some row →
  Forall (fun c => na c = false) row →
  rows (read_csv na file) !! i = Some row.
Proof.
  intros Hrow Hclean. unfold read_csv, map_cells. cbn [rows].
  rewrite list_lookup_fmap, Hrow. cbn [fmap option_fmap option_map].
  by rewrite read_fields_intact.
Qed.

End ReadFacts.

(** C10 (amended). A recovery or fallback pass changes no row that its mask
    does not select, beyond what reading and rewriting the file does.  For
    an output file as [to_csv] writes it, after [retry_timeout.main] (when
    the file has the four result columns) and after [fix_notfound.main] the
    file is either untouched, or every row that the mask of the pass does
    not select holds the fields as [read_csv] read them, with the three
    fallback columns added, empty, where the not-found pass found them
    missing.  The fields are read as they are but for the texts that pandas
    reads as the missing value, which are written empty: a row without such
    a text is intact. *)
Theorem passes_rewrite_unselected_rows_as_read
    (na : pystr → bool) (py_str : json → pystr)
    (convert_hamamatsu_address : pystr → option pystr)
    (normalize_kyoto_address normalize_general_address : pystr → list pystr)
    (service : service_t dir) (scheds : Z → list nat)
    (total_parts : Z) (w : world dir) (part : Z) (file : csv) :
  w_fs w !! part = Some file →
  rectangular file →
  (has_result_columns file →
   ∃ file',
     w_fs (RetryTimeout.main py_str service scheds na total_parts w).2 !! part
       = Some file'
     ∧ recovery_pass_result na file file')
  ∧ (∃ file',
       w_fs (FixNotfound.main py_str convert_hamamatsu_address
               normalize_kyoto_address normalize_general_address service scheds
               na total_parts w).2 !! part = Some file'
       ∧ fallback_pass_result na file file')
  ∧ (∀ i row, rows file !! i = Some row →
       Forall (fun c => na c = false) row →
       rows (read_csv na file) !! i = Some row).
Proof.
  intros Hfile _. split; [|split].
  - intros Hcols. unfold RetryTimeout.main.
    destruct (parts_loop_file (RetryTimeout.process_part py_str service scheds na)
                (retry_process_part_other py_str service scheds na)
                (fun file file' => has_result_columns file →
                   recovery_pass_result na file file')
                part) with (remaining := Z.to_nat total_parts) (part := 1%Z)
                (w := w) (df := file) as (file' & Hfile' & HR).
    + intros d _. by left.
    + intros w0 d Hd. by apply retry_process_part_file.
    + done.
    + exists file'. auto.
  - unfold FixNotfound.main.
    apply (parts_loop_file
             (FixNotfound.process_part py_str convert_hamamatsu_address
                normalize_kyoto_address normalize_general_address service scheds
                na)
             (notfound_process_part_other py_str service scheds na
                convert_hamamatsu_address normalize_kyoto_address
                normalize_general_address)
             (fallback_pass_result na) part).
    + intros d. by left.
    + intros w0 d Hd. by apply notfound_process_part_file.
    + done.
  - intros i row. apply read_row_intact.
Qed.

Lemma passes_rewrite_unselected_rows_as_read_witness :
  let w := Demo.fresh ({[ 1%Z := Demo.output_file ]} : dir) in
  (∃ file',
     w_fs (RetryTimeout.main Demo.py_str (Demo.knows (u "東京都港区"))
             (fun _ => []) Demo.na 1 w).2 !! 1%Z = Some file'
     ∧ recovery_pass_result Demo.na Demo.output_file file')
  ∧ (∃ file',
       w_fs (FixNotfound.main Demo.py_str (fun _ => None) (fun _ => [])
               (fun a => [a]) (Demo.knows (u "どこか")) (fun _ => []) Demo.na 1
               w).2 !! 1%Z = Some file'
       ∧ fallback_pass_result Demo.na Demo.output_file file').
Proof.
  intros w.
  destruct (passes_rewrite_unselected_rows_as_read Demo.na Demo.py_str
              (fun _ => None) (fun _ => []) (fun a => [a])
              (Demo.knows (u "東京都港区")) (fun _ => []) 1 w 1%Z
              Demo.output_file eq_refl ltac:(repeat constructor))
    as (Hretry & _ & _).
  destruct (passes_rewrite_unselected_rows_as_read Demo.na Demo.py_str
              (fun _ => None) (fun _ => []) (fun a => [a])
              (Demo.knows (u "どこか")) (fun _ => []) 1 w 1%Z
              Demo.output_file eq_refl ltac:(repeat constructor))
    as (_ & Hfallback & _).
  split; [|exact Hfallback].
  apply Hretry. repeat split; reflexivity.
Defined.

(** C10, as stated, fails: a row that the recovery pass does not select is
    not left intact when one of its fields is a text that pandas reads as
    the missing value.  In [Demo.na_file] the first row is resolved, with
    the label [NA]; the pass retries the second row only, and writes the
    first row back with an empty label. *)
Lemma unselected_row_is_rewritten :
  let w := Demo.fresh ({[ 1%Z := Demo.na_file ]} : dir) in
  let run := RetryTimeout.main Demo.py_str (Demo.knows (u "東京都港区"))
               (fun _ => []) Demo.na 1 in
  rows Demo.na_file !! 0%nat
  = Some [u "1"; u "どこか"; u "NA"; u "35.0"; u "139.0"; []]
  ∧ RetryTimeout.selected [] = false
  ∧ (rows <$> (w_fs (run w).2 !! 1%Z)) ≫= (.!! 0%nat)
    = Some [u "1"; u "どこか"; []; u "35.0"; u "139.0"; []].
Proof. vm_compute. repeat split; reflexivity. Qed.

(** ** The order of the rows of a chunk *)



(** ** The order of the fallback candidates *)

Section CellFacts.
Implicit Types (df : csv) (c col : pystr).







End CellFacts.



(** ** The output of a chunk and the checkpoint *)

(** C2 (amended). The output of a chunk is written in place, not by an
    atomic replace: saving the output of the chunk [n] and advancing the
    checkpoint takes the file system through four states, the output file
    truncated, the output file completely written, the progress file
    truncated, and the progress file holding [n].  The output is thus
    complete strictly before the checkpoint names its chunk; consequently,
    when the checkpoint found at the start of a run names only chunks whose
    output files are there and completely written, then at every moment of
    the run, and at its end, the checkpoint names no chunk whose output file
    is absent or partially written. *)
Theorem output_is_complete_before_the_checkpoint_names_it
    (service : service_t GeocoderChunked.fs)
    (as_column : list json → json → json) (scheds : Z → list nat)
    (address_column : pystr) (chunks : list (frame (option pystr)))
    (w : world GeocoderChunked.fs) :
  checkpoint_ok (w_fs w) →
  let run := GeocoderChunked.process_file_chunked service as_column scheds
               address_column chunks in
  (∀ (n : Z) (out : frame json) (w0 : world GeocoderChunked.fs),
     (GeocoderChunked.to_csv n out ;;; GeocoderChunked.write_progress n) w0
     = (Ok tt,
        after w0 (after_chunk n out (w_fs w0))
          (EFs <$> [ GeocoderChunked.set_output n GeocoderChunked.Truncated
                       (w_fs w0);
                     GeocoderChunked.set_output n (GeocoderChunked.Written out)
                       (w_fs w0);
                     GeocoderChunked.set_progress (Some GeocoderChunked.Truncated)
                       (GeocoderChunked.set_output n
                          (GeocoderChunked.Written out) (w_fs w0));
                     GeocoderChunked.set_progress
                       (Some (GeocoderChunked.Written n))
                       (GeocoderChunked.set_output n
                          (GeocoderChunked.Written out) (w_fs w0)) ])))
  ∧ Forall checkpoint_ok (snapshots (emitted run w))
  ∧ checkpoint_ok (w_fs (run w).2).
Proof.
  intros Hok run. split.
  - intros n out w0.
    unfold bind, GeocoderChunked.to_csv, GeocoderChunked.write_progress,
      get_fs, put_fs, bind, after, after_chunk.
    cbn [w_fs w_log fmap list_fmap].
    unfold GeocoderChunked.set_output, GeocoderChunked.set_progress.
    cbn [GeocoderChunked.progress GeocoderChunked.outputs].
    rewrite !insert_insert_eq. by rewrite <- !app_assoc.
  - destruct (process_file_chunked_spec service as_column scheds address_column
                chunks w) as (l & Hlog & _ & Hinv & _).
    cbn zeta in *. fold run in Hlog, Hinv.
    rewrite (emitted_app run w l Hlog). by apply Hinv.
Qed.

Lemma output_is_complete_before_the_checkpoint_names_it_witness :
  let service : service_t GeocoderChunked.fs := Demo.knows (u "東京都千代田区") in
  let w := Demo.fresh Demo.resumable in
  let run := GeocoderChunked.process_file_chunked service Demo.as_column
               (fun _ => []) (u "住所") [Demo.chunk; Demo.chunk] in
  Forall checkpoint_ok (snapshots (emitted run w))
  ∧ checkpoint_ok (w_fs (run w).2).
Proof.
  intros service w run.
  apply (output_is_complete_before_the_checkpoint_names_it service
           Demo.as_column (fun _ => []) (u "住所") [Demo.chunk; Demo.chunk] w).
  intros k [= <-] j Hj. assert (j = 1%Z) as -> by lia. by eexists.
Defined.

(** C2, as stated, fails: the output file is not replaced atomically.  In a
    run over one chunk that starts in an empty directory, the first state
    the file system goes through has the output file of the chunk
    truncated: a run interrupted there leaves a partial file. *)
Lemma output_is_partial_while_written :
  let service : service_t GeocoderChunked.fs := Demo.knows (u "東京都千代田区") in
  let run := GeocoderChunked.process_file_chunked service Demo.as_column
               (fun _ => []) (u "住所") [Demo.chunk] in
  (fun s => (GeocoderChunked.progress s, GeocoderChunked.outputs s !! 1%Z))
    <$> head (snapshots (emitted run (Demo.fresh Demo.empty_dir)))
  = Some (None, Some GeocoderChunked.Truncated).
Proof. vm_compute. reflexivity. Qed.

(** ** Where a run resumes *)

Section AsksFacts.
Context {F : Type}.


Lemma asks_of_pyres {A} (Q : pystr → Prop) (r : pyres A) :
  asks_only Q (of_pyres (F:=F) r).
Proof. intros w. exists []. by rewrite app_nil_r. Qed.











End AsksFacts.

Section ResumeFacts.
Import GeocoderChunked.
Context (service : service_t fs) (as_column : list json → json → json).
Context (scheds : Z → list nat) (col : pystr).






End ResumeFacts.


